(** * Vocabulary trainer: the API routes of the repository, embedded in Rocq

    The development follows the three API routes of the repository:
    - [pages/api/quiz.ts]: question generation and the free-text answer check;
    - the vocabulary route ([GET], [POST], [PUT], [DELETE] on the word list);
    - the topics route (listing, renaming and deleting topics).

    Every route reads the whole collection from one JSON file and, when it
    mutates, writes the whole collection back.

    It also follows what the quiz page and the vocabulary page send to these
    routes (a typed answer, the form, a delete, the bulk add by selection) and
    how the vocabulary page cuts the word list into pages. *)

From stdpp Require Import base numbers list strings gmap pretty sorting.

(** ** JavaScript strings

    A JavaScript string is a sequence of UTF-16 code units.  The source text
    of the literals is UTF-8; [literal] decodes a literal into its code units. *)

Abbreviation jsstring := (list N).

Fixpoint bytes_of_string (s : string) : list N :=
  match s with
  | EmptyString => []
  | String a t => Ascii.N_of_ascii a :: bytes_of_string t
  end.

(** Code points of a well-formed UTF-8 byte sequence. *)
Fixpoint utf8_code_points (bs : list N) : list N :=
  match bs with
  | [] => []
  | b :: t =>
    if (b <? 0x80)%N then b :: utf8_code_points t
    else if (b <? 0xE0)%N then
      match t with
      | c :: t' => ((b - 0xC0) * 0x40 + (c - 0x80))%N :: utf8_code_points t'
      | _ => []
      end
    else if (b <? 0xF0)%N then
      match t with
      | c :: d :: t' =>
        ((b - 0xE0) * 0x1000 + (c - 0x80) * 0x40 + (d - 0x80))%N
          :: utf8_code_points t'
      | _ => []
      end
    else
      match t with
      | c :: d :: e :: t' =>
        ((b - 0xF0) * 0x40000 + (c - 0x80) * 0x1000 + (d - 0x80) * 0x40
         + (e - 0x80))%N :: utf8_code_points t'
      | _ => []
      end
  end.

(** UTF-16: a code point above the basic plane is a surrogate pair. *)
Definition utf16_units (cp : N) : jsstring :=
  if (cp <? 0x10000)%N then [cp]
  else [(0xD800 + (cp - 0x10000) / 0x400)%N; (0xDC00 + (cp - 0x10000) mod 0x400)%N].

Definition literal (s : string) : jsstring :=
  utf8_code_points (bytes_of_string s) ≫= utf16_units.

(** [js "text"] is the literal, decoded once where it is written. *)
Notation "'js' s" :=
  (ltac:(let units := eval vm_compute in (literal s) in exact units))
  (at level 10, s at level 9, only parsing).

(** [a === b] on strings. *)
Definition str_eqb (a b : jsstring) : bool := bool_decide (a = b).

(** A string is truthy when it is not empty. *)
Definition truthy (s : jsstring) : bool :=
  match s with [] => false | _ :: _ => true end.

(** *** White space: [String.prototype.trim] and the regular expression [\s]

    Both use the same set: the WhiteSpace and LineTerminator code points. *)
Definition isWhiteSpace (c : N) : bool :=
  ((0x09 <=? c) && (c <=? 0x0D) || (c =? 0x20) || (c =? 0xA0) || (c =? 0x1680)
   || (0x2000 <=? c) && (c <=? 0x200A) || (c =? 0x2028) || (c =? 0x2029)
   || (c =? 0x202F) || (c =? 0x205F) || (c =? 0x3000) || (c =? 0xFEFF))%N.

Fixpoint dropWhile {A} (p : A → bool) (l : list A) : list A :=
  match l with
  | [] => []
  | x :: t => if p x then dropWhile p t else l
  end.

Definition trimStart (s : jsstring) : jsstring := dropWhile isWhiteSpace s.
Definition trimEnd (s : jsstring) : jsstring := reverse (trimStart (reverse s)).
Definition trim (s : jsstring) : jsstring := trimEnd (trimStart s).

(** [s.replace(/\s+/g, ' ')]: every maximal run of white space becomes one
    space.  [inRun] tells that the previous code unit was white space. *)
Fixpoint collapseFrom (inRun : bool) (s : jsstring) : jsstring :=
  match s with
  | [] => []
  | c :: t =>
    if isWhiteSpace c
    then (if inRun then collapseFrom true t else 0x20%N :: collapseFrom true t)
    else c :: collapseFrom false t
  end.
Definition collapseWhiteSpace (s : jsstring) : jsstring := collapseFrom false s.

(** [s.replace(/[.,!?;:()]/g, '')]. *)
Definition isPunctuation (c : N) : bool :=
  ((c =? 0x2E) || (c =? 0x2C) || (c =? 0x21) || (c =? 0x3F) || (c =? 0x3B)
   || (c =? 0x3A) || (c =? 0x28) || (c =? 0x29))%N.
Definition removePunctuation (s : jsstring) : jsstring :=
  List.filter (λ c, negb (isPunctuation c)) s.

(** [s.replace(/[\u0300-\u036f]/g, '')]. *)
Definition isCombiningMark (c : N) : bool := ((0x300 <=? c) && (c <=? 0x36F))%N.
Definition removeCombiningMarks (s : jsstring) : jsstring :=
  List.filter (λ c, negb (isCombiningMark c)) s.

(** [s.includes(p)]: [p] occurs in [s] as a contiguous run of code units. *)
Fixpoint startsWith (s p : jsstring) : bool :=
  match p, s with
  | [], _ => true
  | _ :: _, [] => false
  | a :: p', b :: s' => (a =? b)%N && startsWith s' p'
  end.

Fixpoint includes (s p : jsstring) : bool :=
  startsWith s p || match s with [] => false | _ :: s' => includes s' p end.

(** [s.split(' ')]. *)
Fixpoint split (sep : N) (s : jsstring) : list jsstring :=
  match s with
  | [] => [[]]
  | c :: t =>
    if (c =? sep)%N then [] :: split sep t
    else match split sep t with
         | w :: ws => (c :: w) :: ws
         | [] => [[c]]
         end
  end.

(** [a.join(sep)] on an array of strings. *)
Fixpoint join (sep : jsstring) (l : list jsstring) : jsstring :=
  match l with
  | [] => []
  | [s] => s
  | s :: t => s ++ sep ++ join sep t
  end.

(** *** Case mapping and normalization

    [toLowerCase] and [normalize] are driven by the Unicode tables of the
    engine.  The routes are stated over any implementation of the three
    primitives; [latin_vietnamese] below implements them on the repertoire
    the application is used with. *)
Class Unicode := {
  toLowerCase : jsstring → jsstring;
  normalizeNFD : jsstring → jsstring;
  normalizeNFC : jsstring → jsstring
}.

Module Repertoire.
(** Basic Latin, Latin-1 Supplement and the Vietnamese letters
    (Ă ă Đ đ Ĩ ĩ Ũ ũ Ơ ơ Ư ư and U+1EA0 to U+1EF9).  On text of this
    repertoire, and on caseless text without canonical decompositions in the
    basic plane (kana without voicing marks, CJK), the three functions agree
    with the engine; other code units pass through unchanged. *)

Definition lowerUnit (c : N) : N :=
  (if (0x41 <=? c) && (c <=? 0x5A) then c + 0x20
   else if (0xC0 <=? c) && (c <=? 0xDE) && negb (c =? 0xD7) then c + 0x20
   else if (c =? 0x102) || (c =? 0x110) || (c =? 0x128) || (c =? 0x168)
           || (c =? 0x1A0) || (c =? 0x1AF) then c + 1
   else if (0x1EA0 <=? c) && (c <=? 0x1EF9) && N.even c then c + 1
   else c)%N.

(** Canonical decompositions of the lower-case letters: the letter, its
    base letter and the combining marks that follow it. *)
Definition decompositions : list (N * (N * list N)) :=
  [ (0x00E0, (0x61, [0x0300])); (0x00E1, (0x61, [0x0301]));
    (0x00E2, (0x61, [0x0302])); (0x00E3, (0x61, [0x0303]));
    (0x00E4, (0x61, [0x0308])); (0x00E5, (0x61, [0x030A]));
    (0x00E7, (0x63, [0x0327]));
    (0x00E8, (0x65, [0x0300])); (0x00E9, (0x65, [0x0301]));
    (0x00EA, (0x65, [0x0302])); (0x00EB, (0x65, [0x0308]));
    (0x00EC, (0x69, [0x0300])); (0x00ED, (0x69, [0x0301]));
    (0x00EE, (0x69, [0x0302])); (0x00EF, (0x69, [0x0308]));
    (0x00F1, (0x6E, [0x0303]));
    (0x00F2, (0x6F, [0x0300])); (0x00F3, (0x6F, [0x0301]));
    (0x00F4, (0x6F, [0x0302])); (0x00F5, (0x6F, [0x0303]));
    (0x00F6, (0x6F, [0x0308]));
    (0x00F9, (0x75, [0x0300])); (0x00FA, (0x75, [0x0301]));
    (0x00FB, (0x75, [0x0302])); (0x00FC, (0x75, [0x0308]));
    (0x00FD, (0x79, [0x0301])); (0x00FF, (0x79, [0x0308]));
    (0x0103, (0x61, [0x0306])); (0x0129, (0x69, [0x0303]));
    (0x0169, (0x75, [0x0303])); (0x01A1, (0x6F, [0x031B]));
    (0x01B0, (0x75, [0x031B]));
    (0x1EA1, (0x61, [0x0323])); (0x1EA3, (0x61, [0x0309]));
    (0x1EA5, (0x61, [0x0302; 0x0301])); (0x1EA7, (0x61, [0x0302; 0x0300]));
    (0x1EA9, (0x61, [0x0302; 0x0309])); (0x1EAB, (0x61, [0x0302; 0x0303]));
    (0x1EAD, (0x61, [0x0323; 0x0302])); (0x1EAF, (0x61, [0x0306; 0x0301]));
    (0x1EB1, (0x61, [0x0306; 0x0300])); (0x1EB3, (0x61, [0x0306; 0x0309]));
    (0x1EB5, (0x61, [0x0306; 0x0303])); (0x1EB7, (0x61, [0x0323; 0x0306]));
    (0x1EB9, (0x65, [0x0323])); (0x1EBB, (0x65, [0x0309]));
    (0x1EBD, (0x65, [0x0303]));
    (0x1EBF, (0x65, [0x0302; 0x0301])); (0x1EC1, (0x65, [0x0302; 0x0300]));
    (0x1EC3, (0x65, [0x0302; 0x0309])); (0x1EC5, (0x65, [0x0302; 0x0303]));
    (0x1EC7, (0x65, [0x0323; 0x0302]));
    (0x1EC9, (0x69, [0x0309])); (0x1ECB, (0x69, [0x0323]));
    (0x1ECD, (0x6F, [0x0323])); (0x1ECF, (0x6F, [0x0309]));
    (0x1ED1, (0x6F, [0x0302; 0x0301])); (0x1ED3, (0x6F, [0x0302; 0x0300]));
    (0x1ED5, (0x6F, [0x0302; 0x0309])); (0x1ED7, (0x6F, [0x0302; 0x0303]));
    (0x1ED9, (0x6F, [0x0323; 0x0302]));
    (0x1EDB, (0x6F, [0x031B; 0x0301])); (0x1EDD, (0x6F, [0x031B; 0x0300]));
    (0x1EDF, (0x6F, [0x031B; 0x0309])); (0x1EE1, (0x6F, [0x031B; 0x0303]));
    (0x1EE3, (0x6F, [0x031B; 0x0323]));
    (0x1EE5, (0x75, [0x0323])); (0x1EE7, (0x75, [0x0309]));
    (0x1EE9, (0x75, [0x031B; 0x0301])); (0x1EEB, (0x75, [0x031B; 0x0300]));
    (0x1EED, (0x75, [0x031B; 0x0309])); (0x1EEF, (0x75, [0x031B; 0x0303]));
    (0x1EF1, (0x75, [0x031B; 0x0323]));
    (0x1EF3, (0x79, [0x0300])); (0x1EF5, (0x79, [0x0323]));
    (0x1EF7, (0x79, [0x0309])); (0x1EF9, (0x79, [0x0303])) ]%N.

Fixpoint lookupUnit {V} (c : N) (t : list (N * V)) : option V :=
  match t with
  | [] => None
  | (k, v) :: t' => if (k =? c)%N then Some v else lookupUnit c t'
  end.

(** An upper-case letter decomposes as its lower-case letter does, over the
    upper-case base letter. *)
Definition decomposeUnit (c : N) : jsstring :=
  match lookupUnit c decompositions with
  | Some (base, marks) => base :: marks
  | None =>
    if (lowerUnit c =? c)%N then [c]
    else match lookupUnit (lowerUnit c) decompositions with
         | Some (base, marks) => (base - 0x20)%N :: marks
         | None => [c]
         end
  end.

Definition lower (s : jsstring) : jsstring := lowerUnit <$> s.
Definition nfd (s : jsstring) : jsstring := s ≫= decomposeUnit.
(** Composition: the text that reaches it in this program has had its
    combining marks removed, and is left as it is. *)
Definition nfc (s : jsstring) : jsstring := s.
End Repertoire.

#[global] Instance latin_vietnamese : Unicode := {
  toLowerCase := Repertoire.lower;
  normalizeNFD := Repertoire.nfd;
  normalizeNFC := Repertoire.nfc
}.

(** ** Data model ([types/index.ts])

    [phonetic] and [topic] are declared as strings; the vocabulary route
    builds records without them, and a property that is absent from an object
    reads as [undefined], here [None]. *)
Module Vocabulary.
Record t := {
  id : Z;
  word : jsstring;
  meaning : jsstring;
  phonetic : option jsstring;
  topic : option jsstring
}.
End Vocabulary.

#[global] Instance Vocabulary_eq_dec : EqDecision Vocabulary.t.
Proof. solve_decision. Defined.

Module QuizQuestion.
Record t := {
  id : Z;
  question : option jsstring;
  correctAnswer : option jsstring;
  options : option (list (option jsstring));
  type : jsstring;
  word : jsstring;
  inputType : jsstring
}.
End QuizQuestion.

(** ** The store file

    The collection lives in [data/vocabulary.json].  The file is described by
    what [fs.readFileSync] followed by [JSON.parse] makes of it: the file is
    missing (the read throws), its text does not parse (the parse throws), or
    it holds an array of records.  [writeVocabulary] replaces the whole file
    with the serialized collection, which parses back to the same records. *)
Inductive StoreFile :=
| Missing
| Unparseable (text : jsstring)
| Holds (records : list Vocabulary.t).

Inductive Outcome (A : Type) :=
| Returned (a : A)
| Thrown.
Arguments Returned {A} a.
Arguments Thrown {A}.

Definition readFileSync_parse (f : StoreFile) : Outcome (list Vocabulary.t) :=
  match f with
  | Missing => Thrown
  | Unparseable _ => Thrown
  | Holds records => Returned records
  end.

(** [readVocabulary]: the [catch] arm logs the error and returns [[]]. *)
Definition readVocabulary (f : StoreFile) : list Vocabulary.t :=
  match readFileSync_parse f with
  | Returned records => records
  | Thrown => []
  end.

Definition writeVocabulary (vocabulary : list Vocabulary.t) : StoreFile :=
  Holds vocabulary.

(** ** Requests and responses *)
Inductive QueryValue :=
| QSingle (s : jsstring)
| QMany (l : list jsstring).

(** A JSON value of a request body: a string or an integer number. *)
Inductive BodyValue :=
| BString (s : jsstring)
| BNumber (n : Z).

#[global] Instance BodyValue_eq_dec : EqDecision BodyValue.
Proof. solve_decision. Defined.

(** [!x] on a value of the request body. *)
Definition falsy (v : option BodyValue) : bool :=
  match v with
  | None => true
  | Some (BString s) => negb (truthy s)
  | Some (BNumber n) => (n =? 0)%Z
  end.

(** A string method called on a body value: a number has none. *)
Definition asString (v : option BodyValue) : Outcome jsstring :=
  match v with
  | Some (BString s) => Returned s
  | _ => Thrown
  end.

Record Request := {
  method : jsstring;
  query : gmap string QueryValue;
  body : gmap string BodyValue
}.

Inductive Json :=
| JError (error : jsstring)
| JQuestion (q : QuizQuestion.t)
| JAnswerCheck (isCorrect : bool) (userAnswer correctAnswer : jsstring)
               (isVietnamese : bool)
| JRecords (l : list Vocabulary.t)
| JRecord (v : Vocabulary.t)
| JMessage (message : jsstring)
| JTopicStats (stats : list (option jsstring * nat))
| JTopicCreated (message topic : jsstring)
| JRenamed (message : jsstring) (updatedCount : nat)
| JDeleted (message : jsstring) (deletedCount : nat).

Record Response := {
  status : Z;
  allow : option (list jsstring);
  json : Json
}.

Definition respond (code : Z) (j : Json) : Response :=
  {| status := code; allow := None; json := j |}.

Definition notAllowed (methods : list jsstring) (m : jsstring) : Response :=
  {| status := 405; allow := Some methods;
     json := JError (js "Method " ++ m ++ js " not allowed") |}.

(** ** Randomness and exceptions

    [Math.random()] yields a double in [[0, 1)]; a draw is its 53-bit
    numerator [m], standing for [m / 2^53].  The source of randomness is the
    sequence of the draws still to come.  A computation may also throw, which
    the handlers catch. *)
Definition Entropy := nat → N.

Definition Eff (A : Type) := Entropy → Outcome A * Entropy.

Definition ret {A} (a : A) : Eff A := λ e, (Returned a, e).
Definition throw {A} : Eff A := λ e, (Thrown, e).
Definition bind {A B} (m : Eff A) (k : A → Eff B) : Eff B :=
  λ e, match m e with
       | (Returned a, e') => k a e'
       | (Thrown, e') => (Thrown, e')
       end.

Declare Scope eff_scope.
Delimit Scope eff_scope with eff.
Notation "x <- m ;; k" := (bind m (λ x, k))
  (at level 100, m at next level, right associativity) : eff_scope.
Local Open Scope eff_scope.

Definition rest (e : Entropy) : Entropy := λ n, e (S n).

Definition Math_random : Eff N :=
  λ e, (Returned (e 0%nat mod 2 ^ 53)%N, rest e).

(** [Math.floor(Math.random() * n)], the product taken exactly. *)
Definition randomIndex (n : nat) : Eff nat :=
  m <- Math_random ;; ret (N.to_nat (m * N.of_nat n / 2 ^ 53)).

(** [Math.random() < 0.5]. *)
Definition randomHalf : Eff bool :=
  m <- Math_random ;; ret (m <? 2 ^ 52)%N.

(** Reading a property of [array[i]]: an index outside the array yields
    [undefined], and reading a property of it throws a TypeError. *)
Definition element {A} (array : list A) (i : nat) : Eff A :=
  match array !! i with
  | Some x => ret x
  | None => throw
  end.

(** ** [pages/api/quiz.ts] *)
Module Quiz.

(** [[a[i], a[j]] = [a[j], a[i]]].  Both indices are below the length
    wherever the shuffle uses it. *)
Definition swap {A} (a : list A) (i j : nat) : list A :=
  match a !! i, a !! j with
  | Some x, Some y => <[j:=x]> (<[i:=y]> a)
  | _, _ => a
  end.

(** The loop of [shuffleArray], entered with counter [i]. *)
Fixpoint shuffleFrom {A} (i : nat) (shuffled : list A) : Eff (list A) :=
  match i with
  | O => ret shuffled
  | S i' =>
    j <- randomIndex (i + 1) ;;
    shuffleFrom i' (swap shuffled i j)
  end.

Definition shuffleArray {A} (array : list A) : Eff (list A) :=
  shuffleFrom (length array - 1) array.

Section Checker.
Context `{Unicode}.

Definition normalizeVietnamese (text : jsstring) : jsstring :=
  normalizeNFC
    (removeCombiningMarks
       (normalizeNFD
          (removePunctuation
             (collapseWhiteSpace (trim (toLowerCase text)))))).

Definition isAnswerCorrect (userAnswer correctAnswer : jsstring)
    (isVietnamese : bool) : bool :=
  if negb (truthy userAnswer) || negb (truthy correctAnswer) then false
  else if isVietnamese then
    let normalizedUser := normalizeVietnamese userAnswer in
    let normalizedCorrect := normalizeVietnamese correctAnswer in
    if str_eqb normalizedUser normalizedCorrect then true
    else if includes normalizedUser normalizedCorrect
            || includes normalizedCorrect normalizedUser then true
    else
      let userWords := split 0x20 normalizedUser in
      let correctWords := split 0x20 normalizedCorrect in
      if forallb (λ word,
           existsb (λ userWord,
             includes userWord word || includes word userWord) userWords)
           correctWords
      then true
      else false
  else str_eqb (normalizeVietnamese userAnswer)
               (normalizeVietnamese correctAnswer).
End Checker.

(** [topic && topic !== 'all'] on an optional string. *)
Definition topicSelected (topic : option jsstring) : option jsstring :=
  match topic with
  | Some t => if truthy t && negb (str_eqb t (js "all")) then Some t else None
  | None => None
  end.

Definition filterByTopic (vocabulary : list Vocabulary.t)
    (topic : option jsstring) : list Vocabulary.t :=
  match topicSelected topic with
  | Some t => filter (λ v, Vocabulary.topic v = Some t) vocabulary
  | None => vocabulary
  end.

Definition generateQuestion (vocabulary : list Vocabulary.t)
    (mode : jsstring) (topic : option jsstring)
    : Eff (option QuizQuestion.t) :=
  let filteredVocabulary := filterByTopic vocabulary topic in
  if (length filteredVocabulary =? 0)%nat then ret None
  else if (length vocabulary <? 4)%nat then ret None
  else
    i <- randomIndex (length filteredVocabulary) ;;
    correctItem <- element filteredVocabulary i ;;
    typing <-
      (if str_eqb mode (js "mixed") then
         half <- randomHalf ;;
         ret (if half then js "phonetic-to-meaning"
              else js "meaning-to-phonetic", js "multiple-choice")
       else if str_eqb mode (js "mixed-text") then
         half <- randomHalf ;;
         ret (if half then js "phonetic-to-meaning-text"
              else js "meaning-to-phonetic-text", js "text-input")
       else if includes mode (js "-text") then ret (mode, js "text-input")
       else ret (mode, js "multiple-choice")) ;;
    let '(questionType, inputType) := typing in
    let '(question, correctAnswer) :=
      if str_eqb questionType (js "phonetic-to-meaning")
         || str_eqb questionType (js "phonetic-to-meaning-text")
      then (Vocabulary.phonetic correctItem,
            Some (Vocabulary.meaning correctItem))
      else (Some (Vocabulary.meaning correctItem),
            Vocabulary.phonetic correctItem) in
    options <-
      (if str_eqb inputType (js "multiple-choice") then
         let optionPool :=
           if str_eqb questionType (js "phonetic-to-meaning")
           then filter (λ m, m ≠ correctAnswer)
                  ((λ v, Some (Vocabulary.meaning v)) <$> vocabulary)
           else filter (λ p, p ≠ correctAnswer)
                  (Vocabulary.phonetic <$> vocabulary) in
         shuffledPool <- shuffleArray optionPool ;;
         let incorrectOptions := take 3 shuffledPool in
         allOptions <- shuffleArray (correctAnswer :: incorrectOptions) ;;
         ret (Some allOptions)
       else ret None) ;;
    ret (Some {| QuizQuestion.id := Vocabulary.id correctItem;
                 QuizQuestion.question := question;
                 QuizQuestion.correctAnswer := correctAnswer;
                 QuizQuestion.options := options;
                 QuizQuestion.type := questionType;
                 QuizQuestion.word := Vocabulary.word correctItem;
                 QuizQuestion.inputType := inputType |}).

Definition validModes : list jsstring :=
  [js "phonetic-to-meaning"; js "meaning-to-phonetic"; js "mixed";
   js "phonetic-to-meaning-text"; js "meaning-to-phonetic-text";
   js "mixed-text"].

(** [typeof x === 'string' ? x : undefined] on a query value. *)
Definition queryString (v : option QueryValue) : option jsstring :=
  match v with
  | Some (QSingle s) => Some s
  | _ => None
  end.

(** Truthiness of a query value: an array is truthy, the empty string and
    [undefined] are not. *)
Definition queryTruthy (v : option QueryValue) : bool :=
  match v with
  | Some (QSingle s) => truthy s
  | Some (QMany _) => true
  | None => false
  end.

(** A query value inside a template literal. *)
Definition queryText (v : option QueryValue) : jsstring :=
  match v with
  | Some (QSingle s) => s
  | Some (QMany l) => join (js ",") l
  | None => js "undefined"
  end.

(** [try { ... } catch { return res.status(500)... }]. *)
Definition catch (m : Eff Response) (failed : Response)
    : Entropy → Response * Entropy :=
  λ e, match m e with
       | (Returned r, e') => (r, e')
       | (Thrown, e') => (failed, e')
       end.

Definition handleGet (file : StoreFile) (req : Request) : Eff Response :=
  let vocabulary := readVocabulary file in
  let mode := default (QSingle (js "mixed")) (query req !! "mode") in
  let topic := query req !! "topic" in
  if (length vocabulary =? 0)%nat then
    ret (respond 400 (JError (js "No vocabulary available for quiz")))
  else
    let filteredVocabulary :=
      match topic with
      | Some (QSingle t) =>
        if truthy t && negb (str_eqb t (js "all"))
        then filter (λ v, Vocabulary.topic v = Some t) vocabulary
        else vocabulary
      | _ => vocabulary
      end in
    if (length filteredVocabulary =? 0)%nat then
      ret (respond 400 (JError
             (js "No vocabulary items found" ++
              (if queryTruthy topic
               then js " in topic " ++ [0x22%N] ++ queryText topic ++ [0x22%N]
               else []))))
    else if (length vocabulary <? 4)%nat then
      ret (respond 400 (JError
             (js "At least 4 vocabulary items are required for quiz mode")))
    else
      let quizMode :=
        match mode with
        | QSingle m => if bool_decide (m ∈ validModes) then m else js "mixed"
        | QMany _ => js "mixed"
        end in
      question <- generateQuestion vocabulary quizMode (queryString topic) ;;
      match question with
      | None =>
        ret (respond 500 (JError (js "Failed to generate quiz question")))
      | Some q => ret (respond 200 (JQuestion q))
      end.

Section Handler.
Context `{Unicode}.

Definition handlePost (req : Request) : Eff Response :=
  let userAnswer := body req !! "userAnswer" in
  let correctAnswer := body req !! "correctAnswer" in
  let questionType := body req !! "questionType" in
  if falsy userAnswer || falsy correctAnswer || falsy questionType then
    ret (respond 400 (JError (js "Missing required fields")))
  else
    let isVietnamese :=
      bool_decide (questionType = Some (BString (js "phonetic-to-meaning-text")))
      || bool_decide (questionType = Some (BString (js "meaning-to-phonetic-text"))) in
    match asString userAnswer, asString correctAnswer with
    | Returned u, Returned c =>
      ret (respond 200 (JAnswerCheck (isAnswerCorrect u c isVietnamese)
                          u c isVietnamese))
    | _, _ => throw
    end.

Definition handler (file : StoreFile) (req : Request)
    : Entropy → Response * Entropy :=
  if str_eqb (method req) (js "GET") then
    catch (handleGet file req)
      (respond 500 (JError (js "Failed to generate quiz question")))
  else if str_eqb (method req) (js "POST") then
    catch (handlePost req)
      (respond 500 (JError (js "Failed to check answer")))
  else λ e, (notAllowed [js "GET"; js "POST"] (method req), e).
End Handler.

End Quiz.

(** ** Helpers shared by the vocabulary and topics routes *)

Definition andThen {A B} (m : Outcome A) (k : A → Outcome B) : Outcome B :=
  match m with
  | Returned a => k a
  | Thrown => Thrown
  end.

Declare Scope outcome_scope.
Delimit Scope outcome_scope with outcome.
Notation "x <~ m ;; k" := (andThen m (λ x, k))
  (at level 100, m at next level, right associativity) : outcome_scope.

(** [array.find(p)] where the callback may throw: the callback runs on the
    elements in order, up to the first one it accepts. *)
Fixpoint findWith {A} (p : A → Outcome bool) (l : list A) : Outcome (option A) :=
  match l with
  | [] => Returned None
  | x :: t =>
    match p x with
    | Returned true => Returned (Some x)
    | Returned false => findWith p t
    | Thrown => Thrown
    end
  end.

(** *** Numbers

    A JavaScript number is a double.  The ids of the records and the numbers
    of a request body are integers here; such an integer is a number when
    it has at most 53 significant bits.  [roundToDouble] is the number that
    an integer, the result of an exact sum say, is rounded to: the nearest
    one, and of two nearest ones the one with the even significand.  (Past
    [2^1024] the code has [Infinity], which is not modelled.) *)
Definition roundToDouble (x : Z) : Z :=
  let a := Z.abs x in
  if (a <? 2 ^ 53)%Z then x
  else
    let e := (Z.log2 a - 52)%Z in
    let q := (a / 2 ^ e)%Z in
    let r := (a mod 2 ^ e)%Z in
    let half := (2 ^ (e - 1))%Z in
    let q := if (half <? r)%Z || ((r =? half)%Z && Z.odd q)
             then (q + 1)%Z else q in
    (Z.sgn x * (q * 2 ^ e))%Z.

(** [Number.isSafeInteger]: between such integers sums and comparisons are
    exact. *)
Definition safeInteger (n : Z) : Prop := (- 2 ^ 53 < n < 2 ^ 53)%Z.

(** The decimal digits of an integer, after a minus sign when it is
    negative. *)
Definition decimal (n : Z) : jsstring := literal (pretty n).

Definition digitCount (a : Z) : Z := Z.of_nat (length (decimal a)).

(** The decimal that [Number::toString] prints for the positive number [a]:
    of the decimals that read as [a], one with the fewest significant digits
    [k], and among those the nearest to [a]; 17 digits always do. *)
Fixpoint shortestFrom (fuel : nat) (k a : Z) : Z :=
  match fuel with
  | O => a
  | S fuel' =>
    let unit := (10 ^ (digitCount a - k))%Z in
    let below := (a / unit * unit)%Z in
    let above := (below + unit)%Z in
    let belowReads := (roundToDouble below =? a)%Z in
    let aboveReads := (roundToDouble above =? a)%Z in
    if belowReads && aboveReads then
      if (a - below <? above - a)%Z then below
      else if (above - a <? a - below)%Z then above
      else if Z.even (below / unit) then below else above
    else if belowReads then below
    else if aboveReads then above
    else shortestFrom fuel' (k + 1)%Z a
  end.

(** The exponent form of a positive integer: its first digit, the further
    digits up to the last one that is not zero after a point, and the
    exponent. *)
Definition exponential (v : Z) : jsstring :=
  let digits := decimal v in
  match reverse (dropWhile (λ c, (c =? 0x30)%N) (reverse digits)) with
  | [] => digits
  | d :: rest =>
    [d] ++ (match rest with [] => [] | _ => 0x2E%N :: rest end)
        ++ [0x65%N; 0x2B%N] ++ decimal (Z.of_nat (length digits) - 1)
  end.

(** [String(n)] on a number that is an integer, as a template literal and
    [parseInt] print it.  A safe integer prints as its digits; a greater one
    prints the shortest decimal that reads as it, with zeros in the place of
    the further digits, and from [10^21] on in exponent form. *)
Definition numberToString (n : Z) : jsstring :=
  if (Z.abs n <? 2 ^ 53)%Z then decimal n
  else
    let printed := shortestFrom 17 1 (Z.abs n) in
    (if (n <? 0)%Z then [0x2D%N] else [])
      ++ (if (printed <? 10 ^ 21)%Z then decimal printed
          else exponential printed).

(** [parseInt(s)] on a string: leading white space, a sign, a [0x] prefix,
    then the longest run of digits, read as the nearest number; [None] is
    [NaN].  (The standard lets an engine read a decimal of more than 20
    digits less exactly; V8 reads the nearest number.) *)
Definition digitValue (radix c : N) : option N :=
  let d := (if (0x30 <=? c) && (c <=? 0x39) then c - 0x30
            else if (0x61 <=? c) && (c <=? 0x7A) then c - 0x61 + 10
            else if (0x41 <=? c) && (c <=? 0x5A) then c - 0x41 + 10
            else 36)%N in
  if (d <? radix)%N then Some d else None.

Fixpoint parseDigits (radix : N) (acc : option N) (s : jsstring) : option N :=
  match s with
  | [] => acc
  | c :: t =>
    match digitValue radix c with
    | Some d => parseDigits radix (Some (default 0 acc * radix + d)%N) t
    | None => acc
    end
  end.

Definition parseInt (s : jsstring) : option Z :=
  let s := trimStart s in
  let '(negative, s) :=
    match s with
    | 0x2D%N :: t => (true, t)
    | 0x2B%N :: t => (false, t)
    | _ => (false, s)
    end in
  let '(radix, s) :=
    match s with
    | 0x30%N :: x :: t =>
      if (x =? 0x78)%N || (x =? 0x58)%N then (16%N, t) else (10%N, s)
    | _ => (10%N, s)
    end in
  match parseDigits radix None s with
  | Some n =>
    Some (roundToDouble (if negative : bool then - Z.of_N n else Z.of_N n))%Z
  | None => None
  end.

(** [parseInt(id)] on a body value: [parseInt] first turns a number into a
    string.  From [10^21] on it then reads the digits before the point or
    the exponent only. *)
Definition parseIntValue (v : BodyValue) : option Z :=
  match v with
  | BString s => parseInt s
  | BNumber n => parseInt (numberToString n)
  end.

(** *** The engine

    A call takes only so many arguments: past a bound that depends on the
    engine and on the size of its stack, spreading an array into a call
    throws a [RangeError]. *)
Class Engine := {
  maxArguments : N
}.

(** [try { ... } catch { return res.status(500)... }] around a handler arm
    that answers and possibly rewrites the file; a throw happens before any
    write. *)
Definition guarded (file : StoreFile) (m : Outcome (Response * StoreFile))
    (failed : Response) : Response * StoreFile :=
  match m with
  | Returned r => r
  | Thrown => (failed, file)
  end.

(** ** The vocabulary route *)
Module VocabularyRoute.
Local Open Scope outcome_scope.

(** [Math.max(...ids) + 1]: the ids are spread into the call, and the sum is
    a sum of numbers. *)
Definition getNextId `{Engine} (vocabulary : list Vocabulary.t) : Outcome Z :=
  match Vocabulary.id <$> vocabulary with
  | [] => Returned 1%Z
  | x :: ids =>
    if (maxArguments <? N.of_nat (length (x :: ids)))%N then Thrown
    else Returned (roundToDouble (foldl Z.max x ids + 1))
  end.

Section Handler.
Context `{Unicode} `{Engine}.

Definition handleGet (file : StoreFile) (req : Request)
    : Outcome (Response * StoreFile) :=
  let vocabulary := readVocabulary file in
  match query req !! "search" with
  | Some (QSingle search) =>
    if truthy search then
      let searchTerm := toLowerCase search in
      let filtered :=
        filter (λ v,
          includes (toLowerCase (Vocabulary.word v)) searchTerm
          || includes (toLowerCase (Vocabulary.meaning v)) searchTerm)
          vocabulary in
      Returned (respond 200 (JRecords filtered), file)
    else Returned (respond 200 (JRecords vocabulary), file)
  | _ => Returned (respond 200 (JRecords vocabulary), file)
  end.

Definition handlePost (file : StoreFile) (req : Request)
    : Outcome (Response * StoreFile) :=
  let word := body req !! "word" in
  let meaning := body req !! "meaning" in
  if falsy word || falsy meaning then
    Returned (respond 400 (JError (js "Word and meaning are required")), file)
  else
    let vocabulary := readVocabulary file in
    existingWord <~
      findWith (λ v,
        w <~ asString word ;;
        Returned (str_eqb (toLowerCase (Vocabulary.word v)) (toLowerCase w)))
        vocabulary ;;
    match existingWord with
    | Some _ =>
      Returned (respond 400 (JError (js "Word already exists")), file)
    | None =>
      id <~ getNextId vocabulary ;;
      w <~ asString word ;;
      m <~ asString meaning ;;
      let newVocabulary :=
        {| Vocabulary.id := id;
           Vocabulary.word := trim w;
           Vocabulary.meaning := trim m;
           Vocabulary.phonetic := None;
           Vocabulary.topic := None |} in
      let vocabulary := vocabulary ++ [newVocabulary] in
      Returned (respond 201 (JRecord newVocabulary),
                writeVocabulary vocabulary)
    end.

Definition handlePut (file : StoreFile) (req : Request)
    : Outcome (Response * StoreFile) :=
  let id := body req !! "id" in
  let word := body req !! "word" in
  let meaning := body req !! "meaning" in
  if falsy id || falsy word || falsy meaning then
    Returned (respond 400 (JError (js "ID, word and meaning are required")),
              file)
  else
    let vocabulary := readVocabulary file in
    (* [v.id === parseInt(id)]: NaN equals no id *)
    match id ≫= parseIntValue with
    | None =>
      Returned (respond 404 (JError (js "Vocabulary not found")), file)
    | Some n =>
      match list_find (λ v, Vocabulary.id v = n) vocabulary with
      | None =>
        Returned (respond 404 (JError (js "Vocabulary not found")), file)
      | Some (index, _) =>
        existingWord <~
          findWith (λ v,
            w <~ asString word ;;
            Returned
              (str_eqb (toLowerCase (Vocabulary.word v)) (toLowerCase w)
               && negb (bool_decide (Vocabulary.id v = n))))
            vocabulary ;;
        match existingWord with
        | Some _ =>
          Returned (respond 400 (JError (js "Word already exists")), file)
        | None =>
          w <~ asString word ;;
          m <~ asString meaning ;;
          let updated :=
            {| Vocabulary.id := n;
               Vocabulary.word := trim w;
               Vocabulary.meaning := trim m;
               Vocabulary.phonetic := None;
               Vocabulary.topic := None |} in
          let vocabulary := <[index:=updated]> vocabulary in
          Returned (respond 200 (JRecord updated),
                    writeVocabulary vocabulary)
        end
      end
    end.

Definition handleDelete (file : StoreFile) (req : Request)
    : Outcome (Response * StoreFile) :=
  match query req !! "id" with
  | Some (QSingle id) =>
    if truthy id then
      let vocabulary := readVocabulary file in
      let filteredVocabulary :=
        filter (λ v, Some (Vocabulary.id v) ≠ parseInt id) vocabulary in
      if (length filteredVocabulary =? length vocabulary)%nat then
        Returned (respond 404 (JError (js "Vocabulary not found")), file)
      else
        Returned (respond 200 (JMessage (js "Vocabulary deleted successfully")),
                  writeVocabulary filteredVocabulary)
    else Returned (respond 400 (JError (js "Valid ID is required")), file)
  | _ => Returned (respond 400 (JError (js "Valid ID is required")), file)
  end.

Definition handler (file : StoreFile) (req : Request)
    : Response * StoreFile :=
  if str_eqb (method req) (js "GET") then
    guarded file (handleGet file req)
      (respond 500 (JError (js "Failed to fetch vocabulary")))
  else if str_eqb (method req) (js "POST") then
    guarded file (handlePost file req)
      (respond 500 (JError (js "Failed to add vocabulary")))
  else if str_eqb (method req) (js "PUT") then
    guarded file (handlePut file req)
      (respond 500 (JError (js "Failed to update vocabulary")))
  else if str_eqb (method req) (js "DELETE") then
    guarded file (handleDelete file req)
      (respond 500 (JError (js "Failed to delete vocabulary")))
  else (notAllowed [js "GET"; js "POST"; js "PUT"; js "DELETE"] (method req), file).
End Handler.
End VocabularyRoute.

(** ** The topics route *)
Module TopicsRoute.
Local Open Scope outcome_scope.

(** [Array.from(new Set(values))]: the distinct values, each at its first
    occurrence. *)
Fixpoint distinct {A} `{EqDecision A} (seen l : list A) : list A :=
  match l with
  | [] => []
  | x :: t =>
    if bool_decide (x ∈ seen) then distinct seen t
    else x :: distinct (x :: seen) t
  end.

(** The default order of [sort]: strings by code units, [undefined] last. *)
Fixpoint str_ltb (a b : jsstring) : bool :=
  match a, b with
  | _, [] => false
  | [], _ :: _ => true
  | x :: a', y :: b' => (x <? y)%N || (x =? y)%N && str_ltb a' b'
  end.

Definition precedes (a b : option jsstring) : bool :=
  match a, b with
  | Some x, Some y => negb (str_ltb y x)
  | Some _, None => true
  | None, Some _ => false
  | None, None => true
  end.

Fixpoint insertSorted (x : option jsstring) (l : list (option jsstring))
    : list (option jsstring) :=
  match l with
  | [] => [x]
  | y :: t => if precedes x y then x :: l else y :: insertSorted x t
  end.

Definition sort (l : list (option jsstring)) : list (option jsstring) :=
  foldr insertSorted [] l.

Definition quoted (s : jsstring) : jsstring := [0x22%N] ++ s ++ [0x22%N].

Definition handleGet (file : StoreFile) : Outcome (Response * StoreFile) :=
  let vocabulary := readVocabulary file in
  let topics := sort (distinct [] (Vocabulary.topic <$> vocabulary)) in
  let topicStats :=
    (λ topic,
       (topic, length (filter (λ v, Vocabulary.topic v = topic) vocabulary)))
      <$> topics in
  Returned (respond 200 (JTopicStats topicStats), file).

Definition handlePost (file : StoreFile) (req : Request)
    : Outcome (Response * StoreFile) :=
  match body req !! "name" with
  | Some (BString name) =>
    if negb (truthy name) || str_eqb (trim name) [] then
      Returned (respond 400 (JError (js "Topic name is required")), file)
    else
      let topicName := trim name in
      let vocabulary := readVocabulary file in
      match list_find (λ v, Vocabulary.topic v = Some topicName) vocabulary with
      | Some _ =>
        Returned (respond 400 (JError (js "Topic already exists")), file)
      | None =>
        Returned (respond 200
                    (JTopicCreated (js "Topic created successfully") topicName),
                  file)
      end
  | _ => Returned (respond 400 (JError (js "Topic name is required")), file)
  end.

Definition handlePut (file : StoreFile) (req : Request)
    : Outcome (Response * StoreFile) :=
  match body req !! "oldName", body req !! "newName" with
  | Some (BString oldName), Some (BString newName) =>
    if negb (truthy oldName) || negb (truthy newName) then
      Returned (respond 400 (JError (js "Old name and new name are required")),
                file)
    else
      let oldTopicName := trim oldName in
      let newTopicName := trim newName in
      if str_eqb oldTopicName newTopicName then
        Returned (respond 400
                    (JError (js "New name must be different from old name")),
                  file)
      else
        let vocabulary := readVocabulary file in
        let oldTopicWords :=
          filter (λ v, Vocabulary.topic v = Some oldTopicName) vocabulary in
        if (length oldTopicWords =? 0)%nat then
          Returned (respond 404 (JError (js "Topic not found")), file)
        else
          match list_find (λ v, Vocabulary.topic v = Some newTopicName)
                  vocabulary with
          | Some _ =>
            Returned (respond 400 (JError (js "New topic name already exists")),
                      file)
          | None =>
            let updatedVocabulary :=
              (λ v,
                 if bool_decide (Vocabulary.topic v = Some oldTopicName)
                 then {| Vocabulary.id := Vocabulary.id v;
                         Vocabulary.word := Vocabulary.word v;
                         Vocabulary.meaning := Vocabulary.meaning v;
                         Vocabulary.phonetic := Vocabulary.phonetic v;
                         Vocabulary.topic := Some newTopicName |}
                 else v) <$> vocabulary in
            Returned (respond 200
                        (JRenamed
                           (js "Topic renamed from " ++ quoted oldTopicName
                            ++ js " to " ++ quoted newTopicName)
                           (length oldTopicWords)),
                      writeVocabulary updatedVocabulary)
          end
  | _, _ =>
    Returned (respond 400 (JError (js "Old name and new name are required")),
              file)
  end.

Definition handleDelete (file : StoreFile) (req : Request)
    : Outcome (Response * StoreFile) :=
  match body req !! "name" with
  | Some (BString name) =>
    if negb (truthy name) || str_eqb (trim name) [] then
      Returned (respond 400 (JError (js "Topic name is required")), file)
    else
      let topicName := trim name in
      let vocabulary := readVocabulary file in
      let topicWords :=
        filter (λ v, Vocabulary.topic v = Some topicName) vocabulary in
      if (length topicWords =? 0)%nat then
        Returned (respond 404 (JError (js "Topic not found")), file)
      else
        let updatedVocabulary :=
          filter (λ v, Vocabulary.topic v ≠ Some topicName) vocabulary in
        Returned (respond 200
                    (JDeleted
                       (js "Topic " ++ quoted topicName ++ js " and "
                        ++ literal (pretty (length topicWords))
                        ++ js " words deleted successfully")
                       (length topicWords)),
                  writeVocabulary updatedVocabulary)
  | _ => Returned (respond 400 (JError (js "Topic name is required")), file)
  end.

Definition handler (file : StoreFile) (req : Request)
    : Response * StoreFile :=
  if str_eqb (method req) (js "GET") then
    guarded file (handleGet file)
      (respond 500 (JError (js "Failed to fetch topics")))
  else if str_eqb (method req) (js "POST") then
    guarded file (handlePost file req)
      (respond 500 (JError (js "Failed to create topic")))
  else if str_eqb (method req) (js "PUT") then
    guarded file (handlePut file req)
      (respond 500 (JError (js "Failed to rename topic")))
  else if str_eqb (method req) (js "DELETE") then
    guarded file (handleDelete file req)
      (respond 500 (JError (js "Failed to delete topic")))
  else (notAllowed [js "GET"; js "POST"; js "PUT"; js "DELETE"] (method req), file).
End TopicsRoute.

(** ** Vocabulary of the statements

    The notions the properties below are stated with: what a generated
    question is in terms of the record it is about, words that are the same up
    to case, a term that occurs in a field, the topic filter of a request. *)
Module Spec.

(** The types and the input kind a mode may give. *)
Definition typingOf (mode questionType inputType : jsstring) : Prop :=
  if decide (mode = js "mixed") then
    inputType = js "multiple-choice"
    ∧ (questionType = js "phonetic-to-meaning"
       ∨ questionType = js "meaning-to-phonetic")
  else if decide (mode = js "mixed-text") then
    inputType = js "text-input"
    ∧ (questionType = js "phonetic-to-meaning-text"
       ∨ questionType = js "meaning-to-phonetic-text")
  else
    questionType = mode
    ∧ inputType = (if includes mode (js "-text") then js "text-input"
                   else js "multiple-choice").

(** What is shown and what is the answer, for a question about [item]. *)
Definition sidesOf (questionType : jsstring) (item : Vocabulary.t)
    : option jsstring * option jsstring :=
  if decide (questionType = js "phonetic-to-meaning"
             ∨ questionType = js "phonetic-to-meaning-text")
  then (Vocabulary.phonetic item, Some (Vocabulary.meaning item))
  else (Some (Vocabulary.meaning item), Vocabulary.phonetic item).

(** The values the wrong options are taken from: a field of every record
    of the collection, the correct answer left out. *)
Definition optionPool (vocabulary : list Vocabulary.t)
    (questionType : jsstring) (correctAnswer : option jsstring)
    : list (option jsstring) :=
  filter (λ x, x ≠ correctAnswer)
    (if decide (questionType = js "phonetic-to-meaning")
     then (λ v, Some (Vocabulary.meaning v)) <$> vocabulary
     else Vocabulary.phonetic <$> vocabulary).

(** A multiple-choice question carries the correct answer and the first
    three values of some arrangement of the pool, in some order; a
    text-input question carries no options. *)
Definition optionsOf (vocabulary : list Vocabulary.t) (q : QuizQuestion.t)
    : Prop :=
  if decide (QuizQuestion.inputType q = js "multiple-choice") then
    ∃ opts shuffledPool,
      QuizQuestion.options q = Some opts
      ∧ shuffledPool ≡ₚ optionPool vocabulary (QuizQuestion.type q)
                          (QuizQuestion.correctAnswer q)
      ∧ opts ≡ₚ QuizQuestion.correctAnswer q :: take 3 shuffledPool
  else QuizQuestion.options q = None.

(** [p] occurs in [s] as a substring. *)
Definition contains (s p : jsstring) : Prop := ∃ a b, s = a ++ p ++ b.

(** Two words are the same up to case. *)
Definition sameWord `{Unicode} (a b : jsstring) : Prop :=
  toLowerCase a = toLowerCase b.

(** No two records of the collection have the same word up to case. *)
Definition uniqueWords `{Unicode} (vocabulary : list Vocabulary.t) : Prop :=
  ∀ i j v w,
    vocabulary !! i = Some v → vocabulary !! j = Some w →
    sameWord (Vocabulary.word v) (Vocabulary.word w) → i = j.

(** The search term occurs in a field, case ignored. *)
Definition occursIn `{Unicode} (term field : jsstring) : Prop :=
  contains (toLowerCase field) (toLowerCase term).

(** The topic filter of a request: [topic] given once, neither empty nor
    ['all']. *)
Definition topicFilter (req : Request) : option jsstring :=
  match query req !! "topic" with
  | Some (QSingle t) =>
    if decide (t ≠ [] ∧ t ≠ js "all") then Some t else None
  | _ => None
  end.

(** The mode a request is served with: its [mode] when that is one of the
    valid modes, ['mixed'] otherwise. *)
Definition quizMode (req : Request) : jsstring :=
  match query req !! "mode" with
  | Some (QSingle m) => if decide (m ∈ Quiz.validModes) then m else js "mixed"
  | _ => js "mixed"
  end.

(** The records a topic filter selects; without a filter, all of them. *)
Definition inTopic (filter : option jsstring) (v : Vocabulary.t) : Prop :=
  match filter with
  | Some t => Vocabulary.topic v = Some t
  | None => True
  end.

Record Generated (vocabulary : list Vocabulary.t) (mode : jsstring)
    (topic : option jsstring) (correctItem : Vocabulary.t)
    (q : QuizQuestion.t) : Prop := {
  gen_item : correctItem ∈ Quiz.filterByTopic vocabulary topic;
  gen_id : QuizQuestion.id q = Vocabulary.id correctItem;
  gen_word : QuizQuestion.word q = Vocabulary.word correctItem;
  gen_typing :
    typingOf mode (QuizQuestion.type q) (QuizQuestion.inputType q);
  gen_sides :
    (QuizQuestion.question q, QuizQuestion.correctAnswer q)
    = sidesOf (QuizQuestion.type q) correctItem;
  gen_options : optionsOf vocabulary q
}.

End Spec.

(** The request with its mode replaced by ['mixed']. *)
Definition withMixedMode (req : Request) : Request :=
  {| method := method req;
     query := <["mode" := QSingle (js "mixed")]> (query req);
     body := body req |}.

(** ** Sample data for the examples *)
Module Sample.
Definition entry (id : Z) (word meaning phonetic topic : jsstring)
    : Vocabulary.t :=
  {| Vocabulary.id := id; Vocabulary.word := word;
     Vocabulary.meaning := meaning; Vocabulary.phonetic := Some phonetic;
     Vocabulary.topic := Some topic |}.

Definition store : list Vocabulary.t :=
  [ entry 1 (js "ねこ") (js "cat") (js "neko") (js "animals");
    entry 2 (js "いぬ") (js "dog") (js "inu") (js "animals");
    entry 3 (js "みず") (js "water") (js "mizu") (js "nature");
    entry 4 (js "ひ") (js "fire") (js "hi") (js "nature") ].

(** Four words that all mean "cat". *)
Definition synonyms : list Vocabulary.t :=
  [ entry 1 (js "ねこ") (js "cat") (js "neko") (js "animals");
    entry 2 (js "猫") (js "cat") (js "neko") (js "animals");
    entry 3 (js "ネコ") (js "cat") (js "neko") (js "animals");
    entry 4 (js "にゃんこ") (js "cat") (js "nyanko") (js "animals") ].

Definition request (method : jsstring) (query : list (string * QueryValue))
    (body : list (string * BodyValue)) : Request :=
  {| method := method; query := list_to_map query;
     body := list_to_map body |}.

(** One English word, as the vocabulary route stores it. *)
Definition pets : list Vocabulary.t :=
  [ {| Vocabulary.id := 1; Vocabulary.word := js "cat";
       Vocabulary.meaning := js "con mèo"; Vocabulary.phonetic := None;
       Vocabulary.topic := None |} ].

(** A source of randomness that always draws [0]. *)
Definition zeros : Entropy := λ _, 0%N.

(** An engine whose calls take 65535 arguments. *)
#[global] Instance engine : Engine := {| maxArguments := 65535 |}.
End Sample.

(** Two results of a handler are alike when the answers are equal and the
    files read as the same collection. *)
Definition alike (a b : Response * StoreFile) : Prop :=
  a.1 = b.1 ∧ readVocabulary a.2 = readVocabulary b.2.

(** Case analysis over the branches of a handler arm. *)
Ltac by_cases :=
  unfold andThen; repeat case_match; simplify_eq/=; unfold alike; simpl; auto.

(** ** Requests the pages send

    The quiz page grades a typed answer by posting it with the question's
    correct answer and type ([handleTextAnswerSubmit]); a property that is
    [undefined] is left out of the JSON body.  A blank answer is not sent
    (nor is one while an earlier check is under way, which is not modelled).

    The vocabulary page deletes a word, once the user has confirmed, with a
    [DELETE] whose query carries the id of the record ([handleDelete]). *)

(** [array.slice(start, end)]: a negative index counts from the end, and
    both are clamped to the array. *)
Definition slice {A} (array : list A) (start end_ : Z) : list A :=
  let len := Z.of_nat (length array) in
  let from := if (start <? 0)%Z then Z.max (len + start) 0 else Z.min start len in
  let to := if (end_ <? 0)%Z then Z.max (len + end_) 0 else Z.min end_ len in
  take (Z.to_nat (to - from)) (drop (Z.to_nat from) array).

(** [Math.ceil(n / d)] on a length [n] and a positive [d]; the quotient of
    two such integers rounds to the same ceiling as the exact one. *)
Definition ceilDiv (n d : nat) : nat :=
  n / d + (if (n mod d =? 0)%nat then 0 else 1).

Module Page.

Definition answerBody (q : QuizQuestion.t) (textAnswer : jsstring)
    : gmap string BodyValue :=
  <["userAnswer" := BString (trim textAnswer)]>
    (<["questionType" := BString (QuizQuestion.type q)]>
       (match QuizQuestion.correctAnswer q with
        | Some c => {["correctAnswer" := BString c]}
        | None => ∅
        end)).

Definition answerRequest (q : QuizQuestion.t) (textAnswer : jsstring)
    : option Request :=
  if negb (truthy (trim textAnswer)) then None
  else Some {| method := js "POST"; query := ∅;
               body := answerBody q textAnswer |}.

Definition deleteRequest (id : Z) : Request :=
  {| method := js "DELETE";
     query := {["id" := QSingle (numberToString id)]};
     body := ∅ |}.

(** The pages of the word list: [currentVocabulary] is what page
    [currentPage] shows of the filtered list. *)
Definition itemsPerPage : nat := 50.

Definition totalPages (filteredVocabulary : list Vocabulary.t) : nat :=
  ceilDiv (length filteredVocabulary) itemsPerPage.

Definition currentVocabulary (filteredVocabulary : list Vocabulary.t)
    (currentPage : Z) : list Vocabulary.t :=
  let startIndex := ((currentPage - 1) * Z.of_nat itemsPerPage)%Z in
  let endIndex := (startIndex + Z.of_nat itemsPerPage)%Z in
  slice filteredVocabulary startIndex endIndex.





(** [handleBulkAddSelect], for one selected word of the list the page
    holds: the word is posted again, with the chosen topic. *)
Definition bulkSelectRequest (selected : Vocabulary.t) (bulkTopic : jsstring)
    : Request :=
  let phonetic :=
    match Vocabulary.phonetic selected with
    | Some p => {["phonetic" := BString p]}
    | None => ∅
    end in
  {| method := js "POST"; query := ∅;
     body := <["word" := BString (Vocabulary.word selected)]>
               (<["meaning" := BString (Vocabulary.meaning selected)]>
                  (<["topic" := BString bulkTopic]> phonetic)) |}.

End Page.

(** The ids of the collection are pairwise distinct. *)
Definition uniqueIds (vocabulary : list Vocabulary.t) : Prop :=
  NoDup (Vocabulary.id <$> vocabulary).

(** The ids of the collection are safe integers. *)
Definition safeIds (vocabulary : list Vocabulary.t) : Prop :=
  ∀ v, v ∈ vocabulary → safeInteger (Vocabulary.id v).

(** The record update of a rename: [{ ...v, topic: newTopicName }] on the
    records of the old topic. *)
Definition withTopic (oldTopicName newTopicName : jsstring)
    (v : Vocabulary.t) : Vocabulary.t :=
  if bool_decide (Vocabulary.topic v = Some oldTopicName)
  then {| Vocabulary.id := Vocabulary.id v;
          Vocabulary.word := Vocabulary.word v;
          Vocabulary.meaning := Vocabulary.meaning v;
          Vocabulary.phonetic := Vocabulary.phonetic v;
          Vocabulary.topic := Some newTopicName |}
  else v.

(** * Properties *)

(** ** The literals and the string primitives on examples *)

Example js_literal : literal "con mèo" = [99; 111; 110; 32; 109; 232; 111]%N.
Proof. reflexivity. Qed.

Example js_kana : literal "ねこ" = [0x306D; 0x3053]%N.
Proof. reflexivity. Qed.

Example trim_example : trim (js "  cat ") = js "cat".
Proof. reflexivity. Qed.

Example split_example : split 0x20 (js "con meo") = [js "con"; js "meo"].
Proof. reflexivity. Qed.

Example lower_example : toLowerCase (js "MÈO Đen") = js "mèo đen".
Proof. reflexivity. Qed.

Example normalize_example :
  Quiz.normalizeVietnamese (js "  Quả   TÁO, (đỏ)! ") = js "qua tao đo".
Proof. reflexivity. Qed.

Example parseInt_examples :
  parseInt (js " 12px") = Some 12%Z ∧ parseInt (js "-0x1F") = Some (-31)%Z
  ∧ parseInt (js "px") = None.
Proof. repeat split; reflexivity. Qed.

(** ** [includes] finds exactly the contiguous occurrences *)

Lemma startsWith_spec (s p : jsstring) :
  startsWith s p = true ↔ ∃ b, s = p ++ b.
Proof.
  revert s. induction p as [|a p IH]; intros [|c s]; simpl.
  - split; [intros _; by exists []|done].
  - split; [intros _; by exists (c :: s)|done].
  - split; [done|]. intros [b Hb]. discriminate.
  - rewrite andb_true_iff, N.eqb_eq, IH. split.
    + intros [-> [b ->]]. eauto.
    + intros [b Hb]. injection Hb as -> ->. eauto.
Qed.

Lemma includes_nil (p : jsstring) : includes [] p = startsWith [] p.
Proof. simpl. apply orb_false_r. Qed.

Lemma includes_cons (c : N) (s p : jsstring) :
  includes (c :: s) p = startsWith (c :: s) p || includes s p.
Proof. reflexivity. Qed.

Lemma includes_spec (s p : jsstring) :
  includes s p = true ↔ ∃ a b, s = a ++ p ++ b.
Proof.
  induction s as [|c s IH].
  - rewrite includes_nil, startsWith_spec. split.
    + intros [b Hb]. exists [], b. done.
    + intros (a & b & Hab). destruct a; [eauto|discriminate].
  - rewrite includes_cons, orb_true_iff, startsWith_spec, IH. split.
    + intros [[b Hb]|(a & b & ->)].
      * exists [], b. done.
      * exists (c :: a), b. done.
    + intros (a & b & Hab). destruct a as [|c' a].
      * left. eauto.
      * right. injection Hab as -> ->. eauto.
Qed.

(** ** Randomness: every draw returns, and an index is within its bound *)

Lemma bind_returned {A B} (m : Eff A) (k : A → Eff B) e a e' :
  m e = (Returned a, e') → bind m k e = k a e'.
Proof. unfold bind. by intros ->. Qed.

Lemma randomIndex_returns (n : nat) (e : Entropy) :
  0 < n → ∃ i, i < n ∧ randomIndex n e = (Returned i, rest e).
Proof.
  intros Hn. eexists. split; [|reflexivity].
  assert (e 0%nat mod 2 ^ 53 < 2 ^ 53)%N as Hm by (apply N.mod_lt; done).
  assert (e 0%nat mod 2 ^ 53 * N.of_nat n / 2 ^ 53 < N.of_nat n)%N; [|lia].
  apply N.Div0.div_lt_upper_bound. nia.
Qed.

Lemma randomHalf_returns (e : Entropy) :
  ∃ half, randomHalf e = (Returned half, rest e).
Proof. eexists. reflexivity. Qed.

Lemma element_returns {A} (array : list A) (i : nat) (e : Entropy) :
  i < length array →
  ∃ x, array !! i = Some x ∧ element array i e = (Returned x, e).
Proof.
  intros Hi. destruct (lookup_lt_is_Some_2 array i Hi) as [x Hx].
  exists x. split; [done|]. unfold element. by rewrite Hx.
Qed.

(** ** The shuffle returns a permutation of its argument *)
Section Shuffle.
Context {A : Type}.
Implicit Types (a : list A) (x y : A).

Lemma insert_head_perm a j x y :
  a !! j = Some y → y :: <[j:=x]> a ≡ₚ x :: a.
Proof.
  revert j. induction a as [|h a IH]; intros [|j] Hj; simplify_eq/=.
  - apply perm_swap.
  - rewrite (perm_swap h y), (IH j Hj). apply perm_swap.
Qed.

Lemma insert_insert_perm a i j x y :
  a !! i = Some x → a !! j = Some y → <[j:=x]> (<[i:=y]> a) ≡ₚ a.
Proof.
  revert i j. induction a as [|h a IH]; intros [|i] [|j] Hi Hj; simplify_eq/=.
  - done.
  - by apply insert_head_perm.
  - by apply insert_head_perm.
  - f_equiv. by apply IH.
Qed.

Lemma swap_perm a i j : Quiz.swap a i j ≡ₚ a.
Proof.
  unfold Quiz.swap.
  destruct (a !! i) as [x|] eqn:Hi; [|done].
  destruct (a !! j) as [y|] eqn:Hj; [|done].
  by apply insert_insert_perm.
Qed.

Lemma shuffleFrom_returns i a e :
  ∃ a' e', Quiz.shuffleFrom i a e = (Returned a', e') ∧ a' ≡ₚ a.
Proof.
  revert a e. induction i as [|i IH]; intros a e.
  - by exists a, e.
  - destruct (randomIndex_returns (S i + 1) e) as (j & _ & Hj); [lia|].
    destruct (IH (Quiz.swap a (S i) j) (rest e)) as (a' & e' & Ha' & Hp).
    exists a', e'. split.
    + simpl. by rewrite (bind_returned _ _ _ _ _ Hj).
    + by rewrite Hp, swap_perm.
Qed.

Lemma shuffleArray_returns a e :
  ∃ a' e', Quiz.shuffleArray a e = (Returned a', e') ∧ a' ≡ₚ a.
Proof. apply shuffleFrom_returns. Qed.
End Shuffle.

(** ** [generateQuestion] returns a question about a record of the topic *)

Lemma str_eqb_true (a b : jsstring) : str_eqb a b = true ↔ a = b.
Proof. unfold str_eqb. by rewrite bool_decide_eq_true. Qed.

Lemma str_eqb_false (a b : jsstring) : str_eqb a b = false ↔ a ≠ b.
Proof. unfold str_eqb. by rewrite bool_decide_eq_false. Qed.

Lemma sides_agree questionType item :
  (if str_eqb questionType (js "phonetic-to-meaning")
      || str_eqb questionType (js "phonetic-to-meaning-text")
   then (Vocabulary.phonetic item, Some (Vocabulary.meaning item))
   else (Some (Vocabulary.meaning item), Vocabulary.phonetic item))
  = Spec.sidesOf questionType item.
Proof.
  unfold Spec.sidesOf.
  destruct (decide _) as [[->| ->]|Hn]; [reflexivity..|].
  assert (str_eqb questionType (js "phonetic-to-meaning") = false) as ->.
  { apply str_eqb_false. intros Heq. apply Hn. by left. }
  assert (str_eqb questionType (js "phonetic-to-meaning-text") = false) as ->.
  { apply str_eqb_false. intros Heq. apply Hn. by right. }
  reflexivity.
Qed.

Lemma pool_agrees vocabulary questionType (correctAnswer : option jsstring) :
  (if str_eqb questionType (js "phonetic-to-meaning")
   then filter (λ m, m ≠ correctAnswer)
          ((λ v, Some (Vocabulary.meaning v)) <$> vocabulary)
   else filter (λ p, p ≠ correctAnswer) (Vocabulary.phonetic <$> vocabulary))
  = Spec.optionPool vocabulary questionType correctAnswer.
Proof.
  unfold Spec.optionPool, str_eqb. case_bool_decide; case_decide; naive_solver.
Qed.

Lemma generateQuestion_generated vocabulary mode topic e :
  Quiz.filterByTopic vocabulary topic ≠ [] →
  4 ≤ length vocabulary →
  ∃ correctItem q e',
    Quiz.generateQuestion vocabulary mode topic e = (Returned (Some q), e')
    ∧ Spec.Generated vocabulary mode topic correctItem q.
Proof.
  intros Hne Hlen. unfold Quiz.generateQuestion.
  destruct (Nat.eqb_spec (length (Quiz.filterByTopic vocabulary topic)) 0)
    as [H0|H0]; [by apply length_zero_iff_nil in H0|].
  destruct (Nat.ltb_spec (length vocabulary) 4) as [?|_]; [lia|].
  destruct (randomIndex_returns
              (length (Quiz.filterByTopic vocabulary topic)) e)
    as (i & Hi & Hrand); [lia|].
  rewrite (bind_returned _ _ _ _ _ Hrand).
  destruct (element_returns (Quiz.filterByTopic vocabulary topic) i (rest e) Hi)
    as (correctItem & Hitem & Helem).
  rewrite (bind_returned _ _ _ _ _ Helem).
  apply list_elem_of_lookup_2 in Hitem.
  exists correctItem.
  (* the part after the type is chosen *)
  match goal with |- context [bind _ ?k] => set (finish := k) end.
  assert (∀ questionType inputType e0,
    Spec.typingOf mode questionType inputType →
    ∃ q e', finish (questionType, inputType) e0 = (Returned (Some q), e')
            ∧ Spec.Generated vocabulary mode topic correctItem q) as Hfinish.
  { intros questionType inputType e0 Htyping. subst finish. cbv beta iota.
    rewrite sides_agree.
    destruct (Spec.sidesOf questionType correctItem)
      as [question correctAnswer] eqn:Hsides.
    rewrite pool_agrees.
    destruct (str_eqb inputType (js "multiple-choice")) eqn:Hinput.
    - apply str_eqb_true in Hinput.
      destruct (shuffleArray_returns
                  (Spec.optionPool vocabulary questionType correctAnswer) e0)
        as (shuffledPool & e1 & Hpool & Hperm1).
      destruct (shuffleArray_returns (correctAnswer :: take 3 shuffledPool) e1)
        as (allOptions & e2 & Hall & Hperm2).
      eexists _, e2. split.
      + unfold bind. rewrite Hpool. cbv beta iota. rewrite Hall. reflexivity.
      + split; simpl; try done.
        unfold Spec.optionsOf; simpl. rewrite decide_True by done. eauto.
    - apply str_eqb_false in Hinput.
      eexists _, e0. split; [reflexivity|].
      split; simpl; try done.
      unfold Spec.optionsOf; simpl. by rewrite decide_False. }
  destruct (str_eqb mode (js "mixed")) eqn:Hmixed.
  { apply str_eqb_true in Hmixed.
    destruct (randomHalf_returns (rest e)) as [half Hhalf].
    unfold bind at 1 2. rewrite Hhalf. cbv beta iota.
    apply Hfinish. unfold Spec.typingOf. rewrite decide_True by done.
    destruct half; auto. }
  apply str_eqb_false in Hmixed.
  destruct (str_eqb mode (js "mixed-text")) eqn:Htext.
  { apply str_eqb_true in Htext.
    destruct (randomHalf_returns (rest e)) as [half Hhalf].
    unfold bind at 1 2. rewrite Hhalf. cbv beta iota.
    apply Hfinish. unfold Spec.typingOf.
    rewrite decide_False, decide_True by done. destruct half; auto. }
  apply str_eqb_false in Htext.
  assert (Spec.typingOf mode mode
            (if includes mode (js "-text") then js "text-input"
             else js "multiple-choice")) as Htyping.
  { unfold Spec.typingOf. by rewrite !decide_False by done. }
  destruct (includes mode (js "-text")); by apply Hfinish.
Qed.

(** ** [GET /quiz] *)

Lemma truthy_true (s : jsstring) : truthy s = true ↔ s ≠ [].
Proof. by destruct s. Qed.

Lemma topicSelected_filter (req : Request) :
  Quiz.topicSelected (Quiz.queryString (query req !! "topic"))
  = Spec.topicFilter req.
Proof.
  unfold Spec.topicFilter, Quiz.topicSelected, Quiz.queryString.
  destruct (query req !! "topic") as [[t|l]|]; try done.
  destruct (truthy t) eqn:Ht; destruct (str_eqb t (js "all")) eqn:Hall;
    [apply str_eqb_true in Hall|apply str_eqb_false in Hall
    |apply str_eqb_true in Hall|apply str_eqb_false in Hall];
    cbn [andb negb]; destruct (decide _) as [[? ?]|Hn]; try done.
  all: try (by destruct t).
  destruct Hn. split; [by apply truthy_true|done].
Qed.

Lemma elem_of_filterByTopic (req : Request) vocabulary v :
  v ∈ Quiz.filterByTopic vocabulary (Quiz.queryString (query req !! "topic"))
  ↔ v ∈ vocabulary ∧ Spec.inTopic (Spec.topicFilter req) v.
Proof.
  unfold Quiz.filterByTopic. rewrite topicSelected_filter.
  destruct (Spec.topicFilter req) as [t|]; simpl.
  - rewrite list_elem_of_filter. tauto.
  - tauto.
Qed.

Lemma handler_filter (req : Request) vocabulary :
  match query req !! "topic" with
  | Some (QSingle t) =>
    if truthy t && negb (str_eqb t (js "all"))
    then filter (λ v, Vocabulary.topic v = Some t) vocabulary
    else vocabulary
  | _ => vocabulary
  end = Quiz.filterByTopic vocabulary (Quiz.queryString (query req !! "topic")).
Proof.
  unfold Quiz.filterByTopic, Quiz.topicSelected, Quiz.queryString.
  destruct (query req !! "topic") as [[t|l]|]; try done.
  by destruct (truthy t && negb (str_eqb t (js "all"))).
Qed.

(** The three outcomes of [GET /quiz], by the guards of the handler. *)
Lemma handleGet_cases file req e :
  let vocabulary := readVocabulary file in
  let filtered :=
    Quiz.filterByTopic vocabulary (Quiz.queryString (query req !! "topic")) in
  (length vocabulary < 4 ∨ filtered = [] →
     ∃ msg, Quiz.handleGet file req e = (Returned (respond 400 (JError msg)), e))
  ∧ (4 ≤ length vocabulary → filtered ≠ [] →
     ∃ correctItem q e',
       Quiz.handleGet file req e = (Returned (respond 200 (JQuestion q)), e')
       ∧ Quiz.generateQuestion vocabulary (Spec.quizMode req)
           (Quiz.queryString (query req !! "topic")) e
         = (Returned (Some q), e')
       ∧ Spec.Generated vocabulary (Spec.quizMode req)
           (Quiz.queryString (query req !! "topic")) correctItem q).
Proof.
  intros vocabulary filtered. unfold Quiz.handleGet.
  rewrite handler_filter. fold vocabulary filtered.
  assert (match default (QSingle (js "mixed")) (query req !! "mode") with
          | QSingle m =>
            if bool_decide (m ∈ Quiz.validModes) then m else js "mixed"
          | QMany _ => js "mixed"
          end = Spec.quizMode req) as ->.
  { unfold Spec.quizMode. destruct (query req !! "mode") as [[m|l]|]; try done.
    simpl. by destruct (decide (m ∈ Quiz.validModes));
      [rewrite bool_decide_eq_true_2|rewrite bool_decide_eq_false_2]. }
  destruct (Nat.eqb_spec (length vocabulary) 0) as [Hv|Hv].
  { split; [eauto|lia]. }
  destruct (Nat.eqb_spec (length filtered) 0) as [Hf|Hf].
  { apply length_zero_iff_nil in Hf. split; [eauto|done]. }
  destruct (Nat.ltb_spec (length vocabulary) 4) as [H4|H4].
  { split; [eauto|lia]. }
  split.
  { intros [?|Hnil]; [lia|]. by rewrite Hnil in Hf. }
  intros _ Hne.
  destruct (generateQuestion_generated vocabulary (Spec.quizMode req)
              (Quiz.queryString (query req !! "topic")) e Hne H4)
    as (correctItem & q & e' & Hgen & Hspec).
  exists correctItem, q, e'. split; [|done].
  by rewrite (bind_returned _ _ _ _ _ Hgen).
Qed.

Lemma filterByTopic_nil (req : Request) vocabulary :
  Quiz.filterByTopic vocabulary (Quiz.queryString (query req !! "topic")) = []
  ↔ ∀ v, v ∈ vocabulary → ¬ Spec.inTopic (Spec.topicFilter req) v.
Proof.
  split.
  - intros Hnil v Hv Hin.
    assert (v ∈ Quiz.filterByTopic vocabulary
                  (Quiz.queryString (query req !! "topic"))) as Hmem
      by (apply elem_of_filterByTopic; done).
    rewrite Hnil in Hmem. by apply not_elem_of_nil in Hmem.
  - intros Hnone.
    destruct (Quiz.filterByTopic vocabulary _) as [|v l] eqn:Hf; [done|].
    assert (v ∈ v :: l) as Hmem by apply list_elem_of_here.
    rewrite <- Hf in Hmem. apply elem_of_filterByTopic in Hmem as [Hv Hin].
    by destruct (Hnone v Hv).
Qed.

Lemma handler_get `{Unicode} file req e :
  method req = js "GET" →
  Quiz.handler file req e
  = Quiz.catch (Quiz.handleGet file req)
      (respond 500 (JError (js "Failed to generate quiz question"))) e.
Proof. intros Hm. unfold Quiz.handler. by rewrite Hm. Qed.

(** The mode the handler passes on: a valid mode, or ['mixed']. *)
Lemma quiz_get_rejects `{Unicode} file req e :
  method req = js "GET" →
  length (readVocabulary file) < 4
  ∨ (∀ v, v ∈ readVocabulary file → ¬ Spec.inTopic (Spec.topicFilter req) v) →
  ∃ msg, (Quiz.handler file req e).1 = respond 400 (JError msg).
Proof.
  intros Hm Hbad. rewrite (handler_get _ _ _ Hm). unfold Quiz.catch.
  destruct (handleGet_cases file req e) as [H400 _].
  rewrite filterByTopic_nil in H400.
  destruct (H400 Hbad) as [msg ->]. by exists msg.
Qed.

Lemma quiz_get_generates `{Unicode} file req e :
  method req = js "GET" →
  4 ≤ length (readVocabulary file) →
  (∃ v, v ∈ readVocabulary file ∧ Spec.inTopic (Spec.topicFilter req) v) →
  ∃ correctItem q,
    (Quiz.handler file req e).1 = respond 200 (JQuestion q)
    ∧ Spec.Generated (readVocabulary file) (Spec.quizMode req)
        (Quiz.queryString (query req !! "topic")) correctItem q.
Proof.
  intros Hm H4 (v & Hv & Hin). rewrite (handler_get _ _ _ Hm).
  unfold Quiz.catch.
  destruct (handleGet_cases file req e) as [_ H200].
  rewrite filterByTopic_nil in H200.
  destruct H200 as (item & q & e' & Hget & _ & Hgen); [done| |].
  { intros Hnone. by apply (Hnone v). }
  exists item, q. by rewrite Hget.
Qed.

(** What a status of 200 on [GET /quiz] brings with it. *)
Lemma quiz_get_200 `{Unicode} file req e :
  method req = js "GET" →
  status (Quiz.handler file req e).1 = 200%Z →
  ∃ correctItem q,
    (Quiz.handler file req e).1 = respond 200 (JQuestion q)
    ∧ 4 ≤ length (readVocabulary file)
    ∧ Spec.Generated (readVocabulary file) (Spec.quizMode req)
        (Quiz.queryString (query req !! "topic")) correctItem q.
Proof.
  intros Hm Hstatus.
  destruct (decide (length (readVocabulary file) < 4)) as [Hlt|H4].
  { destruct (quiz_get_rejects file req e Hm) as [msg Hbad]; [by left|].
    by rewrite Hbad in Hstatus. }
  destruct (decide (Quiz.filterByTopic (readVocabulary file)
                      (Quiz.queryString (query req !! "topic")) = []))
    as [Hnil|Hne].
  { rewrite filterByTopic_nil in Hnil.
    destruct (quiz_get_rejects file req e Hm) as [msg Hbad]; [by right|].
    by rewrite Hbad in Hstatus. }
  destruct (Quiz.filterByTopic _ _) as [|v l] eqn:Hf; [done|].
  assert (v ∈ v :: l) as Hv by apply list_elem_of_here.
  rewrite <- Hf in Hv. apply elem_of_filterByTopic in Hv.
  destruct (quiz_get_generates file req e Hm) as (item & q & Hresp & Hgen);
    [lia|by eauto|].
  exists item, q. split; [done|]. split; [lia|done].
Qed.

(** C1. [GET /quiz] answers 400 exactly when the store holds fewer than 4
    records or the topic filter selects none of them; with at least 4 records
    and a record in the selected topic it answers 200 with a generated
    question. *)
Theorem quiz_get_status `{Unicode} (file : StoreFile) (req : Request)
    (e : Entropy) :
  method req = js "GET" →
  let vocabulary := readVocabulary file in
  let response := (Quiz.handler file req e).1 in
  (status response = 400%Z
   ↔ length vocabulary < 4
     ∨ ∀ v, v ∈ vocabulary → ¬ Spec.inTopic (Spec.topicFilter req) v)
  ∧ (4 ≤ length vocabulary →
     (∃ v, v ∈ vocabulary ∧ Spec.inTopic (Spec.topicFilter req) v) →
     status response = 200%Z ∧ ∃ q, json response = JQuestion q).
Proof.
  intros Hm vocabulary response. subst response vocabulary.
  split; [split|].
  - intros Hstatus.
    destruct (decide (length (readVocabulary file) < 4)) as [|H4];
      [by left|right].
    intros v Hv Hin.
    destruct (quiz_get_generates file req e Hm) as (item & q & Hresp & _);
      [lia|by eauto|].
    by rewrite Hresp in Hstatus.
  - intros Hbad.
    destruct (quiz_get_rejects file req e Hm Hbad) as [msg ->]. done.
  - intros H4 Hsome.
    destruct (quiz_get_generates file req e Hm H4 Hsome)
      as (item & q & -> & _).
    simpl. eauto.
Qed.

Lemma quiz_get_status_witness :
  let vocabulary := readVocabulary (Holds Sample.store) in
  let req :=
    Sample.request (js "GET")
      [("mode", QSingle (js "phonetic-to-meaning"));
       ("topic", QSingle (js "animals"))] [] in
  let response := (Quiz.handler (Holds Sample.store) req Sample.zeros).1 in
  (status response = 400%Z
   ↔ length vocabulary < 4
     ∨ ∀ v, v ∈ vocabulary → ¬ Spec.inTopic (Spec.topicFilter req) v)
  ∧ (4 ≤ length vocabulary →
     (∃ v, v ∈ vocabulary ∧ Spec.inTopic (Spec.topicFilter req) v) →
     status response = 200%Z ∧ ∃ q, json response = JQuestion q).
Proof.
  apply (quiz_get_status (Holds Sample.store)). reflexivity.
Defined.

Lemma optionPool_field vocabulary questionType correctAnswer o :
  o ∈ Spec.optionPool vocabulary questionType correctAnswer →
  ∃ v, v ∈ vocabulary
       ∧ (o = Some (Vocabulary.meaning v) ∨ o = Vocabulary.phonetic v).
Proof.
  unfold Spec.optionPool. rewrite list_elem_of_filter. intros [_ Ho].
  destruct (decide _); apply list_elem_of_fmap in Ho as (v & -> & Hv); eauto.
Qed.

(** C2. With a topic filter, the record a question is about has the topic of
    the filter, and the question, the answer, the id and the word are read off
    that record.  The mode decides the type of the question and whether it
    has options; a multiple-choice question does carry options, which are the
    correct answer and the first three values of an arrangement of the pool,
    and the pool is built from every record of the collection, whatever its
    topic. *)
Theorem topic_filter_selects_within_topic `{Unicode} (file : StoreFile)
    (req : Request) (e : Entropy) (t : jsstring) :
  method req = js "GET" →
  Spec.topicFilter req = Some t →
  let vocabulary := readVocabulary file in
  let response := (Quiz.handler file req e).1 in
  status response = 200%Z →
  ∃ correctItem q,
    json response = JQuestion q
    ∧ correctItem ∈ vocabulary
    ∧ Vocabulary.topic correctItem = Some t
    ∧ QuizQuestion.id q = Vocabulary.id correctItem
    ∧ QuizQuestion.word q = Vocabulary.word correctItem
    ∧ Spec.typingOf (Spec.quizMode req)
        (QuizQuestion.type q) (QuizQuestion.inputType q)
    ∧ (QuizQuestion.question q, QuizQuestion.correctAnswer q)
      = Spec.sidesOf (QuizQuestion.type q) correctItem
    ∧ Spec.optionsOf vocabulary q
    ∧ ∀ opts, QuizQuestion.options q = Some opts →
        (∃ shuffledPool,
           shuffledPool ≡ₚ Spec.optionPool vocabulary (QuizQuestion.type q)
                              (QuizQuestion.correctAnswer q)
           ∧ opts ≡ₚ QuizQuestion.correctAnswer q :: take 3 shuffledPool)
        ∧ ∀ o, o ∈ opts →
            o = QuizQuestion.correctAnswer q
            ∨ ∃ v, v ∈ vocabulary
                   ∧ (o = Some (Vocabulary.meaning v)
                      ∨ o = Vocabulary.phonetic v).
Proof.
  intros Hm Ht vocabulary response Hstatus. subst response.
  destruct (quiz_get_200 file req e Hm Hstatus)
    as (item & q & Hresp & _ & Hgen).
  fold vocabulary in Hgen.
  destruct Hgen as [Hitem Hid Hword Htyping Hsides Hopts].
  apply elem_of_filterByTopic in Hitem as [Hin Htopic].
  rewrite Ht in Htopic. simpl in Htopic.
  exists item, q. rewrite Hresp.
  do 8 (split; [done|]). intros opts Hgiven. split.
  - unfold Spec.optionsOf in Hopts. destruct (decide _); [|congruence].
    destruct Hopts as (opts' & shuffledPool & Hsome & Hp1 & Hp2).
    exists shuffledPool. by simplify_eq.
  - intros o Ho.
    unfold Spec.optionsOf in Hopts. destruct (decide _); [|congruence].
    destruct Hopts as (opts' & shuffledPool & Hsome & Hp1 & Hp2).
    simplify_eq. rewrite Hp2 in Ho. apply elem_of_cons in Ho as [->|Ho];
      [by left|right].
    apply (subseteq_take 3) in Ho. rewrite Hp1 in Ho.
    by apply optionPool_field in Ho.
Qed.

Lemma topic_filter_selects_within_topic_witness :
  let vocabulary := readVocabulary (Holds Sample.store) in
  let req :=
    Sample.request (js "GET")
      [("mode", QSingle (js "phonetic-to-meaning"));
       ("topic", QSingle (js "animals"))] [] in
  let response := (Quiz.handler (Holds Sample.store) req Sample.zeros).1 in
  ∃ correctItem q,
    json response = JQuestion q
    ∧ correctItem ∈ vocabulary
    ∧ Vocabulary.topic correctItem = Some (js "animals")
    ∧ QuizQuestion.id q = Vocabulary.id correctItem
    ∧ QuizQuestion.word q = Vocabulary.word correctItem
    ∧ Spec.typingOf (Spec.quizMode req)
        (QuizQuestion.type q) (QuizQuestion.inputType q)
    ∧ (QuizQuestion.question q, QuizQuestion.correctAnswer q)
      = Spec.sidesOf (QuizQuestion.type q) correctItem
    ∧ Spec.optionsOf vocabulary q
    ∧ ∀ opts, QuizQuestion.options q = Some opts →
        (∃ shuffledPool,
           shuffledPool ≡ₚ Spec.optionPool vocabulary (QuizQuestion.type q)
                              (QuizQuestion.correctAnswer q)
           ∧ opts ≡ₚ QuizQuestion.correctAnswer q :: take 3 shuffledPool)
        ∧ ∀ o, o ∈ opts →
            o = QuizQuestion.correctAnswer q
            ∨ ∃ v, v ∈ vocabulary
                   ∧ (o = Some (Vocabulary.meaning v)
                      ∨ o = Vocabulary.phonetic v).
Proof.
  apply (topic_filter_selects_within_topic (Holds Sample.store));
    reflexivity.
Defined.

(** A wrong option may come from outside the topic of the filter: with the
    filter on "animals", the question about "neko" offers "water" and "fire",
    which are meanings of records of the topic "nature". *)
Example distractors_from_other_topics :
  ∃ q,
    (Quiz.handler (Holds Sample.store)
       (Sample.request (js "GET")
          [("mode", QSingle (js "phonetic-to-meaning"));
           ("topic", QSingle (js "animals"))] [])
       Sample.zeros).1 = respond 200 (JQuestion q)
    ∧ QuizQuestion.correctAnswer q = Some (js "cat")
    ∧ QuizQuestion.options q
      = Some [Some (js "water"); Some (js "fire"); Some (js "dog");
              Some (js "cat")].
Proof. eexists. split; [reflexivity|]. split; reflexivity. Qed.

(** ** Unrecognized modes *)

Lemma topicFilter_withMixedMode req :
  Spec.topicFilter (withMixedMode req) = Spec.topicFilter req.
Proof.
  unfold Spec.topicFilter, withMixedMode. simpl.
  by rewrite lookup_insert_ne.
Qed.

(** C10. A mode string outside the six valid modes is not rejected: with at
    least 4 records and a record in the selected topic, the answer is the one
    the mode ['mixed'] gets, status 200 with a multiple-choice question. *)
Theorem unknown_mode_is_mixed `{Unicode} (file : StoreFile) (req : Request)
    (e : Entropy) (m : jsstring) :
  method req = js "GET" →
  query req !! "mode" = Some (QSingle m) →
  m ∉ Quiz.validModes →
  4 ≤ length (readVocabulary file) →
  (∃ v, v ∈ readVocabulary file ∧ Spec.inTopic (Spec.topicFilter req) v) →
  Quiz.handler file req e = Quiz.handler file (withMixedMode req) e
  ∧ ∃ q opts,
      (Quiz.handler file req e).1 = respond 200 (JQuestion q)
      ∧ QuizQuestion.inputType q = js "multiple-choice"
      ∧ QuizQuestion.options q = Some opts
      ∧ (QuizQuestion.type q = js "phonetic-to-meaning"
         ∨ QuizQuestion.type q = js "meaning-to-phonetic").
Proof.
  intros Hm Hmode Hinvalid H4 Hsome. split.
  - rewrite !handler_get by done. unfold Quiz.catch, Quiz.handleGet. simpl.
    rewrite lookup_insert_eq, lookup_insert_ne by done. rewrite Hmode. simpl.
    by rewrite bool_decide_eq_false_2.
  - destruct (quiz_get_generates file req e Hm H4 Hsome)
      as (item & q & Hresp & Hgen).
    unfold Spec.quizMode in Hgen. rewrite Hmode in Hgen.
    rewrite decide_False in Hgen by done.
    destruct Hgen as [_ _ _ Htyping _ Hopts].
    unfold Spec.typingOf in Htyping. rewrite decide_True in Htyping by done.
    destruct Htyping as [Hinput Htype].
    unfold Spec.optionsOf in Hopts. rewrite decide_True in Hopts by done.
    destruct Hopts as (opts & _ & Hopts & _). eauto 10.
Qed.

Lemma unknown_mode_is_mixed_witness :
  let req := Sample.request (js "GET") [("mode", QSingle (js "flashcards"))] [] in
  Quiz.handler (Holds Sample.store) req Sample.zeros
  = Quiz.handler (Holds Sample.store) (withMixedMode req) Sample.zeros
  ∧ ∃ q opts,
      (Quiz.handler (Holds Sample.store) req Sample.zeros).1
      = respond 200 (JQuestion q)
      ∧ QuizQuestion.inputType q = js "multiple-choice"
      ∧ QuizQuestion.options q = Some opts
      ∧ (QuizQuestion.type q = js "phonetic-to-meaning"
         ∨ QuizQuestion.type q = js "meaning-to-phonetic").
Proof.
  apply (unknown_mode_is_mixed (Holds Sample.store) _ _ (js "flashcards")).
  - reflexivity.
  - reflexivity.
  - apply (bool_decide_unpack _). exact I.
  - simpl. lia.
  - exists (Sample.entry 1 (js "ねこ") (js "cat") (js "neko") (js "animals")).
    split; [apply list_elem_of_here|exact I].
Defined.

(** ** The number of options *)

Lemma options_length vocabulary mode topic correctItem q opts :
  Spec.Generated vocabulary mode topic correctItem q →
  QuizQuestion.options q = Some opts →
  length opts
  = 1 + (3 `min` length (Spec.optionPool vocabulary (QuizQuestion.type q)
                           (QuizQuestion.correctAnswer q))).
Proof.
  intros [_ _ _ _ _ Hopts] Hsome. unfold Spec.optionsOf in Hopts.
  destruct (decide _); [|congruence].
  destruct Hopts as (opts' & shuffledPool & ? & Hp1 & Hp2). simplify_eq.
  by rewrite Hp2, <- Hp1, length_cons, length_take.
Qed.

Lemma length_filter_other {A} `{EqDecision A} (l : list A) (x : A) :
  NoDup l → x ∈ l → S (length (filter (λ y, y ≠ x) l)) = length l.
Proof.
  induction 1 as [|y l Hy Hl IH]; intros Hx.
  - by apply not_elem_of_nil in Hx.
  - rewrite filter_cons. destruct (decide (y ≠ x)) as [Hne|Heq].
    + apply elem_of_cons in Hx as [->|Hx]; [done|].
      simpl. by rewrite IH.
    + apply dec_stable in Heq as ->. simpl. f_equal.
      clear IH Hl Hx. induction l as [|z l IH]; [done|].
      apply not_elem_of_cons in Hy as [Hz Hy].
      rewrite filter_cons, decide_True by done. simpl. by rewrite IH.
Qed.

(** X1.  With pairwise distinct meanings, a 'phonetic-to-meaning' question has
    exactly four options, the correct answer among them, and the correct
    answer is the meaning of the record the question is about. *)
Theorem distinct_meanings_give_four_options `{Unicode} (file : StoreFile)
    (req : Request) (e : Entropy) :
  method req = js "GET" →
  query req !! "mode" = Some (QSingle (js "phonetic-to-meaning")) →
  let vocabulary := readVocabulary file in
  let response := (Quiz.handler file req e).1 in
  NoDup (Vocabulary.meaning <$> vocabulary) →
  status response = 200%Z →
  ∃ correctItem q opts,
    json response = JQuestion q
    ∧ correctItem ∈ vocabulary
    ∧ QuizQuestion.id q = Vocabulary.id correctItem
    ∧ QuizQuestion.correctAnswer q = Some (Vocabulary.meaning correctItem)
    ∧ QuizQuestion.options q = Some opts
    ∧ length opts = 4
    ∧ QuizQuestion.correctAnswer q ∈ opts.
Proof.
  intros Hm Hmode vocabulary response Hnodup Hstatus. subst response.
  destruct (quiz_get_200 file req e Hm Hstatus)
    as (item & q & Hresp & H4 & Hgen).
  fold vocabulary in Hgen, H4. unfold Spec.quizMode in Hgen.
  rewrite Hmode in Hgen. simpl in Hgen.
  pose proof Hgen as [Hitem Hid _ Htyping Hsides Hopts].
  unfold Spec.typingOf in Htyping. simpl in Htyping.
  destruct Htyping as [Htype Hinput].
  rewrite Htype in Hsides. unfold Spec.sidesOf in Hsides. simpl in Hsides.
  injection Hsides as _ Hanswer.
  unfold Spec.optionsOf in Hopts. rewrite decide_True in Hopts by done.
  destruct Hopts as (opts & shuffledPool & Hsome & Hp1 & Hp2).
  assert (item ∈ vocabulary) as Hin.
  { unfold Quiz.filterByTopic in Hitem.
    destruct (Quiz.topicSelected _); [|done].
    by apply list_elem_of_filter in Hitem as [_ ?]. }
  exists item, q, opts. rewrite Hresp. repeat split; try done.
  - rewrite (options_length _ _ _ _ _ _ Hgen Hsome).
    rewrite Htype, Hanswer. unfold Spec.optionPool.
    rewrite decide_True by done.
    assert (S (length
                 (filter (λ x, x ≠ Some (Vocabulary.meaning item))
                    ((λ v, Some (Vocabulary.meaning v)) <$> vocabulary)))
            = length ((λ v, Some (Vocabulary.meaning v)) <$> vocabulary))
      as Hlen.
    { apply length_filter_other.
      - rewrite (list_fmap_compose Vocabulary.meaning Some).
        by apply (NoDup_fmap_2 _).
      - apply list_elem_of_fmap. eauto. }
    rewrite length_fmap in Hlen. lia.
  - rewrite Hp2. apply list_elem_of_here.
Qed.

Lemma distinct_meanings_give_four_options_witness :
  let req :=
    Sample.request (js "GET")
      [("mode", QSingle (js "phonetic-to-meaning"))] [] in
  let response := (Quiz.handler (Holds Sample.store) req Sample.zeros).1 in
  ∃ correctItem q opts,
    json response = JQuestion q
    ∧ correctItem ∈ Sample.store
    ∧ QuizQuestion.id q = Vocabulary.id correctItem
    ∧ QuizQuestion.correctAnswer q = Some (Vocabulary.meaning correctItem)
    ∧ QuizQuestion.options q = Some opts
    ∧ length opts = 4
    ∧ QuizQuestion.correctAnswer q ∈ opts.
Proof.
  apply (distinct_meanings_give_four_options (Holds Sample.store));
    [reflexivity..| |reflexivity].
  apply (bool_decide_unpack _). exact I.
Defined.

(** C3. On a store of four words that all mean "cat", the question asked
    with mode 'phonetic-to-meaning' carries a single option, whatever the
    random draws: the pool of other meanings is empty. *)
Theorem synonyms_give_one_option `{Unicode} (e : Entropy) :
  ∃ q,
    (Quiz.handler (Holds Sample.synonyms)
       (Sample.request (js "GET")
          [("mode", QSingle (js "phonetic-to-meaning"))] []) e).1
    = respond 200 (JQuestion q)
    ∧ QuizQuestion.correctAnswer q = Some (js "cat")
    ∧ QuizQuestion.options q = Some [Some (js "cat")].
Proof.
  set (req := Sample.request _ _ _).
  assert (method req = js "GET") as Hm by reflexivity.
  destruct (quiz_get_generates (Holds Sample.synonyms) req e Hm)
    as (item & q & Hresp & Hgen); [simpl; lia| |].
  { eexists. split; [apply list_elem_of_here|exact I]. }
  change (readVocabulary (Holds Sample.synonyms)) with Sample.synonyms in Hgen.
  change (Spec.quizMode req) with (js "phonetic-to-meaning") in Hgen.
  simpl in Hgen.
  destruct Hgen as [Hitem _ _ Htyping Hsides Hopts].
  unfold Spec.typingOf in Htyping. simpl in Htyping.
  destruct Htyping as [Htype Hinput].
  rewrite Htype in Hsides. unfold Spec.sidesOf in Hsides. simpl in Hsides.
  injection Hsides as _ Hanswer.
  assert (Vocabulary.meaning item = js "cat") as Hcat.
  { unfold Quiz.filterByTopic in Hitem. simpl in Hitem.
    repeat (apply elem_of_cons in Hitem as [->|Hitem]; [reflexivity|]).
    by apply not_elem_of_nil in Hitem. }
  rewrite Hcat in Hanswer.
  unfold Spec.optionsOf in Hopts. rewrite decide_True in Hopts by done.
  destruct Hopts as (opts & shuffledPool & Hsome & Hp1 & Hp2).
  rewrite Htype, Hanswer in Hp1.
  change (Spec.optionPool Sample.synonyms (js "phonetic-to-meaning")
            (Some (js "cat"))) with (@nil (option jsstring)) in Hp1.
  apply Permutation_nil_r in Hp1 as ->.
  rewrite Hanswer in Hp2. simpl in Hp2. apply Permutation_singleton_r in Hp2.
  exists q. by rewrite Hresp, Hsome, Hp2.
Qed.

(** ** The free-text answer check *)

Lemma truthy_false (s : jsstring) : truthy s = false ↔ s = [].
Proof. by destruct s. Qed.



(** ** The vocabulary route *)

Lemma vocabulary_handler_post `{Unicode} `{Engine} file req :
  method req = js "POST" →
  VocabularyRoute.handler file req
  = guarded file (VocabularyRoute.handlePost file req)
      (respond 500 (JError (js "Failed to add vocabulary"))).
Proof. intros Hm. unfold VocabularyRoute.handler. by rewrite Hm. Qed.

Lemma vocabulary_handler_get `{Unicode} `{Engine} file req :
  method req = js "GET" →
  VocabularyRoute.handler file req
  = guarded file (VocabularyRoute.handleGet file req)
      (respond 500 (JError (js "Failed to fetch vocabulary"))).
Proof. intros Hm. unfold VocabularyRoute.handler. by rewrite Hm. Qed.

Lemma uniqueWords_NoDup `{Unicode} (vocabulary : list Vocabulary.t) :
  Spec.uniqueWords vocabulary
  ↔ NoDup ((λ v, toLowerCase (Vocabulary.word v)) <$> vocabulary).
Proof.
  rewrite NoDup_alt. unfold Spec.uniqueWords, Spec.sameWord. split.
  - intros Hunique i j x Hi Hj. rewrite list_lookup_fmap in Hi, Hj.
    destruct (vocabulary !! i) as [v|] eqn:Hv; [|done].
    destruct (vocabulary !! j) as [w|] eqn:Hw; [|done].
    simplify_eq/=. by eapply Hunique.
  - intros Hnodup i j v w Hv Hw Hsame.
    apply (Hnodup i j (toLowerCase (Vocabulary.word v)));
      rewrite list_lookup_fmap; [by rewrite Hv|by rewrite Hw, Hsame].
Qed.

(** The duplicate check of [POST] on a string: it finds the first record
    whose word is the supplied one up to case. *)
Lemma find_duplicate `{Unicode} (w : jsstring) (vocabulary : list Vocabulary.t) :
  ∃ found,
    findWith (λ v,
      andThen (asString (Some (BString w))) (λ w',
        Returned (str_eqb (toLowerCase (Vocabulary.word v)) (toLowerCase w'))))
      vocabulary = Returned found
    ∧ match found with
      | Some v => v ∈ vocabulary ∧ Spec.sameWord (Vocabulary.word v) w
      | None => ∀ v, v ∈ vocabulary → ¬ Spec.sameWord (Vocabulary.word v) w
      end.
Proof.
  induction vocabulary as [|v vocabulary (found & Hfind & Hfound)]; simpl.
  - exists None. split; [done|]. intros v Hv. by apply not_elem_of_nil in Hv.
  - destruct (str_eqb _ _) eqn:Heq;
      [apply str_eqb_true in Heq|apply str_eqb_false in Heq].
    + exists (Some v). split; [done|]. split; [apply list_elem_of_here|done].
    + exists found. split; [done|]. destruct found as [u|].
      * destruct Hfound. split; [by apply list_elem_of_further|done].
      * intros u [->|Hu]%elem_of_cons; [done|by apply Hfound].
Qed.

(** [Math.max(...ids)] is an upper bound of the ids and one of them. *)
Lemma foldl_max_bound (x : Z) (ids : list Z) :
  (∀ y, y ∈ x :: ids → (y ≤ foldl Z.max x ids)%Z)
  ∧ foldl Z.max x ids ∈ x :: ids.
Proof.
  revert x. induction ids as [|z ids IH]; intros x; simpl.
  - split; [|apply list_elem_of_here].
    intros y [->|Hy]%elem_of_cons; [done|by apply not_elem_of_nil in Hy].
  - destruct (IH (Z.max x z)) as [Hbound Hmem]. split.
    + intros y Hy. rewrite !elem_of_cons in Hy.
      assert (Z.max x z ≤ foldl Z.max (Z.max x z) ids)%Z
        by (apply Hbound, list_elem_of_here).
      destruct Hy as [->|[->|Hy]]; [lia..|].
      by apply Hbound, list_elem_of_further.
    + apply elem_of_cons in Hmem as [Hmax|Hmem].
      * rewrite Hmax. destruct (Z.max_spec x z) as [[_ ->]|[_ ->]].
        -- apply list_elem_of_further, list_elem_of_here.
        -- apply list_elem_of_here.
      * by do 2 apply list_elem_of_further.
Qed.

(** Safe integers are numbers, and one more than a safe integer is a
    number too. *)
Lemma roundToDouble_safe (n : Z) : safeInteger n → roundToDouble n = n.
Proof.
  intros Hn. unfold roundToDouble, safeInteger in *.
  by assert ((Z.abs n <? 2 ^ 53)%Z = true) as -> by (apply Z.ltb_lt; lia).
Qed.

Lemma roundToDouble_next (n : Z) :
  safeInteger n → roundToDouble (n + 1) = (n + 1)%Z.
Proof.
  intros Hn. destruct (decide (n + 1 < 2 ^ 53)%Z) as [Hlt|Hge].
  - apply roundToDouble_safe. unfold safeInteger in *. lia.
  - unfold safeInteger in Hn. assert (n + 1 = 2 ^ 53)%Z as -> by lia.
    by vm_compute.
Qed.

(** [getNextId] returns unless the collection has more records than a call
    takes arguments. *)
Lemma getNextId_returns `{Engine} (vocabulary : list Vocabulary.t) :
  (N.of_nat (length vocabulary) ≤ maxArguments)%N →
  ∃ next, VocabularyRoute.getNextId vocabulary = Returned next.
Proof.
  intros Hlen. unfold VocabularyRoute.getNextId.
  destruct vocabulary as [|u vocabulary]; [by eexists|]. rewrite fmap_cons.
  rewrite <- fmap_cons, length_fmap.
  assert ((maxArguments <? N.of_nat (length (u :: vocabulary)))%N = false)
    as -> by (apply N.ltb_ge; lia).
  by eexists.
Qed.

(** On safe ids, what it returns is 1 on an empty collection, and otherwise
    one more than the greatest id. *)
Lemma getNextId_returned `{Engine} (vocabulary : list Vocabulary.t) (next : Z) :
  VocabularyRoute.getNextId vocabulary = Returned next →
  safeIds vocabulary →
  (vocabulary = [] → next = 1%Z)
  ∧ (∀ v, v ∈ vocabulary → (Vocabulary.id v < next)%Z)
  ∧ (vocabulary ≠ [] →
     ∃ v, v ∈ vocabulary ∧ next = (Vocabulary.id v + 1)%Z).
Proof.
  unfold VocabularyRoute.getNextId.
  destruct vocabulary as [|u vocabulary]; [simpl|rewrite fmap_cons].
  - intros [= <-] _. repeat split; [|done].
    intros v Hv. by apply not_elem_of_nil in Hv.
  - destruct (_ <? _)%N; [done|]. intros [= <-] Hsafe.
    destruct (foldl_max_bound (Vocabulary.id u) (Vocabulary.id <$> vocabulary))
      as [Hbound Hmem].
    rewrite <- fmap_cons in Hbound, Hmem.
    apply list_elem_of_fmap in Hmem as (top & Htop & Hin).
    rewrite Htop, roundToDouble_next by (by apply Hsafe).
    repeat split; [done| |].
    + intros v Hv.
      assert (Vocabulary.id v ≤ Vocabulary.id top)%Z; [|lia].
      rewrite <- Htop. apply Hbound, list_elem_of_fmap. eauto.
    + intros _. by exists top.
Qed.

(** C6, as the code has it.  A [POST /vocabulary] with a non-empty word and
    meaning, the word being in the collection neither as it is supplied nor
    trimmed, up to case, is answered 201 with the created record, on a
    collection whose ids are safe integers and which has no more records than
    a call takes arguments.  The record carries the supplied word and meaning
    with the surrounding white space trimmed and an id one above the greatest
    id of the collection (1 on an empty collection), and it is appended to the
    collection, whose words stay unique up to case if they were. *)
Theorem post_creates_record `{Unicode} `{Engine} (file : StoreFile)
    (req : Request) (w m : jsstring) :
  method req = js "POST" →
  body req !! "word" = Some (BString w) →
  body req !! "meaning" = Some (BString m) →
  w ≠ [] → m ≠ [] →
  let vocabulary := readVocabulary file in
  (N.of_nat (length vocabulary) ≤ maxArguments)%N →
  safeIds vocabulary →
  (∀ v, v ∈ vocabulary → ¬ Spec.sameWord (Vocabulary.word v) w) →
  (∀ v, v ∈ vocabulary → ¬ Spec.sameWord (Vocabulary.word v) (trim w)) →
  ∃ created,
    VocabularyRoute.handler file req
    = (respond 201 (JRecord created), Holds (vocabulary ++ [created]))
    ∧ Vocabulary.word created = trim w
    ∧ Vocabulary.meaning created = trim m
    ∧ (vocabulary = [] → Vocabulary.id created = 1%Z)
    ∧ (∀ v, v ∈ vocabulary → (Vocabulary.id v < Vocabulary.id created)%Z)
    ∧ (vocabulary ≠ [] →
       ∃ v, v ∈ vocabulary
            ∧ Vocabulary.id created = (Vocabulary.id v + 1)%Z)
    ∧ (Spec.uniqueWords vocabulary →
       Spec.uniqueWords (vocabulary ++ [created])).
Proof.
  intros Hm Hw Hmeaning Hwne Hmne vocabulary Hlen Hsafe Hfresh Htrimmed.
  rewrite vocabulary_handler_post by done.
  unfold VocabularyRoute.handlePost. rewrite Hw, Hmeaning. simpl.
  destruct w as [|c w]; [done|]. destruct m as [|d m]; [done|]. simpl.
  fold vocabulary.
  destruct (find_duplicate (c :: w) vocabulary) as (found & Hfind & Hfound).
  simpl in Hfind. rewrite Hfind. simpl.
  destruct found as [v|].
  { destruct Hfound as [Hv Hsame]. by destruct (Hfresh v Hv). }
  destruct (getNextId_returns vocabulary Hlen) as [next Hnext].
  rewrite Hnext. simpl.
  eexists. split; [reflexivity|]. simpl.
  split; [done|]. split; [done|].
  destruct (getNextId_returned vocabulary next Hnext Hsafe)
    as (Hone & Hgreater & Hmax).
  split; [done|]. split; [done|]. split; [done|].
  rewrite !uniqueWords_NoDup, fmap_app. intros Hunique.
  apply NoDup_app. split; [done|]. split; [|apply NoDup_singleton].
  intros x (v & -> & Hv)%list_elem_of_fmap Hnew.
  apply list_elem_of_singleton in Hnew. by apply (Htrimmed v Hv).
Qed.

Lemma post_creates_record_witness :
  let req :=
    Sample.request (js "POST") []
      [("word", BString (js " dog ")); ("meaning", BString (js "con chó"))] in
  ∃ created,
    VocabularyRoute.handler (Holds Sample.pets) req
    = (respond 201 (JRecord created), Holds (Sample.pets ++ [created]))
    ∧ Vocabulary.word created = trim (js " dog ")
    ∧ Vocabulary.meaning created = trim (js "con chó")
    ∧ (Sample.pets = [] → Vocabulary.id created = 1%Z)
    ∧ (∀ v, v ∈ Sample.pets → (Vocabulary.id v < Vocabulary.id created)%Z)
    ∧ (Sample.pets ≠ [] →
       ∃ v, v ∈ Sample.pets
            ∧ Vocabulary.id created = (Vocabulary.id v + 1)%Z)
    ∧ (Spec.uniqueWords Sample.pets →
       Spec.uniqueWords (Sample.pets ++ [created])).
Proof.
  apply (post_creates_record (Holds Sample.pets) _ (js " dog ") (js "con chó"));
    [reflexivity..|done|done|by vm_compute| | |].
  - intros v [->|Hv]%elem_of_cons; [by vm_compute|].
    by apply not_elem_of_nil in Hv.
  - intros v [->|Hv]%elem_of_cons; [vm_compute; discriminate|].
    by apply not_elem_of_nil in Hv.
  - intros v [->|Hv]%elem_of_cons; [vm_compute; discriminate|].
    by apply not_elem_of_nil in Hv.
Defined.

(** C6, as stated, fails: the word is stored trimmed, not as supplied, and
    the phonetic and the topic of the body do not reach the record. *)
Lemma post_record_differs_from_body :
  let req :=
    Sample.request (js "POST") []
      [("word", BString (js " dog ")); ("meaning", BString (js "con chó"));
       ("phonetic", BString (js "dɒɡ")); ("topic", BString (js "animals"))] in
  (∀ v, v ∈ Sample.pets → ¬ Spec.sameWord (Vocabulary.word v) (js " dog "))
  ∧ ∃ created,
      VocabularyRoute.handler (Holds Sample.pets) req
      = (respond 201 (JRecord created), Holds (Sample.pets ++ [created]))
      ∧ Vocabulary.word created ≠ js " dog "
      ∧ Vocabulary.phonetic created ≠ Some (js "dɒɡ")
      ∧ Vocabulary.topic created ≠ Some (js "animals").
Proof.
  split.
  - intros v [->|Hv]%elem_of_cons; [vm_compute; discriminate|].
    by apply not_elem_of_nil in Hv.
  - eexists. split; [reflexivity|]. simpl. repeat split; discriminate.
Qed.

(** C5.  A word that differs from a stored one only by case and surrounding
    white space passes the duplicate check, which compares the word as
    supplied, and is then stored trimmed: the collection, whose words were
    unique up to case, now holds "cat" and "Cat". *)
Theorem padded_word_breaks_uniqueness :
  let req :=
    Sample.request (js "POST") []
      [("word", BString (js " Cat")); ("meaning", BString (js "mèo"))] in
  Spec.uniqueWords Sample.pets
  ∧ ∃ created,
      VocabularyRoute.handler (Holds Sample.pets) req
      = (respond 201 (JRecord created), Holds (Sample.pets ++ [created]))
      ∧ Vocabulary.word created = js "Cat"
      ∧ ¬ Spec.uniqueWords (Sample.pets ++ [created]).
Proof.
  split.
  - intros [|i] [|j] v w Hi Hj _; simplify_eq/=; done.
  - eexists. split; [reflexivity|]. split; [reflexivity|].
    intros Hunique. by specialize (Hunique 0 1 _ _ eq_refl eq_refl eq_refl).
Qed.

(** X2.  A word that, as supplied, is the word of a record up to case is
    turned down with 400, and the file is left as it was. *)
Theorem post_duplicate_rejected `{Unicode} `{Engine} (file : StoreFile) (req : Request)
    (w : jsstring) (v : Vocabulary.t) :
  method req = js "POST" →
  body req !! "word" = Some (BString w) →
  v ∈ readVocabulary file →
  Spec.sameWord (Vocabulary.word v) w →
  ∃ msg,
    VocabularyRoute.handler file req = (respond 400 (JError msg), file).
Proof.
  intros Hm Hw Hv Hsame.
  rewrite vocabulary_handler_post by done.
  unfold VocabularyRoute.handlePost. rewrite Hw.
  destruct (falsy (Some (BString w)) || falsy (body req !! "meaning"));
    [by eexists|].
  destruct (find_duplicate w (readVocabulary file))
    as (found & Hfind & Hfound).
  simpl in Hfind. simpl. rewrite Hfind. simpl.
  destruct found as [u|]; [by eexists|]. by destruct (Hfound v Hv).
Qed.

Lemma post_duplicate_rejected_witness :
  ∃ msg,
    VocabularyRoute.handler (Holds Sample.pets)
      (Sample.request (js "POST") []
         [("word", BString (js "CAT")); ("meaning", BString (js "mèo"))])
    = (respond 400 (JError msg), Holds Sample.pets).
Proof.
  apply (post_duplicate_rejected (Holds Sample.pets) _ (js "CAT")
           {| Vocabulary.id := 1; Vocabulary.word := js "cat";
              Vocabulary.meaning := js "con mèo"; Vocabulary.phonetic := None;
              Vocabulary.topic := None |});
    [reflexivity|reflexivity|apply list_elem_of_here|reflexivity].
Defined.

(** ** Searching the collection *)

(** C8, as stated, fails: the term "nature" occurs in the topic of two
    records and in no word or meaning, and the search returns nothing. *)
Lemma search_ignores_topic :
  let response :=
    (VocabularyRoute.handler (Holds Sample.store)
       (Sample.request (js "GET") [("search", QSingle (js "nature"))] [])).1 in
  json response = JRecords []
  ∧ ∃ v t, v ∈ Sample.store ∧ Vocabulary.topic v = Some t
           ∧ Spec.occursIn (js "nature") t.
Proof.
  split; [reflexivity|].
  exists (Sample.entry 3 (js "みず") (js "water") (js "mizu") (js "nature")),
    (js "nature").
  split; [by do 2 apply list_elem_of_further; apply list_elem_of_here|].
  split; [reflexivity|]. by exists [], [].
Qed.

(** C8, as the code has it.  With a search term, [GET /vocabulary] returns,
    in their order, exactly the records in whose word or meaning the term
    occurs, case ignored; without a term (none, the empty string, or a
    repeated parameter) it returns the whole collection. *)
Theorem search_filters_word_and_meaning `{Unicode} `{Engine} (file : StoreFile)
    (req : Request) :
  method req = js "GET" →
  let vocabulary := readVocabulary file in
  ∃ result,
    VocabularyRoute.handler file req = (respond 200 (JRecords result), file)
    ∧ match query req !! "search" with
      | Some (QSingle (c :: term)) =>
        ∃ keep : Vocabulary.t → bool,
          result = filter (λ v, keep v) vocabulary
          ∧ ∀ v, keep v
                 ↔ Spec.occursIn (c :: term) (Vocabulary.word v)
                   ∨ Spec.occursIn (c :: term) (Vocabulary.meaning v)
      | _ => result = vocabulary
      end.
Proof.
  intros Hm vocabulary. rewrite vocabulary_handler_get by done.
  unfold VocabularyRoute.handleGet. fold vocabulary.
  destruct (query req !! "search") as [[[|c term]|l]|]; simpl;
    try (by eexists).
  eexists. split; [reflexivity|].
  exists (λ v, includes (toLowerCase (Vocabulary.word v)) (toLowerCase (c :: term))
               || includes (toLowerCase (Vocabulary.meaning v))
                    (toLowerCase (c :: term))).
  split; [done|]. intros v. unfold Spec.occursIn, Spec.contains.
  rewrite orb_True, !Is_true_true, !includes_spec. done.
Qed.

Lemma search_filters_word_and_meaning_witness :
  ∃ result,
    VocabularyRoute.handler (Holds Sample.store)
      (Sample.request (js "GET") [("search", QSingle (js "AT"))] [])
    = (respond 200 (JRecords result), Holds Sample.store)
    ∧ ∃ keep : Vocabulary.t → bool,
        result = filter (λ v, keep v) Sample.store
        ∧ ∀ v, keep v
               ↔ Spec.occursIn (js "AT") (Vocabulary.word v)
                 ∨ Spec.occursIn (js "AT") (Vocabulary.meaning v).
Proof.
  apply (search_filters_word_and_meaning (Holds Sample.store)
           (Sample.request (js "GET") [("search", QSingle (js "AT"))] [])).
  reflexivity.
Defined.

Example search_example :
  (VocabularyRoute.handler (Holds Sample.store)
     (Sample.request (js "GET") [("search", QSingle (js "AT"))] [])).1
  = respond 200 (JRecords
      [Sample.entry 1 (js "ねこ") (js "cat") (js "neko") (js "animals");
       Sample.entry 3 (js "みず") (js "water") (js "mizu") (js "nature")]).
Proof. reflexivity. Qed.

(** ** Deleting a record *)

Lemma length_filter_all {A} (P : A → Prop) `{∀ x, Decision (P x)} (l : list A) :
  length (filter P l) = length l ↔ ∀ x, x ∈ l → P x.
Proof.
  induction l as [|y l IH].
  - split; [|done]. intros _ x Hx. by apply not_elem_of_nil in Hx.
  - rewrite filter_cons. pose proof (length_filter P l) as Hle.
    destruct (decide (P y)) as [Hy|Hy]; simpl.
    + split.
      * intros Hlen x [->|Hx]%elem_of_cons; [done|].
        apply IH; [lia|done].
      * intros Hall. f_equal. apply IH. intros x Hx.
        by apply Hall, list_elem_of_further.
    + split; [lia|]. intros Hall. destruct Hy. apply Hall, list_elem_of_here.
Qed.

(** X3.  [DELETE /vocabulary?id=n] on an id that no record has is answered
    404 and the file is left as it was; on an id that a record has it is
    answered 200 and the collection is written back without the records of
    that id. *)
Theorem delete_by_id `{Unicode} `{Engine} (file : StoreFile) (req : Request)
    (id : jsstring) :
  method req = js "DELETE" →
  query req !! "id" = Some (QSingle id) →
  id ≠ [] →
  let vocabulary := readVocabulary file in
  ((∀ v, v ∈ vocabulary → Some (Vocabulary.id v) ≠ parseInt id) →
   VocabularyRoute.handler file req
   = (respond 404 (JError (js "Vocabulary not found")), file))
  ∧ ((∃ v, v ∈ vocabulary ∧ Some (Vocabulary.id v) = parseInt id) →
     VocabularyRoute.handler file req
     = (respond 200 (JMessage (js "Vocabulary deleted successfully")),
        Holds (filter (λ v, Some (Vocabulary.id v) ≠ parseInt id) vocabulary))).
Proof.
  intros Hm Hid Hne vocabulary.
  assert (VocabularyRoute.handler file req
          = guarded file (VocabularyRoute.handleDelete file req)
              (respond 500 (JError (js "Failed to delete vocabulary")))) as ->.
  { unfold VocabularyRoute.handler. by rewrite Hm. }
  unfold VocabularyRoute.handleDelete. rewrite Hid.
  apply truthy_true in Hne. rewrite Hne. fold vocabulary. cbv zeta.
  pose proof (length_filter_all
                (λ v, Some (Vocabulary.id v) ≠ parseInt id) vocabulary) as Hall.
  destruct (Nat.eqb_spec
              (length (filter (λ v, Some (Vocabulary.id v) ≠ parseInt id)
                         vocabulary)) (length vocabulary)) as [Heq|Hneq].
  - split; [done|]. intros (v & Hv & Hsame).
    by destruct (proj1 Hall Heq v Hv).
  - split; [|done]. intros Hnone. destruct Hneq. by apply Hall.
Qed.

Lemma delete_by_id_witness :
  ((∀ v, v ∈ Sample.store → Some (Vocabulary.id v) ≠ parseInt (js "7")) →
   VocabularyRoute.handler (Holds Sample.store)
     (Sample.request (js "DELETE") [("id", QSingle (js "7"))] [])
   = (respond 404 (JError (js "Vocabulary not found")), Holds Sample.store))
  ∧ ((∃ v, v ∈ Sample.store ∧ Some (Vocabulary.id v) = parseInt (js "7")) →
     VocabularyRoute.handler (Holds Sample.store)
       (Sample.request (js "DELETE") [("id", QSingle (js "7"))] [])
     = (respond 200 (JMessage (js "Vocabulary deleted successfully")),
        Holds (filter (λ v, Some (Vocabulary.id v) ≠ parseInt (js "7"))
                 Sample.store))).
Proof.
  apply (delete_by_id (Holds Sample.store)
           (Sample.request (js "DELETE") [("id", QSingle (js "7"))] [])
           (js "7")); [reflexivity|reflexivity|done].
Defined.

Example delete_missing_id :
  VocabularyRoute.handler (Holds Sample.store)
    (Sample.request (js "DELETE") [("id", QSingle (js "7"))] [])
  = (respond 404 (JError (js "Vocabulary not found")), Holds Sample.store).
Proof. reflexivity. Qed.

(** ** Renaming a topic *)

Lemma topics_handler_put file req :
  method req = js "PUT" →
  TopicsRoute.handler file req
  = guarded file (TopicsRoute.handlePut file req)
      (respond 500 (JError (js "Failed to rename topic"))).
Proof. intros Hm. unfold TopicsRoute.handler. by rewrite Hm. Qed.

(** C7, as stated, fails: the new name is trimmed before it is written, so
    the records of "animals" end up in "fauna", not in " fauna" as asked. *)
Lemma rename_trims_new_name :
  let req :=
    Sample.request (js "PUT") []
      [("oldName", BString (js "animals"));
       ("newName", BString (js " fauna"))] in
  (∃ v, v ∈ Sample.store ∧ Vocabulary.topic v = Some (js "animals"))
  ∧ (∀ v, v ∈ Sample.store → Vocabulary.topic v ≠ Some (js " fauna"))
  ∧ ∃ written v',
      (TopicsRoute.handler (Holds Sample.store) req).2 = Holds written
      ∧ written !! 0 = Some v'
      ∧ Vocabulary.topic v' = Some (js "fauna")
      ∧ Vocabulary.topic v' ≠ Some (js " fauna").
Proof.
  split; [|split].
  - eexists. split; [apply list_elem_of_here|reflexivity].
  - intros v Hv. unfold Sample.store in Hv.
    repeat (apply elem_of_cons in Hv as [->|Hv]; [discriminate|]).
    by apply not_elem_of_nil in Hv.
  - eexists _, _. split; [reflexivity|]. split; [reflexivity|].
    split; [reflexivity|discriminate].
Qed.

(** C7, as the code has it.  Names are compared and written with their
    surrounding white space trimmed: when a record has the trimmed old name as
    its topic and none has the trimmed new name, every record of the old topic
    gets the new one, keeps its other fields and its place, and every other
    record is unchanged. *)
Theorem rename_topic (file : StoreFile) (req : Request)
    (oldName newName : jsstring) :
  method req = js "PUT" →
  body req !! "oldName" = Some (BString oldName) →
  body req !! "newName" = Some (BString newName) →
  oldName ≠ [] → newName ≠ [] →
  let vocabulary := readVocabulary file in
  let oldTopic := trim oldName in
  let newTopic := trim newName in
  (∃ v, v ∈ vocabulary ∧ Vocabulary.topic v = Some oldTopic) →
  (∀ v, v ∈ vocabulary → Vocabulary.topic v ≠ Some newTopic) →
  ∃ response written,
    TopicsRoute.handler file req = (response, Holds written)
    ∧ status response = 200%Z
    ∧ length written = length vocabulary
    ∧ ∀ i v, vocabulary !! i = Some v →
        ∃ v', written !! i = Some v'
          ∧ Vocabulary.id v' = Vocabulary.id v
          ∧ Vocabulary.word v' = Vocabulary.word v
          ∧ Vocabulary.meaning v' = Vocabulary.meaning v
          ∧ Vocabulary.phonetic v' = Vocabulary.phonetic v
          ∧ (Vocabulary.topic v = Some oldTopic →
             Vocabulary.topic v' = Some newTopic)
          ∧ (Vocabulary.topic v ≠ Some oldTopic → v' = v).
Proof.
  intros Hm Hold Hnew Holdne Hnewne vocabulary oldTopic newTopic
    (u & Hu & Hutopic) Hfree.
  rewrite topics_handler_put by done.
  unfold TopicsRoute.handlePut. rewrite Hold, Hnew.
  apply truthy_true in Holdne, Hnewne. rewrite Holdne, Hnewne.
  cbn [negb orb]. cbv zeta. fold oldTopic newTopic vocabulary.
  destruct (str_eqb oldTopic newTopic) eqn:Heq.
  { apply str_eqb_true in Heq. destruct (Hfree u Hu). by rewrite <- Heq. }
  destruct (Nat.eqb_spec
              (length (filter (λ v, Vocabulary.topic v = Some oldTopic)
                         vocabulary)) 0) as [Hnone|_].
  { apply length_zero_iff_nil in Hnone.
    assert (u ∈ filter (λ v, Vocabulary.topic v = Some oldTopic) vocabulary)
      as Hin by (by apply list_elem_of_filter).
    rewrite Hnone in Hin. by apply not_elem_of_nil in Hin. }
  destruct (list_find _ vocabulary) as [[j w]|] eqn:Hfind.
  { apply list_find_Some in Hfind as (Hj & Hw & _).
    destruct (Hfree w); [by eapply list_elem_of_lookup_2|done]. }
  eexists _, _. split; [reflexivity|]. split; [done|].
  split; [by rewrite length_fmap|].
  intros i v Hv. rewrite list_lookup_fmap, Hv. simpl.
  eexists. split; [reflexivity|]. case_bool_decide; simpl; by repeat split.
Qed.

Lemma rename_topic_witness :
  ∃ response written,
    TopicsRoute.handler (Holds Sample.store)
      (Sample.request (js "PUT") []
         [("oldName", BString (js "animals "));
          ("newName", BString (js " fauna"))])
    = (response, Holds written)
    ∧ status response = 200%Z
    ∧ length written = length Sample.store
    ∧ ∀ i v, Sample.store !! i = Some v →
        ∃ v', written !! i = Some v'
          ∧ Vocabulary.id v' = Vocabulary.id v
          ∧ Vocabulary.word v' = Vocabulary.word v
          ∧ Vocabulary.meaning v' = Vocabulary.meaning v
          ∧ Vocabulary.phonetic v' = Vocabulary.phonetic v
          ∧ (Vocabulary.topic v = Some (js "animals") →
             Vocabulary.topic v' = Some (js "fauna"))
          ∧ (Vocabulary.topic v ≠ Some (js "animals") → v' = v).
Proof.
  apply (rename_topic (Holds Sample.store)
           (Sample.request (js "PUT") []
              [("oldName", BString (js "animals "));
               ("newName", BString (js " fauna"))])
           (js "animals ") (js " fauna")); [reflexivity..|done|done| |].
  - eexists. split; [apply list_elem_of_here|reflexivity].
  - intros v Hv. unfold readVocabulary, Sample.store in Hv. simpl in Hv.
    repeat (apply elem_of_cons in Hv as [->|Hv]; [discriminate|]).
    by apply not_elem_of_nil in Hv.
Defined.

(** ** Operations that keep the words unique *)

Lemma uniqueWords_filter `{Unicode} (P : Vocabulary.t → Prop)
    `{∀ v, Decision (P v)} (vocabulary : list Vocabulary.t) :
  Spec.uniqueWords vocabulary → Spec.uniqueWords (filter P vocabulary).
Proof.
  rewrite !uniqueWords_NoDup. intros Hnodup.
  eapply sublist_NoDup; [exact Hnodup|apply fmap_sublist, sublist_filter].
Qed.

Lemma uniqueWords_same_words `{Unicode} (f : Vocabulary.t → Vocabulary.t)
    (vocabulary : list Vocabulary.t) :
  (∀ v, Vocabulary.word (f v) = Vocabulary.word v) →
  Spec.uniqueWords vocabulary → Spec.uniqueWords (f <$> vocabulary).
Proof.
  intros Hf. rewrite !uniqueWords_NoDup, <- list_fmap_compose.
  assert (((λ v, toLowerCase (Vocabulary.word v)) ∘ f <$> vocabulary)
          = ((λ v, toLowerCase (Vocabulary.word v)) <$> vocabulary)) as ->; [|done].
  apply list_fmap_ext. intros i v _. simpl. by rewrite Hf.
Qed.

(** X4.  Uniqueness of the words up to case is kept by every request to the
    topics route, and by the requests to the vocabulary route that do not
    create or update a record. *)
Theorem uniqueness_kept_without_new_words `{Unicode} `{Engine} (file : StoreFile)
    (req : Request) :
  Spec.uniqueWords (readVocabulary file) →
  Spec.uniqueWords (readVocabulary (TopicsRoute.handler file req).2)
  ∧ (method req ≠ js "POST" → method req ≠ js "PUT" →
     Spec.uniqueWords (readVocabulary (VocabularyRoute.handler file req).2)).
Proof.
  intros Hunique. split.
  - unfold TopicsRoute.handler, TopicsRoute.handleGet, TopicsRoute.handlePost,
      TopicsRoute.handlePut, TopicsRoute.handleDelete.
    repeat case_match; simplify_eq/=; try done.
    + apply uniqueWords_same_words; [|done]. intros v. by case_bool_decide.
    + by apply uniqueWords_filter.
  - intros Hpost Hput. unfold VocabularyRoute.handler.
    apply str_eqb_false in Hpost, Hput. rewrite Hpost, Hput.
    unfold VocabularyRoute.handleGet, VocabularyRoute.handleDelete.
    repeat case_match; simplify_eq/=; try done.
    by apply uniqueWords_filter.
Qed.

Lemma uniqueness_kept_without_new_words_witness :
  let req :=
    Sample.request (js "DELETE") [("id", QSingle (js "1"))]
      [("name", BString (js "animals"))] in
  Spec.uniqueWords (readVocabulary (TopicsRoute.handler (Holds Sample.store) req).2)
  ∧ (method req ≠ js "POST" → method req ≠ js "PUT" →
     Spec.uniqueWords
       (readVocabulary (VocabularyRoute.handler (Holds Sample.store) req).2)).
Proof.
  apply (uniqueness_kept_without_new_words (Holds Sample.store)).
  apply uniqueWords_NoDup. apply (bool_decide_unpack _). exact I.
Defined.

(** ** A missing or corrupt store file *)

Lemma guarded_alike file file' m m' failed :
  readVocabulary file = readVocabulary file' →
  match m, m' with
  | Returned r, Returned r' => alike r r'
  | Thrown, Thrown => True
  | _, _ => False
  end →
  alike (guarded file m failed) (guarded file' m' failed).
Proof. intros Hread. destruct m, m'; done. Qed.

Lemma vocabulary_handler_alike `{Unicode} `{Engine} file file' req :
  readVocabulary file = readVocabulary file' →
  alike (VocabularyRoute.handler file req) (VocabularyRoute.handler file' req).
Proof.
  intros Hread. unfold VocabularyRoute.handler.
  repeat (destruct (str_eqb (method req) _); [apply guarded_alike; [done|]|]);
    [..|done].
  - unfold VocabularyRoute.handleGet. rewrite Hread.
    by_cases.
  - unfold VocabularyRoute.handlePost. rewrite Hread.
    by_cases.
  - unfold VocabularyRoute.handlePut. rewrite Hread.
    by_cases.
  - unfold VocabularyRoute.handleDelete. rewrite Hread.
    by_cases.
Qed.

Lemma topics_handler_alike file file' req :
  readVocabulary file = readVocabulary file' →
  alike (TopicsRoute.handler file req) (TopicsRoute.handler file' req).
Proof.
  intros Hread. unfold TopicsRoute.handler.
  repeat (destruct (str_eqb (method req) _); [apply guarded_alike; [done|]|]);
    [..|done].
  - unfold TopicsRoute.handleGet. rewrite Hread. by_cases.
  - unfold TopicsRoute.handlePost. rewrite Hread. by_cases.
  - unfold TopicsRoute.handlePut. rewrite Hread. by_cases.
  - unfold TopicsRoute.handleDelete. rewrite Hread. by_cases.
Qed.

Lemma quiz_handler_alike `{Unicode} file file' req e :
  readVocabulary file = readVocabulary file' →
  Quiz.handler file req e = Quiz.handler file' req e.
Proof.
  intros Hread. unfold Quiz.handler, Quiz.handleGet. by rewrite Hread.
Qed.

(** C9.  A store file that is missing or does not parse reads as the empty
    collection, and every route then answers as it does on an empty
    collection: the list is empty, the quiz has no vocabulary, and a write
    starts from nothing. *)
Theorem unreadable_store_reads_empty `{Unicode} `{Engine} (file : StoreFile) :
  file = Missing ∨ (∃ text, file = Unparseable text) →
  readVocabulary file = []
  ∧ ∀ (req : Request) (e : Entropy),
      Quiz.handler file req e = Quiz.handler (Holds []) req e
      ∧ (VocabularyRoute.handler file req).1
        = (VocabularyRoute.handler (Holds []) req).1
      ∧ readVocabulary (VocabularyRoute.handler file req).2
        = readVocabulary (VocabularyRoute.handler (Holds []) req).2
      ∧ (TopicsRoute.handler file req).1
        = (TopicsRoute.handler (Holds []) req).1
      ∧ readVocabulary (TopicsRoute.handler file req).2
        = readVocabulary (TopicsRoute.handler (Holds []) req).2
      ∧ (method req = js "GET" →
         (VocabularyRoute.handler file req).1 = respond 200 (JRecords [])
         ∧ (TopicsRoute.handler file req).1 = respond 200 (JTopicStats [])
         ∧ (Quiz.handler file req e).1
           = respond 400 (JError (js "No vocabulary available for quiz"))).
Proof.
  intros Hfile.
  assert (readVocabulary file = readVocabulary (Holds [])) as Hread
    by (by destruct Hfile as [->|[text ->]]).
  split; [done|]. intros req e.
  destruct (vocabulary_handler_alike file (Holds []) req Hread) as [Hv1 Hv2].
  destruct (topics_handler_alike file (Holds []) req Hread) as [Ht1 Ht2].
  split; [by apply quiz_handler_alike|]. repeat (split; [done|]).
  intros Hm. rewrite Hv1, Ht1, (quiz_handler_alike _ _ _ _ Hread).
  unfold VocabularyRoute.handler, TopicsRoute.handler, Quiz.handler.
  rewrite Hm. simpl. repeat split.
  unfold VocabularyRoute.handleGet. simpl. by repeat case_match.
Qed.

Lemma unreadable_store_reads_empty_witness :
  readVocabulary (Unparseable (js "[{ id: 1, ")) = []
  ∧ ∀ (req : Request) (e : Entropy),
      Quiz.handler (Unparseable (js "[{ id: 1, ")) req e
      = Quiz.handler (Holds []) req e
      ∧ (VocabularyRoute.handler (Unparseable (js "[{ id: 1, ")) req).1
        = (VocabularyRoute.handler (Holds []) req).1
      ∧ readVocabulary (VocabularyRoute.handler (Unparseable (js "[{ id: 1, ")) req).2
        = readVocabulary (VocabularyRoute.handler (Holds []) req).2
      ∧ (TopicsRoute.handler (Unparseable (js "[{ id: 1, ")) req).1
        = (TopicsRoute.handler (Holds []) req).1
      ∧ readVocabulary (TopicsRoute.handler (Unparseable (js "[{ id: 1, ")) req).2
        = readVocabulary (TopicsRoute.handler (Holds []) req).2
      ∧ (method req = js "GET" →
         (VocabularyRoute.handler (Unparseable (js "[{ id: 1, ")) req).1
         = respond 200 (JRecords [])
         ∧ (TopicsRoute.handler (Unparseable (js "[{ id: 1, ")) req).1
           = respond 200 (JTopicStats [])
         ∧ (Quiz.handler (Unparseable (js "[{ id: 1, ")) req e).1
           = respond 400 (JError (js "No vocabulary available for quiz"))).
Proof.
  apply (unreadable_store_reads_empty (Unparseable (js "[{ id: 1, "))).
  right. by eexists.
Defined.

(** * Further properties of the routes *)

(** ** The shuffle *)

(** The source of randomness after [n] draws. *)
Lemma shuffleFrom_draws {A} (i : nat) (a : list A) (e : Entropy) :
  ∃ a', Quiz.shuffleFrom i a e = (Returned a', Nat.iter i rest e) ∧ a' ≡ₚ a.
Proof.
  revert a e. induction i as [|i IH]; intros a e.
  - by exists a.
  - destruct (randomIndex_returns (S i + 1) e) as (j & _ & Hj); [lia|].
    destruct (IH (Quiz.swap a (S i) j) (rest e)) as (a' & Ha' & Hp).
    exists a'. split.
    + simpl Quiz.shuffleFrom. rewrite (bind_returned _ _ _ _ _ Hj), Ha'.
      by rewrite Nat.iter_succ_r.
    + by rewrite Hp, swap_perm.
Qed.

(** X5.  [shuffleArray] never throws and never loses, adds or repeats an
    element: whatever the random draws, it returns a permutation of its
    argument, having made one draw for each element but the first. *)
Theorem shuffle_is_permutation {A} (array : list A) (e : Entropy) :
  ∃ shuffled,
    Quiz.shuffleArray array e
    = (Returned shuffled, Nat.iter (length array - 1) rest e)
    ∧ shuffled ≡ₚ array
    ∧ length shuffled = length array
    ∧ ∀ x, x ∈ shuffled ↔ x ∈ array.
Proof.
  destruct (shuffleFrom_draws (length array - 1) array e) as (a' & Hrun & Hp).
  exists a'. split; [done|]. split; [done|].
  split; [by rewrite Hp|]. intros x. by rewrite Hp.
Qed.

(** ** The shape of a generated question *)

(** X6.  The mode decides the kind of question.  The three text modes give a
    text-input question without options, the three other modes a
    multiple-choice question with options; a mode other than the two mixed
    ones is also the type of the question, and a mixed mode gives one of its
    two types. *)
Theorem mode_decides_input `{Unicode} (file : StoreFile) (req : Request)
    (e : Entropy) (m : jsstring) (q : QuizQuestion.t) :
  method req = js "GET" →
  query req !! "mode" = Some (QSingle m) →
  m ∈ Quiz.validModes →
  (Quiz.handler file req e).1 = respond 200 (JQuestion q) →
  (if bool_decide (m ∈ [js "phonetic-to-meaning-text";
                        js "meaning-to-phonetic-text"; js "mixed-text"])
   then QuizQuestion.inputType q = js "text-input"
        ∧ QuizQuestion.options q = None
   else QuizQuestion.inputType q = js "multiple-choice"
        ∧ ∃ opts, QuizQuestion.options q = Some opts)
  ∧ (m ≠ js "mixed" → m ≠ js "mixed-text" → QuizQuestion.type q = m)
  ∧ (m = js "mixed" →
     QuizQuestion.type q = js "phonetic-to-meaning"
     ∨ QuizQuestion.type q = js "meaning-to-phonetic")
  ∧ (m = js "mixed-text" →
     QuizQuestion.type q = js "phonetic-to-meaning-text"
     ∨ QuizQuestion.type q = js "meaning-to-phonetic-text").
Proof.
  intros Hm Hmode Hvalid Hresp.
  assert (status (Quiz.handler file req e).1 = 200%Z) as Hstatus
    by (by rewrite Hresp).
  destruct (quiz_get_200 file req e Hm Hstatus)
    as (item & q' & Hresp' & _ & Hgen).
  rewrite Hresp in Hresp'. simplify_eq.
  unfold Spec.quizMode in Hgen. rewrite Hmode in Hgen.
  rewrite decide_True in Hgen by done.
  destruct Hgen as [_ _ _ Htyping _ Hopts].
  unfold Spec.typingOf in Htyping. unfold Spec.optionsOf in Hopts.
  unfold Quiz.validModes in Hvalid.
  repeat (apply elem_of_cons in Hvalid as [->|Hvalid]);
    [..|by apply not_elem_of_nil in Hvalid];
    simpl in Htyping; destruct Htyping as [Ht Hi];
    rewrite ?Hi, ?Ht in Hopts; simpl in Hopts;
    (split; [|split; [|split]]); simpl; try done;
    try (destruct Hopts as (opts & _ & Hsome & _); split; [done|by eexists]).
Qed.

Lemma mode_decides_input_witness :
  let req :=
    Sample.request (js "GET")
      [("mode", QSingle (js "meaning-to-phonetic-text"))] [] in
  let m := js "meaning-to-phonetic-text" in
  ∃ q,
    (Quiz.handler (Holds Sample.store) req Sample.zeros).1
    = respond 200 (JQuestion q)
    ∧ (if bool_decide (m ∈ [js "phonetic-to-meaning-text";
                            js "meaning-to-phonetic-text"; js "mixed-text"])
       then QuizQuestion.inputType q = js "text-input"
            ∧ QuizQuestion.options q = None
       else QuizQuestion.inputType q = js "multiple-choice"
            ∧ ∃ opts, QuizQuestion.options q = Some opts)
    ∧ (m ≠ js "mixed" → m ≠ js "mixed-text" → QuizQuestion.type q = m)
    ∧ (m = js "mixed" →
       QuizQuestion.type q = js "phonetic-to-meaning"
       ∨ QuizQuestion.type q = js "meaning-to-phonetic")
    ∧ (m = js "mixed-text" →
       QuizQuestion.type q = js "phonetic-to-meaning-text"
       ∨ QuizQuestion.type q = js "meaning-to-phonetic-text").
Proof.
  eexists. split; [reflexivity|].
  apply (mode_decides_input (Holds Sample.store)
           (Sample.request (js "GET")
              [("mode", QSingle (js "meaning-to-phonetic-text"))] [])
           Sample.zeros (js "meaning-to-phonetic-text"));
    [reflexivity|reflexivity|apply (bool_decide_unpack _); exact I|reflexivity].
Defined.

Lemma filter_none {A} (P : A → Prop) `{∀ x, Decision (P x)} (l : list A) :
  (∀ x, x ∈ l → ¬ P x) → filter P l = [].
Proof.
  intros Hnone. induction l as [|x l IH]; [done|].
  rewrite filter_cons, decide_False by (apply Hnone, list_elem_of_here).
  apply IH. intros y Hy. by apply Hnone, list_elem_of_further.
Qed.

(** X7.  Among the options of a multiple-choice question the correct answer
    stands exactly once, so exactly one choice is graded as correct; there are
    at least one and at most four options. *)
Theorem correct_answer_once `{Unicode} (file : StoreFile) (req : Request)
    (e : Entropy) (q : QuizQuestion.t) (opts : list (option jsstring)) :
  method req = js "GET" →
  (Quiz.handler file req e).1 = respond 200 (JQuestion q) →
  QuizQuestion.options q = Some opts →
  length (filter (λ o, o = QuizQuestion.correctAnswer q) opts) = 1
  ∧ 1 ≤ length opts ≤ 4.
Proof.
  intros Hm Hresp Hsome.
  assert (status (Quiz.handler file req e).1 = 200%Z) as Hstatus
    by (by rewrite Hresp).
  destruct (quiz_get_200 file req e Hm Hstatus)
    as (item & q' & Hresp' & _ & Hgen).
  rewrite Hresp in Hresp'. simplify_eq. split.
  - destruct Hgen as [_ _ _ _ _ Hopts]. unfold Spec.optionsOf in Hopts.
    destruct (decide _); [|congruence].
    destruct Hopts as (opts' & shuffledPool & ? & Hp1 & Hp2). simplify_eq.
    rewrite Hp2, filter_cons, decide_True by done.
    rewrite filter_none; [done|].
    intros o Ho. apply (subseteq_take 3) in Ho. rewrite Hp1 in Ho.
    unfold Spec.optionPool in Ho. by apply list_elem_of_filter in Ho as [? _].
  - rewrite (options_length _ _ _ _ _ _ Hgen Hsome). lia.
Qed.

Lemma correct_answer_once_witness :
  let req :=
    Sample.request (js "GET")
      [("mode", QSingle (js "phonetic-to-meaning"))] [] in
  ∃ q opts,
    (Quiz.handler (Holds Sample.store) req Sample.zeros).1
    = respond 200 (JQuestion q)
    ∧ QuizQuestion.options q = Some opts
    ∧ length (filter (λ o, o = QuizQuestion.correctAnswer q) opts) = 1
    ∧ 1 ≤ length opts ≤ 4.
Proof.
  eexists _, _. split; [reflexivity|]. split; [reflexivity|].
  apply (correct_answer_once (Holds Sample.store)
           (Sample.request (js "GET")
              [("mode", QSingle (js "phonetic-to-meaning"))] [])
           Sample.zeros); reflexivity.
Defined.

(** ** Grading a free-text answer *)

(** X8.  In the Vietnamese comparison an answer that normalizes to the empty
    string, such as one made of punctuation only, is accepted against every
    correct answer: the empty string is contained in every string.  The exact
    comparison accepts it only when the correct answer normalizes to the
    empty string too. *)
Theorem blank_answer_accepted `{Unicode} (userAnswer correctAnswer : jsstring) :
  userAnswer ≠ [] → correctAnswer ≠ [] →
  Quiz.normalizeVietnamese userAnswer = [] →
  Quiz.isAnswerCorrect userAnswer correctAnswer true = true
  ∧ (Quiz.isAnswerCorrect userAnswer correctAnswer false = true
     ↔ Quiz.normalizeVietnamese correctAnswer = []).
Proof.
  intros Hu Hc Hblank. unfold Quiz.isAnswerCorrect.
  apply truthy_true in Hu, Hc. rewrite Hu, Hc, Hblank. cbn [negb orb].
  cbv zeta. split.
  - destruct (str_eqb _ _); [done|].
    assert (includes (Quiz.normalizeVietnamese correctAnswer) [] = true)
      as -> by (apply includes_spec; by exists [], (Quiz.normalizeVietnamese correctAnswer)).
    by rewrite orb_true_r.
  - rewrite str_eqb_true. split; by intros ->.
Qed.

Lemma blank_answer_accepted_witness :
  Quiz.isAnswerCorrect (js "?!") (js "con mèo") true = true
  ∧ (Quiz.isAnswerCorrect (js "?!") (js "con mèo") false = true
     ↔ Quiz.normalizeVietnamese (js "con mèo") = []).
Proof.
  apply (blank_answer_accepted (js "?!") (js "con mèo")); [done|done|reflexivity].
Defined.

Lemma includes_self (s : jsstring) : includes s s = true.
Proof. apply includes_spec. exists [], []. by rewrite app_nil_r. Qed.

(** X9.  What the exact comparison accepts, the Vietnamese comparison accepts
    as well.  It also accepts a user's answer that has the correct one inside
    it, one that is a part of the correct one, and one that has every word of
    the correct answer among its words, in whatever order. *)
Theorem vietnamese_is_more_lenient `{Unicode}
    (userAnswer correctAnswer : jsstring) :
  userAnswer ≠ [] → correctAnswer ≠ [] →
  (Quiz.isAnswerCorrect userAnswer correctAnswer false = true
   ∨ Spec.contains (Quiz.normalizeVietnamese userAnswer)
       (Quiz.normalizeVietnamese correctAnswer)
   ∨ Spec.contains (Quiz.normalizeVietnamese correctAnswer)
       (Quiz.normalizeVietnamese userAnswer)
   ∨ split 0x20 (Quiz.normalizeVietnamese correctAnswer)
     ⊆ split 0x20 (Quiz.normalizeVietnamese userAnswer)) →
  Quiz.isAnswerCorrect userAnswer correctAnswer true = true.
Proof.
  intros Hu Hc Hcases. unfold Quiz.isAnswerCorrect in *.
  apply truthy_true in Hu, Hc. rewrite Hu, Hc in *. cbn [negb orb] in *.
  cbv zeta. destruct (str_eqb _ _) eqn:Heq; [done|].
  destruct Hcases as [?|[Hin|[Hin|Hwords]]]; [done|..].
  - apply includes_spec in Hin. by rewrite Hin.
  - apply includes_spec in Hin. by rewrite Hin, orb_true_r.
  - destruct (_ || _); [done|].
    assert (forallb (λ word,
              existsb (λ userWord,
                includes userWord word || includes word userWord)
                (split 0x20 (Quiz.normalizeVietnamese userAnswer)))
              (split 0x20 (Quiz.normalizeVietnamese correctAnswer)) = true)
      as ->; [|done].
    apply forallb_forall. intros word Hword. apply existsb_exists.
    exists word. split; [|by rewrite includes_self].
    by apply list_elem_of_In, Hwords, list_elem_of_In.
Qed.

Lemma vietnamese_is_more_lenient_witness :
  Quiz.isAnswerCorrect (js "đỏ, táo") (js "Táo đỏ") true = true.
Proof.
  apply (vietnamese_is_more_lenient (js "đỏ, táo") (js "Táo đỏ"));
    [done|done|].
  do 3 right. apply (bool_decide_unpack _). exact I.
Defined.

(** ** Grading the answer to a generated question *)

Lemma isAnswerCorrect_same `{Unicode} (c : jsstring) (isVietnamese : bool) :
  c ≠ [] → Quiz.isAnswerCorrect c c isVietnamese = true.
Proof.
  intros Hc. unfold Quiz.isAnswerCorrect. apply truthy_true in Hc.
  rewrite Hc. cbn [negb orb]. cbv zeta.
  assert (∀ s : jsstring, str_eqb s s = true) as Hrefl
    by (intros s; by apply str_eqb_true).
  rewrite Hrefl. by destruct isVietnamese.
Qed.

Lemma generated_type_not_empty vocabulary req topic item q :
  Spec.Generated vocabulary (Spec.quizMode req) topic item q →
  QuizQuestion.type q ≠ [].
Proof.
  intros [_ _ _ Htyping _ _]. unfold Spec.typingOf in Htyping.
  destruct (decide _) as [|Hmixed]; [by destruct Htyping as [_ [->| ->]]|].
  destruct (decide _) as [|Htext]; [by destruct Htyping as [_ [->| ->]]|].
  destruct Htyping as [-> _]. unfold Spec.quizMode in *.
  destruct (query req !! "mode") as [[m|]|]; try done.
  destruct (decide (m ∈ Quiz.validModes)) as [Hvalid|]; [|done].
  unfold Quiz.validModes in Hvalid.
  repeat (apply elem_of_cons in Hvalid as [->|Hvalid]); try done.
  by apply not_elem_of_nil in Hvalid.
Qed.

Lemma quiz_handler_post `{Unicode} file req e :
  method req = js "POST" →
  Quiz.handler file req e
  = Quiz.catch (Quiz.handlePost req)
      (respond 500 (JError (js "Failed to check answer"))) e.
Proof. intros Hm. unfold Quiz.handler. by rewrite Hm. Qed.

(** X10.  The correct answer of a generated question, typed in as it is
    (white space around it aside), is graded correct, in every mode.  A
    question whose record has no value for the answer side carries no correct
    answer, and every answer to it is turned down with 400. *)
Theorem typed_correct_answer_accepted `{Unicode} (file : StoreFile)
    (req : Request) (e e' : Entropy) (q : QuizQuestion.t)
    (textAnswer : jsstring) :
  method req = js "GET" →
  (Quiz.handler file req e).1 = respond 200 (JQuestion q) →
  trim textAnswer ≠ [] →
  ∃ post,
    Page.answerRequest q textAnswer = Some post
    ∧ (QuizQuestion.correctAnswer q = Some (trim textAnswer) →
       ∃ isVietnamese,
         (Quiz.handler file post e').1
         = respond 200 (JAnswerCheck true (trim textAnswer) (trim textAnswer)
                          isVietnamese))
    ∧ (QuizQuestion.correctAnswer q = None →
       (Quiz.handler file post e').1
       = respond 400 (JError (js "Missing required fields"))).
Proof.
  intros Hm Hresp Hanswer.
  assert (status (Quiz.handler file req e).1 = 200%Z) as Hstatus
    by (by rewrite Hresp).
  destruct (quiz_get_200 file req e Hm Hstatus)
    as (item & q' & Hresp' & _ & Hgen).
  rewrite Hresp in Hresp'. simplify_eq.
  apply generated_type_not_empty in Hgen.
  unfold Page.answerRequest. pose proof Hanswer as Htruthy.
  apply truthy_true in Htruthy. rewrite Htruthy. simpl.
  eexists. split; [reflexivity|]. apply truthy_true in Hgen.
  rewrite quiz_handler_post by done.
  unfold Quiz.catch, Quiz.handlePost, Page.answerBody. cbn [body].
  split.
  - intros Hcorrect. rewrite Hcorrect. simplify_map_eq.
    unfold falsy. rewrite Htruthy, Hgen. simpl.
    rewrite isAnswerCorrect_same by done. by eexists.
  - intros Hnone. rewrite Hnone. simplify_map_eq.
    unfold falsy. by rewrite Htruthy.
Qed.

Lemma typed_correct_answer_accepted_witness :
  let req :=
    Sample.request (js "GET")
      [("mode", QSingle (js "phonetic-to-meaning-text"))] [] in
  ∃ q post,
    (Quiz.handler (Holds Sample.store) req Sample.zeros).1
    = respond 200 (JQuestion q)
    ∧ Page.answerRequest q (js " cat ") = Some post
    ∧ (QuizQuestion.correctAnswer q = Some (trim (js " cat ")) →
       ∃ isVietnamese,
         (Quiz.handler (Holds Sample.store) post Sample.zeros).1
         = respond 200 (JAnswerCheck true (trim (js " cat "))
                          (trim (js " cat ")) isVietnamese))
    ∧ (QuizQuestion.correctAnswer q = None →
       (Quiz.handler (Holds Sample.store) post Sample.zeros).1
       = respond 400 (JError (js "Missing required fields"))).
Proof.
  eexists.
  destruct (typed_correct_answer_accepted (Holds Sample.store)
              (Sample.request (js "GET")
                 [("mode", QSingle (js "phonetic-to-meaning-text"))] [])
              Sample.zeros Sample.zeros _ (js " cat ") eq_refl eq_refl)
    as (post & Hpost); [done|].
  exists post. split; [reflexivity|exact Hpost].
Defined.

(** ** Printing a number and parsing it back *)

Lemma literal_ascii (a : Ascii.ascii) (t : string) :
  (Ascii.N_of_ascii a < 0x80)%N →
  literal (String a t) = Ascii.N_of_ascii a :: literal t.
Proof.
  intros Ha. unfold literal. cbn [bytes_of_string utf8_code_points].
  apply N.ltb_lt in Ha. rewrite Ha. rewrite bind_cons. unfold utf16_units at 1.
  apply N.ltb_lt in Ha.
  assert ((Ascii.N_of_ascii a <? 0x10000) = true)%N as -> by (apply N.ltb_lt; lia).
  done.
Qed.

Lemma literal_digit (d : N) (t : string) :
  (d < 10)%N → literal (String (pretty_N_char d) t) = (0x30 + d)%N :: literal t.
Proof.
  intros Hd.
  assert (d = 0 ∨ d = 1 ∨ d = 2 ∨ d = 3 ∨ d = 4 ∨ d = 5 ∨ d = 6 ∨ d = 7
          ∨ d = 8 ∨ d = 9)%N as Hcases by lia.
  repeat destruct Hcases as [->|Hcases]; try subst d;
    by rewrite literal_ascii by (vm_compute; reflexivity).
Qed.

Lemma parseDigits_digit (acc : option N) (d : N) (t : jsstring) :
  (d < 10)%N →
  parseDigits 10 acc ((0x30 + d)%N :: t)
  = parseDigits 10 (Some (default 0 acc * 10 + d)%N) t.
Proof.
  intros Hd. cbn [parseDigits]. unfold digitValue.
  assert ((0x30 <=? 0x30 + d) && (0x30 + d <=? 0x39) = true)%N as ->.
  { apply andb_true_iff. split; apply N.leb_le; lia. }
  assert (0x30 + d - 0x30 = d)%N as -> by lia.
  by assert ((d <? 10) = true)%N as -> by (apply N.ltb_lt; lia).
Qed.

(** The digits of a positive number parse back to it, and the first one is
    not a zero. *)
Lemma pretty_N_go_parse (x : N) (s : string) :
  (0 < x)%N →
  parseDigits 10 None (literal (pretty_N_go x s))
  = parseDigits 10 (Some x) (literal s)
  ∧ ∃ d rest, literal (pretty_N_go x s) = (0x30 + d)%N :: rest
              ∧ (0 < d < 10)%N.
Proof.
  revert s. induction (N.lt_wf_0 x) as [x _ IH]. intros s Hx.
  rewrite pretty_N_go_step by done.
  assert (x `mod` 10 < 10)%N as Hmod by (apply N.mod_lt; lia).
  assert (x < 10 ∨ 10 ≤ x)%N as [Hsmall|Hlarge] by lia.
  - rewrite N.div_small, pretty_N_go_0 by done.
    rewrite N.mod_small by done. rewrite literal_digit by done. split.
    + by rewrite parseDigits_digit.
    + exists x, (literal s). split; [done|lia].
  - assert (0 < x `div` 10)%N as Hdiv by (apply N.div_str_pos; lia).
    destruct (IH (x `div` 10)%N (N.div_lt x 10 Hx eq_refl)
                (String (pretty_N_char (x `mod` 10)) s) Hdiv)
      as [Hparse Hshape].
    split; [|done]. rewrite Hparse, literal_digit, parseDigits_digit by done.
    simpl. do 2 f_equal. rewrite (N.div_mod x 10) at 3 by done. lia.
Qed.

Lemma parseInt_digits (negative : bool) (d : N) (rest : jsstring) :
  (0 < d < 10)%N →
  parseInt ((if negative then [0x2D%N] else []) ++ (0x30 + d)%N :: rest)
  = (λ n, roundToDouble (if negative then (- Z.of_N n)%Z else Z.of_N n))
      <$> parseDigits 10 None ((0x30 + d)%N :: rest).
Proof.
  intros Hd.
  assert (d = 1 ∨ d = 2 ∨ d = 3 ∨ d = 4 ∨ d = 5 ∨ d = 6 ∨ d = 7
          ∨ d = 8 ∨ d = 9)%N as Hcases by lia.
  repeat destruct Hcases as [->|Hcases]; try subst d;
    destruct negative; unfold parseInt; simpl;
    by destruct (parseDigits _ _ _).
Qed.

(** The digits of an integer parse back to the number nearest to it. *)
Lemma parseInt_decimal (n : Z) : parseInt (decimal n) = Some (roundToDouble n).
Proof.
  unfold decimal. destruct n as [|p|p]; [done|..]; unfold pretty, pretty_Z;
    unfold pretty, pretty_positive, pretty, pretty_N;
    rewrite decide_False by done;
    destruct (pretty_N_go_parse (N.pos p) "")
      as (Hparse & d & rest & Hshape & Hd); try done.
  - pose proof (parseInt_digits false d rest Hd) as Hint. cbn [app] in Hint.
    rewrite Hshape, Hint, <- Hshape, Hparse. done.
  - change ("-" +:+ pretty_N_go (N.pos p) "")
      with (String (Ascii.ascii_of_N 0x2D) (pretty_N_go (N.pos p) "")).
    rewrite literal_ascii by (vm_compute; reflexivity).
    pose proof (parseInt_digits true d rest Hd) as Hint. cbn [app] in Hint.
    rewrite Hshape.
    change (Ascii.N_of_ascii (Ascii.ascii_of_N 45)) with 45%N.
    rewrite Hint, <- Hshape, Hparse.
    done.
Qed.

(** A number up to [2^53] printed by [String] parses back to itself. *)
Lemma parseInt_numberToString (n : Z) :
  (Z.abs n ≤ 2 ^ 53)%Z → parseInt (numberToString n) = Some n.
Proof.
  intros Hn. destruct (decide (Z.abs n < 2 ^ 53)%Z) as [Hsafe|Hlast].
  - unfold numberToString.
    assert ((Z.abs n <? 2 ^ 53)%Z = true) as -> by (by apply Z.ltb_lt).
    rewrite parseInt_decimal, roundToDouble_safe; [done|].
    unfold safeInteger. lia.
  - assert (n = 2 ^ 53 ∨ n = - 2 ^ 53)%Z as [->| ->] by lia; by vm_compute.
Qed.

Lemma numberToString_not_empty (n : Z) :
  (Z.abs n ≤ 2 ^ 53)%Z → numberToString n ≠ [].
Proof.
  intros Hn Hempty. pose proof (parseInt_numberToString n Hn) as Hparse.
  by rewrite Hempty in Hparse.
Qed.

Lemma parseIntValue_number (n : Z) :
  safeInteger n → parseIntValue (BNumber n) = Some n.
Proof.
  intros Hn. apply parseInt_numberToString. unfold safeInteger in Hn. lia.
Qed.

(** Past the safe integers: [2^53 + 1] is rounded to [2^53]; [2^60] prints
    with zeros for its last digits and still parses back; from [10^21] on a
    number prints in exponent form, of which [parseInt] reads the digits
    before the point or the exponent. *)
Example numbers_past_safe_integers :
  roundToDouble (2 ^ 53 + 1) = (2 ^ 53)%Z
  ∧ numberToString (2 ^ 60) = js "1152921504606847000"
  ∧ parseIntValue (BNumber (2 ^ 60)) = Some (2 ^ 60)%Z
  ∧ numberToString (10 ^ 21) = js "1e+21"
  ∧ numberToString (- 15 * 10 ^ 21) = js "-1.5e+22"
  ∧ parseIntValue (BNumber (10 ^ 21)) = Some 1%Z.
Proof. by vm_compute. Qed.


(** ** Updating a record *)

Lemma vocabulary_handler_put `{Unicode} `{Engine} file req :
  method req = js "PUT" →
  VocabularyRoute.handler file req
  = guarded file (VocabularyRoute.handlePut file req)
      (respond 500 (JError (js "Failed to update vocabulary"))).
Proof. intros Hm. unfold VocabularyRoute.handler. by rewrite Hm. Qed.

(** The duplicate check of [PUT] on a string: it finds the first record with
    another id whose word is the supplied one up to case. *)
Lemma find_other_duplicate `{Unicode} (w : jsstring) (n : Z)
    (vocabulary : list Vocabulary.t) :
  ∃ found,
    findWith (λ v,
      andThen (asString (Some (BString w))) (λ w',
        Returned
          (str_eqb (toLowerCase (Vocabulary.word v)) (toLowerCase w')
           && negb (bool_decide (Vocabulary.id v = n)))))
      vocabulary = Returned found
    ∧ match found with
      | Some v => v ∈ vocabulary ∧ Vocabulary.id v ≠ n
                  ∧ Spec.sameWord (Vocabulary.word v) w
      | None => ∀ v, v ∈ vocabulary → Vocabulary.id v ≠ n →
                     ¬ Spec.sameWord (Vocabulary.word v) w
      end.
Proof.
  induction vocabulary as [|v vocabulary (found & Hfind & Hfound)]; simpl.
  - exists None. split; [done|]. intros v Hv. by apply not_elem_of_nil in Hv.
  - destruct (str_eqb _ _) eqn:Heq;
      [apply str_eqb_true in Heq|apply str_eqb_false in Heq];
      (case_bool_decide as Hid); simpl.
    + exists found. split; [done|]. destruct found as [u|].
      * destruct Hfound as (? & ? & ?).
        split; [by apply list_elem_of_further|done].
      * intros u [->|Hu]%elem_of_cons ?; [done|by apply Hfound].
    + exists (Some v). split; [done|]. split; [apply list_elem_of_here|done].
    + exists found. split; [done|]. destruct found as [u|].
      * destruct Hfound as (? & ? & ?).
        split; [by apply list_elem_of_further|done].
      * intros u [->|Hu]%elem_of_cons ?; [done|by apply Hfound].
    + exists found. split; [done|]. destruct found as [u|].
      * destruct Hfound as (? & ? & ?).
        split; [by apply list_elem_of_further|done].
      * intros u [->|Hu]%elem_of_cons ?; [done|by apply Hfound].
Qed.

(** X11.  [PUT /vocabulary] with an id that is a safe integer and that a
    record has, and a non-empty word and meaning, the word not being the word
    of a record with another id, is answered 200.  The first record with that
    id is replaced, in its
    place, by a record with the same id and the trimmed word and meaning;
    every other record and the length of the collection are unchanged.  The
    record may keep its own word, in whatever case. *)
Theorem put_updates_in_place `{Unicode} `{Engine} (file : StoreFile) (req : Request)
    (n : Z) (w m : jsstring) :
  method req = js "PUT" →
  body req !! "id" = Some (BNumber n) →
  body req !! "word" = Some (BString w) →
  body req !! "meaning" = Some (BString m) →
  n ≠ 0%Z → safeInteger n → w ≠ [] → m ≠ [] →
  let vocabulary := readVocabulary file in
  (∃ v, v ∈ vocabulary ∧ Vocabulary.id v = n) →
  (∀ v, v ∈ vocabulary → Vocabulary.id v ≠ n →
        ¬ Spec.sameWord (Vocabulary.word v) w) →
  ∃ index old updated written,
    VocabularyRoute.handler file req
    = (respond 200 (JRecord updated), Holds written)
    ∧ vocabulary !! index = Some old
    ∧ Vocabulary.id old = n
    ∧ (∀ j v, j < index → vocabulary !! j = Some v → Vocabulary.id v ≠ n)
    ∧ written = <[index := updated]> vocabulary
    ∧ Vocabulary.id updated = n
    ∧ Vocabulary.word updated = trim w
    ∧ Vocabulary.meaning updated = trim m
    ∧ length written = length vocabulary
    ∧ ∀ j, j ≠ index → written !! j = vocabulary !! j.
Proof.
  intros Hm Hid Hw Hmeaning Hn Hsafe Hwne Hmne vocabulary (u & Hu & Huid) Hfree.
  rewrite vocabulary_handler_put by done.
  unfold VocabularyRoute.handlePut. rewrite Hid, Hw, Hmeaning.
  change (Some (BNumber n) ≫= parseIntValue) with (parseIntValue (BNumber n)).
  rewrite parseIntValue_number by done.
  fold vocabulary. unfold falsy.
  apply truthy_true in Hwne, Hmne. rewrite Hwne, Hmne.
  apply Z.eqb_neq in Hn. rewrite Hn. simpl.
  destruct (list_find (λ v, Vocabulary.id v = n) vocabulary)
    as [[index old]|] eqn:Hfind.
  2: { apply list_find_None in Hfind. rewrite Forall_forall in Hfind.
       by destruct (Hfind u Hu). }
  apply list_find_Some in Hfind as (Hold & Holdid & Hfirst).
  destruct (find_other_duplicate w n vocabulary) as (found & Hdup & Hfound).
  simpl in Hdup. rewrite Hdup. simpl. destruct found as [v|].
  { destruct Hfound as (Hv & Hvid & Hsame). by destruct (Hfree v Hv Hvid). }
  simpl. eexists index, old, _, _. split; [reflexivity|].
  repeat split; try done.
  - intros j v Hj Hv. by eapply Hfirst.
  - by rewrite length_insert.
  - intros j Hj. by rewrite list_lookup_insert_ne.
Qed.

Lemma put_updates_in_place_witness :
  let req :=
    Sample.request (js "PUT") []
      [("id", BNumber 2); ("word", BString (js " inu "));
       ("meaning", BString (js "con chó"))] in
  ∃ index old updated written,
    VocabularyRoute.handler (Holds Sample.store) req
    = (respond 200 (JRecord updated), Holds written)
    ∧ Sample.store !! index = Some old
    ∧ Vocabulary.id old = 2%Z
    ∧ (∀ j v, j < index → Sample.store !! j = Some v → Vocabulary.id v ≠ 2%Z)
    ∧ written = <[index := updated]> Sample.store
    ∧ Vocabulary.id updated = 2%Z
    ∧ Vocabulary.word updated = trim (js " inu ")
    ∧ Vocabulary.meaning updated = trim (js "con chó")
    ∧ length written = length Sample.store
    ∧ ∀ j, j ≠ index → written !! j = Sample.store !! j.
Proof.
  apply (put_updates_in_place (Holds Sample.store)
           (Sample.request (js "PUT") []
              [("id", BNumber 2); ("word", BString (js " inu "));
               ("meaning", BString (js "con chó"))])
           2 (js " inu ") (js "con chó"));
    [reflexivity|reflexivity|reflexivity|reflexivity|done
    |unfold safeInteger; lia|done|done| |].
  - eexists. split; [apply list_elem_of_further, list_elem_of_here|reflexivity].
  - intros v Hv Hid. unfold readVocabulary, Sample.store in Hv. simpl in Hv.
    repeat (apply elem_of_cons in Hv as [->|Hv];
            [first [by destruct Hid|vm_compute; discriminate]|]).
    by apply not_elem_of_nil in Hv.
Defined.

(** X12.  [PUT /vocabulary] with an id that is a safe integer leaves the file
    as it was when it turns the request down: with 404 when no record has the
    id, and with 400 when a record with another id already has the word, up
    to case. *)
Theorem put_rejections `{Unicode} `{Engine} (file : StoreFile) (req : Request)
    (n : Z) (w : jsstring) :
  method req = js "PUT" →
  body req !! "id" = Some (BNumber n) →
  body req !! "word" = Some (BString w) →
  falsy (body req !! "meaning") = false →
  n ≠ 0%Z → safeInteger n → w ≠ [] →
  let vocabulary := readVocabulary file in
  ((∀ v, v ∈ vocabulary → Vocabulary.id v ≠ n) →
   VocabularyRoute.handler file req
   = (respond 404 (JError (js "Vocabulary not found")), file))
  ∧ ((∃ v, v ∈ vocabulary ∧ Vocabulary.id v = n) →
     (∃ u, u ∈ vocabulary ∧ Vocabulary.id u ≠ n
           ∧ Spec.sameWord (Vocabulary.word u) w) →
     VocabularyRoute.handler file req
     = (respond 400 (JError (js "Word already exists")), file)).
Proof.
  intros Hm Hid Hw Hmeaning Hn Hsafe Hwne vocabulary.
  rewrite vocabulary_handler_put by done.
  unfold VocabularyRoute.handlePut. rewrite Hid, Hw, Hmeaning.
  change (Some (BNumber n) ≫= parseIntValue) with (parseIntValue (BNumber n)).
  rewrite parseIntValue_number by done.
  fold vocabulary. unfold falsy.
  apply truthy_true in Hwne. rewrite Hwne.
  apply Z.eqb_neq in Hn. rewrite Hn. simpl.
  destruct (list_find (λ v, Vocabulary.id v = n) vocabulary)
    as [[index old]|] eqn:Hfind.
  - apply list_find_Some in Hfind as (Hold & Holdid & _). split.
    + intros Hnone. destruct (Hnone old); [|done].
      by eapply list_elem_of_lookup_2.
    + intros _ (u & Hu & Huid & Hsame).
      destruct (find_other_duplicate w n vocabulary) as (found & Hdup & Hfound).
      simpl in Hdup. rewrite Hdup. simpl. destruct found as [v|]; [done|].
      by destruct (Hfound u Hu Huid).
  - apply list_find_None in Hfind. rewrite Forall_forall in Hfind.
    split; [done|]. intros (v & Hv & Hvid) _. by destruct (Hfind v Hv).
Qed.

Lemma put_rejections_witness :
  VocabularyRoute.handler (Holds Sample.store)
    (Sample.request (js "PUT") []
       [("id", BNumber 9); ("word", BString (js "inu"));
        ("meaning", BString (js "dog"))])
  = (respond 404 (JError (js "Vocabulary not found")), Holds Sample.store)
  ∧ VocabularyRoute.handler (Holds Sample.store)
      (Sample.request (js "PUT") []
         [("id", BNumber 2); ("word", BString (js "みず"));
          ("meaning", BString (js "dog"))])
    = (respond 400 (JError (js "Word already exists")), Holds Sample.store).
Proof.
  split.
  - apply (put_rejections (Holds Sample.store)
             (Sample.request (js "PUT") []
                [("id", BNumber 9); ("word", BString (js "inu"));
                 ("meaning", BString (js "dog"))]) 9 (js "inu"));
      [reflexivity|reflexivity|reflexivity|reflexivity|done
      |unfold safeInteger; lia|done|].
    intros v Hv. unfold readVocabulary, Sample.store in Hv.
    repeat (apply elem_of_cons in Hv as [->|Hv]; [done|]).
    by apply not_elem_of_nil in Hv.
  - apply (put_rejections (Holds Sample.store)
             (Sample.request (js "PUT") []
                [("id", BNumber 2); ("word", BString (js "みず"));
                 ("meaning", BString (js "dog"))]) 2 (js "みず"));
      [reflexivity|reflexivity|reflexivity|reflexivity|done
      |unfold safeInteger; lia|done| |].
    + eexists. split; [apply list_elem_of_further, list_elem_of_here|reflexivity].
    + eexists. split; [do 2 apply list_elem_of_further; apply list_elem_of_here|].
      split; [done|]. vm_compute. reflexivity.
Defined.

(** ** Ids past the safe integers, and large collections

    Outside the bounds of the statements above the route behaves otherwise;
    the examples follow the code on three such inputs. *)

(** When the greatest id is [2^53], the next id is [2^53] again. *)
Example next_id_past_safe_integers :
  VocabularyRoute.getNextId
    [Sample.entry (2 ^ 53) (js "ねこ") (js "cat") (js "neko") (js "animals")]
  = Returned (2 ^ 53)%Z.
Proof. by vm_compute. Qed.

(** An id of [10^21] in the body of a [PUT] is read as 1, and the record with
    the id 1 is replaced. *)
Example put_reads_the_first_digit :
  ∃ updated,
    VocabularyRoute.handler (Holds Sample.store)
      (Sample.request (js "PUT") []
         [("id", BNumber (10 ^ 21)); ("word", BString (js "とり"));
          ("meaning", BString (js "bird"))])
    = (respond 200 (JRecord updated), Holds (<[0 := updated]> Sample.store))
    ∧ Vocabulary.id updated = 1%Z.
Proof. eexists. split; [by vm_compute|reflexivity]. Qed.

(** On an engine whose calls take three arguments, a [POST] to a collection
    of four records fails, and the file is left as it was. *)
Example post_fails_on_a_large_collection :
  VocabularyRoute.handler (H0 := {| maxArguments := 3 |}) (Holds Sample.store)
    (Sample.request (js "POST") []
       [("word", BString (js "そら")); ("meaning", BString (js "sky"))])
  = (respond 500 (JError (js "Failed to add vocabulary")), Holds Sample.store).
Proof. reflexivity. Qed.

(** ** What a request does to the file *)

(** A request to the vocabulary route leaves the file as it is, or appends
    one record with the next id, or replaces one record by a record with the
    same id, or removes the records with one id. *)
Lemma vocabulary_handler_effect `{Unicode} `{Engine} file req :
  let r := VocabularyRoute.handler file req in
  let vocabulary := readVocabulary file in
  r.2 = file
  ∨ (method req = js "POST" ∧ status r.1 = 201%Z
     ∧ ∃ created,
         VocabularyRoute.getNextId vocabulary
         = Returned (Vocabulary.id created)
         ∧ r.2 = Holds (vocabulary ++ [created]))
  ∨ (method req = js "PUT" ∧ status r.1 = 200%Z
     ∧ ∃ index old updated,
         vocabulary !! index = Some old
         ∧ Vocabulary.id updated = Vocabulary.id old
         ∧ r.2 = Holds (<[index := updated]> vocabulary))
  ∨ (method req = js "DELETE" ∧ status r.1 = 200%Z
     ∧ ∃ id,
         r.2 = Holds (filter (λ v, Some (Vocabulary.id v) ≠ parseInt id)
                        vocabulary)).
Proof.
  unfold VocabularyRoute.handler.
  destruct (str_eqb (method req) (js "GET")) eqn:Hget.
  { left. unfold VocabularyRoute.handleGet. by repeat case_match. }
  destruct (str_eqb (method req) (js "POST")) eqn:Hpost.
  { apply str_eqb_true in Hpost. unfold VocabularyRoute.handlePost, andThen.
    repeat case_match; simplify_eq/=; auto.
    right; left. split; [done|]. split; [done|].
    eexists. split; [|reflexivity]. done. }
  destruct (str_eqb (method req) (js "PUT")) eqn:Hput.
  { apply str_eqb_true in Hput. unfold VocabularyRoute.handlePut, andThen.
    repeat case_match; simplify_eq/=; auto.
    right; right; left.
    match goal with
    | Hfind : list_find _ _ = Some _ |- _ =>
      apply list_find_Some in Hfind as (Hold & Hid & _)
    end.
    split; [done|]. split; [done|]. eexists _, _, _.
    split; [exact Hold|]. split; [|reflexivity]. done. }
  destruct (str_eqb (method req) (js "DELETE")) eqn:Hdelete.
  { apply str_eqb_true in Hdelete. unfold VocabularyRoute.handleDelete.
    repeat case_match; simplify_eq/=; auto.
    right; right; right. split; [done|]. split; [done|].
    eexists. reflexivity. }
  by left.
Qed.

(** A request to the topics route leaves the file as it is, or gives the
    records of one topic another topic, or removes the records of one
    topic. *)
Lemma topics_handler_effect file req :
  let r := TopicsRoute.handler file req in
  let vocabulary := readVocabulary file in
  r.2 = file
  ∨ (method req = js "PUT" ∧ status r.1 = 200%Z
     ∧ ∃ f : Vocabulary.t → Vocabulary.t,
         (∀ v, Vocabulary.id (f v) = Vocabulary.id v)
         ∧ r.2 = Holds (f <$> vocabulary))
  ∨ (method req = js "DELETE" ∧ status r.1 = 200%Z
     ∧ ∃ topicName,
         r.2 = Holds (filter (λ v, Vocabulary.topic v ≠ Some topicName)
                        vocabulary)).
Proof.
  unfold TopicsRoute.handler.
  destruct (str_eqb (method req) (js "GET")) eqn:Hget; [by left|].
  destruct (str_eqb (method req) (js "POST")) eqn:Hpost.
  { left. unfold TopicsRoute.handlePost. by repeat case_match. }
  destruct (str_eqb (method req) (js "PUT")) eqn:Hput.
  { apply str_eqb_true in Hput. unfold TopicsRoute.handlePut.
    repeat case_match; simplify_eq/=; auto.
    right; left. split; [done|]. split; [done|].
    eexists. split. 2: reflexivity. intros v. simpl. by case_bool_decide. }
  destruct (str_eqb (method req) (js "DELETE")) eqn:Hdelete.
  { apply str_eqb_true in Hdelete. unfold TopicsRoute.handleDelete.
    repeat case_match; simplify_eq/=; auto.
    right; right. split; [done|]. split; [done|]. eexists. reflexivity. }
  by left.
Qed.

Lemma uniqueIds_filter (P : Vocabulary.t → Prop) `{∀ v, Decision (P v)}
    (vocabulary : list Vocabulary.t) :
  uniqueIds vocabulary → uniqueIds (filter P vocabulary).
Proof.
  unfold uniqueIds. intros Hnodup.
  eapply sublist_NoDup; [exact Hnodup|apply fmap_sublist, sublist_filter].
Qed.

(** X13.  When the ids of the collection are safe integers and pairwise
    distinct, they are still pairwise distinct after any request to the
    vocabulary route or to the topics route. *)
Theorem ids_stay_unique `{Unicode} `{Engine} (file : StoreFile) (req : Request) :
  safeIds (readVocabulary file) →
  uniqueIds (readVocabulary file) →
  uniqueIds (readVocabulary (VocabularyRoute.handler file req).2)
  ∧ uniqueIds (readVocabulary (TopicsRoute.handler file req).2).
Proof.
  intros Hsafe Hunique. split.
  - destruct (vocabulary_handler_effect file req)
      as [->|[(_ & _ & created & Hid & ->)
         |[(_ & _ & index & old & updated & Hold & Hid & ->)
          |(_ & _ & id & ->)]]]; cbn [readVocabulary readFileSync_parse].
    + done.
    + unfold uniqueIds. rewrite fmap_app. apply NoDup_app.
      split; [done|]. split; [|apply NoDup_singleton].
      intros n Hn Hnew. apply list_elem_of_fmap in Hn as (v & -> & Hv).
      apply list_elem_of_singleton in Hnew. simpl in Hnew.
      pose proof (proj1 (proj2 (getNextId_returned _ _ Hid Hsafe)) v Hv).
      lia.
    + unfold uniqueIds. rewrite list_fmap_insert, Hid, list_insert_id; [done|].
      by rewrite list_lookup_fmap, Hold.
    + by apply uniqueIds_filter.
  - destruct (topics_handler_effect file req)
      as [->|[(_ & _ & f & Hf & ->)|(_ & _ & topicName & ->)]];
      cbn [readVocabulary readFileSync_parse].
    + done.
    + unfold uniqueIds. rewrite <- list_fmap_compose.
      assert (Vocabulary.id ∘ f <$> readVocabulary file
              = Vocabulary.id <$> readVocabulary file) as ->; [|done].
      apply list_fmap_ext. intros i v _. apply Hf.
    + by apply uniqueIds_filter.
Qed.

Lemma ids_stay_unique_witness :
  let req :=
    Sample.request (js "POST") []
      [("word", BString (js "そら")); ("meaning", BString (js "sky"))] in
  uniqueIds (readVocabulary (VocabularyRoute.handler (Holds Sample.store) req).2)
  ∧ uniqueIds (readVocabulary (TopicsRoute.handler (Holds Sample.store) req).2).
Proof.
  apply (ids_stay_unique (Holds Sample.store)).
  - intros v Hv. unfold readVocabulary, Sample.store in Hv. simpl in Hv.
    repeat (apply elem_of_cons in Hv as [->|Hv]; [by vm_compute|]).
    by apply not_elem_of_nil in Hv.
  - apply (bool_decide_unpack _). exact I.
Defined.



(** ** Deleting a word from the page *)

Lemma vocabulary_handler_delete `{Unicode} `{Engine} file req :
  method req = js "DELETE" →
  VocabularyRoute.handler file req
  = guarded file (VocabularyRoute.handleDelete file req)
      (respond 500 (JError (js "Failed to delete vocabulary"))).
Proof. intros Hm. unfold VocabularyRoute.handler. by rewrite Hm. Qed.

(** What the page's delete request for an id up to [2^53] does. *)
Lemma page_delete `{Unicode} `{Engine} (file : StoreFile) (n : Z) :
  (Z.abs n ≤ 2 ^ 53)%Z →
  let vocabulary := readVocabulary file in
  let kept := filter (λ v, Vocabulary.id v ≠ n) vocabulary in
  ((∃ v, v ∈ vocabulary ∧ Vocabulary.id v = n) →
   VocabularyRoute.handler file (Page.deleteRequest n)
   = (respond 200 (JMessage (js "Vocabulary deleted successfully")),
      Holds kept))
  ∧ ((∀ v, v ∈ vocabulary → Vocabulary.id v ≠ n) →
     VocabularyRoute.handler file (Page.deleteRequest n)
     = (respond 404 (JError (js "Vocabulary not found")), file)).
Proof.
  intros Hn vocabulary kept. rewrite vocabulary_handler_delete by done.
  unfold VocabularyRoute.handleDelete, Page.deleteRequest. cbn [query].
  rewrite lookup_singleton_eq.
  pose proof (numberToString_not_empty n Hn) as Hne. apply truthy_true in Hne.
  rewrite Hne, parseInt_numberToString by done. fold vocabulary.
  assert (filter (λ v, Some (Vocabulary.id v) ≠ Some n) vocabulary = kept)
    as ->.
  { apply list_filter_iff. intros v. split; intros Hv; congruence. }
  pose proof (length_filter_all (λ v, Vocabulary.id v ≠ n) vocabulary) as Hall.
  fold kept in Hall.
  destruct (Nat.eqb_spec (length kept) (length vocabulary)) as [Heq|Hneq].
  - split; [|done]. intros (v & Hv & Hid). by destruct (proj1 Hall Heq v Hv).
  - split; [done|]. intros Hnone. destruct Hneq. by apply Hall.
Qed.

Lemma length_filter_unique_id (n : Z) (vocabulary : list Vocabulary.t) :
  uniqueIds vocabulary →
  (∃ v, v ∈ vocabulary ∧ Vocabulary.id v = n) →
  S (length (filter (λ v, Vocabulary.id v ≠ n) vocabulary)) = length vocabulary.
Proof.
  unfold uniqueIds. induction vocabulary as [|u vocabulary IH].
  - intros _ (v & Hv & _). by apply not_elem_of_nil in Hv.
  - rewrite fmap_cons, NoDup_cons, filter_cons.
    intros [Hfresh Hnodup] (v & Hv & Hid).
    destruct (decide (Vocabulary.id u ≠ n)) as [Hu|Hu]; simpl.
    + f_equal. apply IH; [done|]. exists v. split; [|done].
      apply elem_of_cons in Hv as [->|Hv]; done.
    + f_equal. apply length_filter_all. intros x Hx Hxid.
      apply Hfresh, list_elem_of_fmap. exists x.
      split; [|done]. apply dec_stable in Hu. congruence.
Qed.

(** X15.  Deleting a word from the vocabulary page asks for [DELETE] with the
    record's id printed by [String].  When the id is a safe integer the route
    parses the same id back, answers 200 and writes the collection without
    the records of that id.  When the ids are unique this is exactly one
    record less, and the same request sent again is answered 404 and changes
    nothing. *)
Theorem page_delete_removes_record `{Unicode} `{Engine} (file : StoreFile)
    (v : Vocabulary.t) :
  let vocabulary := readVocabulary file in
  let kept := filter (λ u, Vocabulary.id u ≠ Vocabulary.id v) vocabulary in
  let req := Page.deleteRequest (Vocabulary.id v) in
  v ∈ vocabulary →
  safeInteger (Vocabulary.id v) →
  VocabularyRoute.handler file req
  = (respond 200 (JMessage (js "Vocabulary deleted successfully")), Holds kept)
  ∧ (v ∉ kept)
  ∧ (∀ u, u ∈ vocabulary → Vocabulary.id u ≠ Vocabulary.id v → u ∈ kept)
  ∧ kept `sublist_of` vocabulary
  ∧ (uniqueIds vocabulary → S (length kept) = length vocabulary)
  ∧ VocabularyRoute.handler (Holds kept) req
    = (respond 404 (JError (js "Vocabulary not found")), Holds kept).
Proof.
  intros vocabulary kept req Hv Hsafe.
  assert (Z.abs (Vocabulary.id v) ≤ 2 ^ 53)%Z as Hbound
    by (unfold safeInteger in Hsafe; lia).
  split; [apply page_delete; eauto|].
  split; [intros [Hid _]%list_elem_of_filter; done|].
  split; [intros u Hu Hid; by apply list_elem_of_filter|].
  split; [apply sublist_filter|].
  split; [intros Hunique; apply length_filter_unique_id; eauto|].
  apply (page_delete (Holds kept)); [done|].
  intros u [Hid _]%list_elem_of_filter. done.
Qed.

Lemma page_delete_removes_record_witness :
  let v := Sample.entry 2 (js "いぬ") (js "dog") (js "inu") (js "animals") in
  let kept := filter (λ u, Vocabulary.id u ≠ Vocabulary.id v) Sample.store in
  let req := Page.deleteRequest (Vocabulary.id v) in
  VocabularyRoute.handler (Holds Sample.store) req
  = (respond 200 (JMessage (js "Vocabulary deleted successfully")), Holds kept)
  ∧ (v ∉ kept)
  ∧ (∀ u, u ∈ Sample.store → Vocabulary.id u ≠ Vocabulary.id v → u ∈ kept)
  ∧ kept `sublist_of` Sample.store
  ∧ (uniqueIds Sample.store → S (length kept) = length Sample.store)
  ∧ VocabularyRoute.handler (Holds kept) req
    = (respond 404 (JError (js "Vocabulary not found")), Holds kept).
Proof.
  apply (page_delete_removes_record (Holds Sample.store)
           (Sample.entry 2 (js "いぬ") (js "dog") (js "inu") (js "animals"))).
  - apply list_elem_of_further, list_elem_of_here.
  - by vm_compute.
Defined.

Lemma filter_all {A} (P : A → Prop) `{∀ x, Decision (P x)} (l : list A) :
  (∀ x, x ∈ l → P x) → filter P l = l.
Proof.
  induction l as [|y l IH]; [done|]. intros Hall.
  rewrite filter_cons, decide_True by apply Hall, list_elem_of_here.
  f_equal. apply IH. intros x Hx. by apply Hall, list_elem_of_further.
Qed.

(** A [POST] answered 201 has appended the record it answers with, under
    the next id. *)
Lemma post_created `{Unicode} `{Engine} file req created :
  method req = js "POST" →
  (VocabularyRoute.handler file req).1 = respond 201 (JRecord created) →
  (VocabularyRoute.handler file req).2
  = Holds (readVocabulary file ++ [created])
  ∧ VocabularyRoute.getNextId (readVocabulary file)
    = Returned (Vocabulary.id created).
Proof.
  intros Hm. rewrite vocabulary_handler_post by done.
  unfold VocabularyRoute.handlePost, andThen.
  repeat case_match; simplify_eq/=; try done.
  intros [= <-]. done.
Qed.

(** X16.  Adding a word and then deleting it from the page gives the
    collection back, when the ids of the collection are safe integers: after
    a [POST] answered 201, the page's delete request for the id of the
    created record is answered 200 and writes the collection as it was before
    the [POST]. *)
Theorem post_then_delete_restores `{Unicode} `{Engine} (file : StoreFile) (req : Request)
    (created : Vocabulary.t) :
  method req = js "POST" →
  safeIds (readVocabulary file) →
  (VocabularyRoute.handler file req).1 = respond 201 (JRecord created) →
  VocabularyRoute.handler (VocabularyRoute.handler file req).2
    (Page.deleteRequest (Vocabulary.id created))
  = (respond 200 (JMessage (js "Vocabulary deleted successfully")),
     Holds (readVocabulary file)).
Proof.
  intros Hm Hsafe Hcreated.
  destruct (post_created file req created Hm Hcreated) as [-> Hid].
  destruct (getNextId_returned _ _ Hid Hsafe) as (Hone & Hgreater & Hmax).
  assert (Z.abs (Vocabulary.id created) ≤ 2 ^ 53)%Z as Hbound.
  { destruct (readVocabulary file) as [|u vocabulary] eqn:Hread.
    - by rewrite Hone.
    - destruct Hmax as (v & Hv & ->); [done|].
      specialize (Hsafe v Hv). unfold safeInteger in Hsafe. lia. }
  destruct (page_delete (Holds (readVocabulary file ++ [created]))
              (Vocabulary.id created) Hbound) as [Hdelete _].
  rewrite Hdelete.
  - cbn [readVocabulary readFileSync_parse]. do 2 f_equal.
    rewrite filter_app, filter_cons, decide_False
      by (intros Hne; by apply Hne).
    rewrite app_nil_r.
    apply filter_all. intros u Hu. specialize (Hgreater u Hu). lia.
  - exists created. split; [|done]. apply elem_of_app. right.
    apply list_elem_of_here.
Qed.

Lemma post_then_delete_restores_witness :
  let req :=
    Sample.request (js "POST") []
      [("word", BString (js "そら")); ("meaning", BString (js "sky"))] in
  ∃ created,
    (VocabularyRoute.handler (Holds Sample.store) req).1
    = respond 201 (JRecord created)
    ∧ VocabularyRoute.handler (VocabularyRoute.handler (Holds Sample.store) req).2
        (Page.deleteRequest (Vocabulary.id created))
      = (respond 200 (JMessage (js "Vocabulary deleted successfully")),
         Holds Sample.store).
Proof.
  eexists. split; [reflexivity|].
  apply (post_then_delete_restores (Holds Sample.store)
           (Sample.request (js "POST") []
              [("word", BString (js "そら")); ("meaning", BString (js "sky"))]));
    [reflexivity| |reflexivity].
  intros v Hv. unfold readVocabulary, Sample.store in Hv. simpl in Hv.
  repeat (apply elem_of_cons in Hv as [->|Hv]; [by vm_compute|]).
  by apply not_elem_of_nil in Hv.
Defined.

(** ** Deleting a topic *)

Lemma topics_handler_delete file req :
  method req = js "DELETE" →
  TopicsRoute.handler file req
  = guarded file (TopicsRoute.handleDelete file req)
      (respond 500 (JError (js "Failed to delete topic"))).
Proof. intros Hm. unfold TopicsRoute.handler. by rewrite Hm. Qed.

Lemma length_filter_split {A} (P : A → Prop) `{∀ x, Decision (P x)}
    (l : list A) :
  length (filter P l) + length (filter (λ x, ¬ P x) l) = length l.
Proof. by rewrite <- length_app, filter_app_complement. Qed.

(** What [DELETE /topics] does with a name that is not blank. *)
Lemma topic_delete_result (file : StoreFile) (req : Request) (name : jsstring) :
  method req = js "DELETE" →
  body req !! "name" = Some (BString name) →
  let vocabulary := readVocabulary file in
  let topicName := trim name in
  let topicWords :=
    filter (λ v, Vocabulary.topic v = Some topicName) vocabulary in
  topicName ≠ [] →
  ((∃ v, v ∈ vocabulary ∧ Vocabulary.topic v = Some topicName) →
   1 ≤ length topicWords
   ∧ TopicsRoute.handler file req
     = (respond 200
          (JDeleted
             (js "Topic " ++ TopicsRoute.quoted topicName ++ js " and "
              ++ literal (pretty (length topicWords))
              ++ js " words deleted successfully")
             (length topicWords)),
        Holds (filter (λ v, Vocabulary.topic v ≠ Some topicName) vocabulary)))
  ∧ ((∀ v, v ∈ vocabulary → Vocabulary.topic v ≠ Some topicName) →
     TopicsRoute.handler file req
     = (respond 404 (JError (js "Topic not found")), file)).
Proof.
  intros Hm Hname vocabulary topicName topicWords Hne.
  assert (name ≠ []) as Hnamene by (by intros ->).
  rewrite topics_handler_delete by done.
  unfold TopicsRoute.handleDelete. rewrite Hname.
  apply truthy_true in Hnamene. rewrite Hnamene.
  apply str_eqb_false in Hne. fold topicName. rewrite Hne.
  cbn [negb orb]. cbv zeta. fold vocabulary. fold topicWords.
  destruct (Nat.eqb_spec (length topicWords) 0) as [Hzero|Hsome].
  - split; [|done]. intros (u & Hu & Hutopic).
    assert (u ∈ topicWords) as Hin by (by apply list_elem_of_filter).
    apply length_zero_iff_nil in Hzero. rewrite Hzero in Hin.
    by apply not_elem_of_nil in Hin.
  - split; [intros _; split; [lia|done]|]. intros Hnone. destruct Hsome.
    apply length_zero_iff_nil, filter_none. intros v Hv. by apply Hnone.
Qed.

(** X17.  [DELETE /topics] with a name that, trimmed, is not empty and is the
    topic of some record is answered 200: the collection is written back
    without the records of that topic, the others staying in their order, and
    the answer counts the records removed.  The same request sent again is
    answered 404 and changes nothing. *)
Theorem delete_topic (file : StoreFile) (req : Request) (name : jsstring) :
  method req = js "DELETE" →
  body req !! "name" = Some (BString name) →
  let vocabulary := readVocabulary file in
  let topicName := trim name in
  topicName ≠ [] →
  (∃ v, v ∈ vocabulary ∧ Vocabulary.topic v = Some topicName) →
  ∃ message deletedCount kept,
    TopicsRoute.handler file req
    = (respond 200 (JDeleted message deletedCount), Holds kept)
    ∧ (∀ v, v ∈ kept ↔ v ∈ vocabulary ∧ Vocabulary.topic v ≠ Some topicName)
    ∧ kept `sublist_of` vocabulary
    ∧ deletedCount + length kept = length vocabulary
    ∧ 1 ≤ deletedCount
    ∧ TopicsRoute.handler (Holds kept) req
      = (respond 404 (JError (js "Topic not found")), Holds kept).
Proof.
  intros Hm Hname vocabulary topicName Hne Hsome.
  destruct (topic_delete_result file req name Hm Hname Hne) as [Hdelete _].
  destruct (Hdelete Hsome) as [Hcount ->].
  eexists _, _, _. split; [reflexivity|].
  split; [intros v; rewrite list_elem_of_filter; fold vocabulary; tauto|].
  split; [apply sublist_filter|].
  split; [apply length_filter_split|]. split; [done|].
  apply (topic_delete_result _ req name Hm Hname Hne).
  intros v [Hv _]%list_elem_of_filter. done.
Qed.

Lemma delete_topic_witness :
  ∃ message deletedCount kept,
    TopicsRoute.handler (Holds Sample.store)
      (Sample.request (js "DELETE") [] [("name", BString (js " nature "))])
    = (respond 200 (JDeleted message deletedCount), Holds kept)
    ∧ (∀ v, v ∈ kept
            ↔ v ∈ Sample.store ∧ Vocabulary.topic v ≠ Some (js "nature"))
    ∧ kept `sublist_of` Sample.store
    ∧ deletedCount + length kept = length Sample.store
    ∧ 1 ≤ deletedCount
    ∧ TopicsRoute.handler (Holds kept)
        (Sample.request (js "DELETE") [] [("name", BString (js " nature "))])
      = (respond 404 (JError (js "Topic not found")), Holds kept).
Proof.
  apply (delete_topic (Holds Sample.store)
           (Sample.request (js "DELETE") [] [("name", BString (js " nature "))])
           (js " nature ")); [reflexivity|reflexivity|done|].
  eexists. split; [do 2 apply list_elem_of_further; apply list_elem_of_here|].
  reflexivity.
Defined.

(** ** Renaming a topic and renaming it back *)

(** What [PUT /topics] does with two names that are not empty. *)
Lemma rename_result (file : StoreFile) (req : Request)
    (oldName newName : jsstring) :
  method req = js "PUT" →
  body req !! "oldName" = Some (BString oldName) →
  body req !! "newName" = Some (BString newName) →
  oldName ≠ [] → newName ≠ [] →
  let vocabulary := readVocabulary file in
  let oldTopic := trim oldName in
  let newTopic := trim newName in
  (∃ v, v ∈ vocabulary ∧ Vocabulary.topic v = Some oldTopic) →
  (∀ v, v ∈ vocabulary → Vocabulary.topic v ≠ Some newTopic) →
  TopicsRoute.handler file req
  = (respond 200
       (JRenamed
          (js "Topic renamed from " ++ TopicsRoute.quoted oldTopic
           ++ js " to " ++ TopicsRoute.quoted newTopic)
          (length (filter (λ v, Vocabulary.topic v = Some oldTopic)
                     vocabulary))),
     Holds (withTopic oldTopic newTopic <$> vocabulary)).
Proof.
  intros Hm Hold Hnew Holdne Hnewne vocabulary oldTopic newTopic
    (u & Hu & Hutopic) Hfree.
  rewrite topics_handler_put by done.
  unfold TopicsRoute.handlePut. rewrite Hold, Hnew.
  apply truthy_true in Holdne, Hnewne. rewrite Holdne, Hnewne.
  cbn [negb orb]. cbv zeta. fold oldTopic newTopic vocabulary.
  destruct (str_eqb oldTopic newTopic) eqn:Heq.
  { apply str_eqb_true in Heq. destruct (Hfree u Hu). by rewrite <- Heq. }
  destruct (Nat.eqb_spec
              (length (filter (λ v, Vocabulary.topic v = Some oldTopic)
                         vocabulary)) 0) as [Hnone|_].
  { apply length_zero_iff_nil in Hnone.
    assert (u ∈ filter (λ v, Vocabulary.topic v = Some oldTopic) vocabulary)
      as Hin by (by apply list_elem_of_filter).
    rewrite Hnone in Hin. by apply not_elem_of_nil in Hin. }
  destruct (list_find _ vocabulary) as [[j w]|] eqn:Hfind.
  { apply list_find_Some in Hfind as (Hj & Hw & _).
    destruct (Hfree w); [by eapply list_elem_of_lookup_2|done]. }
  done.
Qed.

Lemma withTopic_topic (a b : jsstring) (v : Vocabulary.t) :
  Vocabulary.topic (withTopic a b v)
  = if bool_decide (Vocabulary.topic v = Some a) then Some b
    else Vocabulary.topic v.
Proof. unfold withTopic. by case_bool_decide. Qed.

Lemma withTopic_back (a b : jsstring) (v : Vocabulary.t) :
  Vocabulary.topic v ≠ Some b → withTopic b a (withTopic a b v) = v.
Proof.
  intros Hfree. unfold withTopic at 2.
  case_bool_decide as Hold; unfold withTopic; simpl.
  - rewrite bool_decide_true by done. simpl. destruct v; simpl in *.
    by rewrite Hold.
  - by rewrite bool_decide_false.
Qed.

Lemma withTopic_count (a b : jsstring) (vocabulary : list Vocabulary.t) :
  a ≠ b →
  (∀ v, v ∈ vocabulary → Vocabulary.topic v ≠ Some b) →
  length (filter (λ v, Vocabulary.topic v = Some b)
            (withTopic a b <$> vocabulary))
  = length (filter (λ v, Vocabulary.topic v = Some a) vocabulary).
Proof.
  intros Hab. induction vocabulary as [|v vocabulary IH]; [done|].
  intros Hfree. rewrite fmap_cons, !filter_cons, withTopic_topic.
  specialize (IH (λ u Hu, Hfree u (list_elem_of_further _ _ _ Hu))).
  pose proof (Hfree v (list_elem_of_here _ _)) as Hv.
  case_bool_decide as Hold.
  - rewrite !decide_True by done. simpl. by rewrite IH.
  - rewrite !decide_False by done. done.
Qed.

(** X18.  A rename can be undone: after [PUT /topics] has renamed a topic,
    the request with the two names exchanged is answered 200 as well, counts
    the same records, and writes the collection as it was before the first
    rename. *)
Theorem rename_back_restores (file : StoreFile) (req back : Request)
    (oldName newName : jsstring) :
  method req = js "PUT" →
  body req !! "oldName" = Some (BString oldName) →
  body req !! "newName" = Some (BString newName) →
  method back = js "PUT" →
  body back !! "oldName" = Some (BString newName) →
  body back !! "newName" = Some (BString oldName) →
  oldName ≠ [] → newName ≠ [] →
  let vocabulary := readVocabulary file in
  (∃ v, v ∈ vocabulary ∧ Vocabulary.topic v = Some (trim oldName)) →
  (∀ v, v ∈ vocabulary → Vocabulary.topic v ≠ Some (trim newName)) →
  ∃ message message' updatedCount renamed,
    TopicsRoute.handler file req
    = (respond 200 (JRenamed message updatedCount), Holds renamed)
    ∧ TopicsRoute.handler (Holds renamed) back
      = (respond 200 (JRenamed message' updatedCount), Holds vocabulary)
    ∧ 1 ≤ updatedCount.
Proof.
  intros Hm Hold Hnew Hm' Hold' Hnew' Holdne Hnewne vocabulary
    (u & Hu & Hutopic) Hfree.
  assert (trim oldName ≠ trim newName) as Hdiff.
  { intros Heq. destruct (Hfree u Hu). by rewrite <- Heq. }
  eexists _, _, _, _. split.
  { apply (rename_result file req oldName newName); eauto. }
  fold vocabulary. split.
  - rewrite (rename_result _ back newName oldName); try done;
      cbn [readVocabulary readFileSync_parse].
    + rewrite withTopic_count by done. do 2 f_equal.
      rewrite <- list_fmap_compose.
      rewrite <- (list_fmap_id vocabulary) at 2.
      apply list_fmap_ext. intros i v Hv. simpl.
      apply withTopic_back, Hfree. by eapply list_elem_of_lookup_2.
    + exists (withTopic (trim oldName) (trim newName) u).
      split; [apply list_elem_of_fmap; eauto|].
      by rewrite withTopic_topic, bool_decide_true.
    + intros v' (v & -> & Hv)%list_elem_of_fmap.
      rewrite withTopic_topic. case_bool_decide; [congruence|done].
  - assert (u ∈ filter (λ v, Vocabulary.topic v = Some (trim oldName))
                  vocabulary) as Hin by (by apply list_elem_of_filter).
    destruct (filter _ vocabulary); [by apply not_elem_of_nil in Hin|].
    simpl. lia.
Qed.

Lemma rename_back_restores_witness :
  ∃ message message' updatedCount renamed,
    TopicsRoute.handler (Holds Sample.store)
      (Sample.request (js "PUT") []
         [("oldName", BString (js "animals"));
          ("newName", BString (js " fauna"))])
    = (respond 200 (JRenamed message updatedCount), Holds renamed)
    ∧ TopicsRoute.handler (Holds renamed)
        (Sample.request (js "PUT") []
           [("oldName", BString (js " fauna"));
            ("newName", BString (js "animals"))])
      = (respond 200 (JRenamed message' updatedCount), Holds Sample.store)
    ∧ 1 ≤ updatedCount.
Proof.
  apply (rename_back_restores (Holds Sample.store)
           (Sample.request (js "PUT") []
              [("oldName", BString (js "animals"));
               ("newName", BString (js " fauna"))])
           (Sample.request (js "PUT") []
              [("oldName", BString (js " fauna"));
               ("newName", BString (js "animals"))])
           (js "animals") (js " fauna")); [reflexivity..|done|done| |].
  - eexists. split; [apply list_elem_of_here|reflexivity].
  - intros v Hv. unfold readVocabulary, Sample.store in Hv. simpl in Hv.
    repeat (apply elem_of_cons in Hv as [->|Hv]; [discriminate|]).
    by apply not_elem_of_nil in Hv.
Defined.

(** ** Listing the topics *)

Lemma distinct_spec {A} `{EqDecision A} (seen l : list A) :
  NoDup (TopicsRoute.distinct seen l)
  ∧ ∀ x, x ∈ TopicsRoute.distinct seen l ↔ x ∈ l ∧ x ∉ seen.
Proof.
  revert seen. induction l as [|y l IH]; intros seen; simpl.
  - split; [apply NoDup_nil_2|]. intros x. rewrite elem_of_nil. tauto.
  - case_bool_decide as Hseen.
    + destruct (IH seen) as [Hnodup Hmem]. split; [done|].
      intros x. rewrite Hmem, elem_of_cons. split; [tauto|].
      intros [[->|Hx] Hnot]; [done|tauto].
    + destruct (IH (y :: seen)) as [Hnodup Hmem]. split.
      * apply NoDup_cons. split; [|done]. rewrite Hmem, elem_of_cons. tauto.
      * intros x. rewrite !elem_of_cons, Hmem, elem_of_cons. split.
        -- intros [->|[Hx Hnot]]; [tauto|]. tauto.
        -- intros [[->|Hx] Hnot]; [tauto|].
           destruct (decide (x = y)) as [->|Hxy]; [tauto|]. tauto.
Qed.

Lemma insertSorted_perm x l : TopicsRoute.insertSorted x l ≡ₚ x :: l.
Proof.
  induction l as [|y l IH]; simpl; [done|].
  destruct (TopicsRoute.precedes x y); [done|].
  rewrite IH. apply Permutation_swap.
Qed.

Lemma sort_perm l : TopicsRoute.sort l ≡ₚ l.
Proof.
  unfold TopicsRoute.sort. induction l as [|x l IH]; simpl; [done|].
  by rewrite insertSorted_perm, IH.
Qed.

Lemma str_ltb_asym (a b : jsstring) :
  TopicsRoute.str_ltb a b = true → TopicsRoute.str_ltb b a = false.
Proof.
  revert b. induction a as [|x a IH]; intros [|y b]; simpl; try done.
  intros Hlt. apply orb_true_iff in Hlt as [Hlt|Hlt].
  - apply N.ltb_lt in Hlt. apply orb_false_iff. split.
    + apply N.ltb_ge. lia.
    + apply andb_false_iff. left. apply N.eqb_neq. lia.
  - apply andb_true_iff in Hlt as [Heq Hlt]. apply N.eqb_eq in Heq as ->.
    rewrite N.ltb_irrefl, N.eqb_refl. simpl. by apply IH.
Qed.

Lemma precedes_total (a b : option jsstring) :
  TopicsRoute.precedes a b = false → TopicsRoute.precedes b a = true.
Proof.
  destruct a as [x|], b as [y|]; simpl; try done.
  intros Hlt. apply negb_false_iff in Hlt. by rewrite (str_ltb_asym _ _ Hlt).
Qed.

Lemma insertSorted_sorted x l :
  Sorted (λ a b, TopicsRoute.precedes a b = true) l →
  Sorted (λ a b, TopicsRoute.precedes a b = true) (TopicsRoute.insertSorted x l).
Proof.
  induction l as [|y l IH]; simpl; intros Hsorted.
  - by repeat constructor.
  - destruct (TopicsRoute.precedes x y) eqn:Hxy.
    + constructor; [done|]. by constructor.
    + apply Sorted_inv in Hsorted as [Hl Hhd]. constructor; [by apply IH|].
      destruct l as [|z l]; simpl.
      * constructor. by apply precedes_total.
      * destruct (TopicsRoute.precedes x z).
        -- constructor. by apply precedes_total.
        -- constructor. by apply HdRel_inv in Hhd.
Qed.

Lemma sort_sorted l :
  Sorted (λ a b, TopicsRoute.precedes a b = true) (TopicsRoute.sort l).
Proof.
  unfold TopicsRoute.sort. induction l as [|x l IH]; simpl.
  - constructor.
  - by apply insertSorted_sorted.
Qed.

(** The counts of pairwise distinct topics add up to the number of records
    that have one of them. *)
Lemma counts_sum (vocabulary : list Vocabulary.t)
    (topics : list (option jsstring)) :
  NoDup topics →
  sum_list ((λ topic,
               length (filter (λ v, Vocabulary.topic v = topic) vocabulary))
              <$> topics)
  = length (filter (λ v, Vocabulary.topic v ∈ topics) vocabulary).
Proof.
  induction topics as [|t topics IH]; intros Hnodup.
  - simpl. symmetry. apply length_zero_iff_nil, filter_none.
    intros v _. apply not_elem_of_nil.
  - apply NoDup_cons in Hnodup as [Hfresh Hnodup].
    rewrite fmap_cons. simpl. rewrite IH by done. clear IH.
    induction vocabulary as [|v vocabulary IHv]; [done|].
    rewrite !filter_cons.
    destruct (decide (Vocabulary.topic v = t)) as [Ht|Ht].
    + rewrite (decide_True (P := Vocabulary.topic v ∈ t :: topics))
        by (rewrite Ht; apply list_elem_of_here).
      rewrite (decide_False (P := Vocabulary.topic v ∈ topics))
        by (by rewrite Ht).
      simpl. by rewrite IHv.
    + destruct (decide (Vocabulary.topic v ∈ topics)) as [Hin|Hin].
      * rewrite (decide_True (P := Vocabulary.topic v ∈ t :: topics))
          by (by apply list_elem_of_further).
        simpl. rewrite <- IHv. lia.
      * rewrite (decide_False (P := Vocabulary.topic v ∈ t :: topics))
          by (rewrite elem_of_cons; tauto).
        done.
Qed.

(** X19.  [GET /topics] is answered 200 with one entry for every topic that
    a record has, and for no other: each topic is listed once, with the
    number of its records, which is at least one; the counts add up to the
    size of the collection; and the names are in ascending order of their
    code units, a missing topic last.  The file is left as it was. *)
Theorem topics_are_listed_once (file : StoreFile) (req : Request) :
  method req = js "GET" →
  let vocabulary := readVocabulary file in
  ∃ stats,
    TopicsRoute.handler file req = (respond 200 (JTopicStats stats), file)
    ∧ NoDup stats.*1
    ∧ (∀ topic, topic ∈ stats.*1
                ↔ ∃ v, v ∈ vocabulary ∧ Vocabulary.topic v = topic)
    ∧ (∀ topic count, (topic, count) ∈ stats →
         1 ≤ count
         ∧ count = length (filter (λ v, Vocabulary.topic v = topic) vocabulary))
    ∧ sum_list stats.*2 = length vocabulary
    ∧ Sorted (λ a b, TopicsRoute.precedes a b = true) stats.*1.
Proof.
  intros Hm vocabulary. unfold TopicsRoute.handler. rewrite Hm.
  change (str_eqb (js "GET") (js "GET")) with true. cbv iota.
  unfold TopicsRoute.handleGet. fold vocabulary. cbv zeta.
  set (topics := TopicsRoute.sort
                   (TopicsRoute.distinct [] (Vocabulary.topic <$> vocabulary))).
  destruct (distinct_spec [] (Vocabulary.topic <$> vocabulary))
    as [Hnodup Hmem].
  assert (∀ topic, topic ∈ topics
                   ↔ ∃ v, v ∈ vocabulary ∧ Vocabulary.topic v = topic) as Hin.
  { intros topic. unfold topics. rewrite sort_perm, Hmem, list_elem_of_fmap.
    split.
    - intros [(v & -> & Hv) _]. eauto.
    - intros (v & Hv & <-). split; [eauto|apply not_elem_of_nil]. }
  eexists. split; [reflexivity|].
  rewrite <- !list_fmap_compose.
  assert (fst ∘ (λ topic : option jsstring,
                   (topic, length (filter (λ v, Vocabulary.topic v = topic)
                                     vocabulary))) <$> topics = topics) as ->.
  { rewrite <- (list_fmap_id topics) at 2. by apply list_fmap_ext. }
  split; [unfold topics; by rewrite sort_perm|]. split; [done|]. split.
  - intros topic count (t & [= <- Hcount] & Ht)%list_elem_of_fmap.
    split; [|done]. rewrite Hcount.
    apply Hin in Ht as (v & Hv & Htopic).
    assert (v ∈ filter (λ u, Vocabulary.topic u = topic) vocabulary) as Hfilter
      by (by apply list_elem_of_filter).
    destruct (filter _ vocabulary); [by apply not_elem_of_nil in Hfilter|].
    simpl. lia.
  - split; [|apply sort_sorted].
    etrans; [apply (counts_sum vocabulary topics)|].
    + unfold topics. by rewrite sort_perm.
    + f_equal. apply filter_all. intros v Hv. apply Hin. eauto.
Qed.

Lemma topics_are_listed_once_witness :
  ∃ stats,
    TopicsRoute.handler (Holds Sample.store) (Sample.request (js "GET") [] [])
    = (respond 200 (JTopicStats stats), Holds Sample.store)
    ∧ NoDup stats.*1
    ∧ (∀ topic, topic ∈ stats.*1
                ↔ ∃ v, v ∈ Sample.store ∧ Vocabulary.topic v = topic)
    ∧ (∀ topic count, (topic, count) ∈ stats →
         1 ≤ count
         ∧ count = length (filter (λ v, Vocabulary.topic v = topic)
                             Sample.store))
    ∧ sum_list stats.*2 = length Sample.store
    ∧ Sorted (λ a b, TopicsRoute.precedes a b = true) stats.*1.
Proof.
  apply (topics_are_listed_once (Holds Sample.store)
           (Sample.request (js "GET") [] [])).
  reflexivity.
Defined.

(** ** Words without surrounding white space stay unique *)

(** What a request to the vocabulary route writes, with the word of the
    record it writes. *)
Lemma vocabulary_handler_writes `{Unicode} `{Engine} file req :
  let r := VocabularyRoute.handler file req in
  let vocabulary := readVocabulary file in
  r.2 = file
  ∨ (∃ w created,
       body req !! "word" = Some (BString w)
       ∧ Vocabulary.word created = trim w
       ∧ (∀ v, v ∈ vocabulary → ¬ Spec.sameWord (Vocabulary.word v) w)
       ∧ r.2 = Holds (vocabulary ++ [created]))
  ∨ (∃ w index old updated,
       body req !! "word" = Some (BString w)
       ∧ vocabulary !! index = Some old
       ∧ Vocabulary.id updated = Vocabulary.id old
       ∧ Vocabulary.word updated = trim w
       ∧ (∀ v, v ∈ vocabulary → Vocabulary.id v ≠ Vocabulary.id old →
               ¬ Spec.sameWord (Vocabulary.word v) w)
       ∧ r.2 = Holds (<[index := updated]> vocabulary))
  ∨ (∃ id,
       r.2 = Holds (filter (λ v, Some (Vocabulary.id v) ≠ parseInt id)
                      vocabulary)).
Proof.
  unfold VocabularyRoute.handler.
  destruct (str_eqb (method req) (js "GET")) eqn:Hget.
  { left. unfold VocabularyRoute.handleGet. by repeat case_match. }
  destruct (str_eqb (method req) (js "POST")) eqn:Hpost.
  { unfold VocabularyRoute.handlePost.
    destruct (body req !! "word") as [[w|k]|] eqn:Hword.
    - destruct (falsy (Some (BString w)) || falsy (body req !! "meaning"));
        [by left|].
      destruct (find_duplicate w (readVocabulary file))
        as (found & Hfind & Hfound).
      simpl in Hfind. simpl. rewrite Hfind. simpl.
      destruct found as [v|]; [by left|].
      destruct (VocabularyRoute.getNextId (readVocabulary file)) as [next|];
        [|by left].
      destruct (asString (body req !! "meaning")) as [m|]; [|by left].
      simpl. right; left. eexists w, _. split; [done|].
      split; [|split; [exact Hfound|reflexivity]]. done.
    - left. unfold andThen. by repeat case_match.
    - by left. }
  destruct (str_eqb (method req) (js "PUT")) eqn:Hput.
  { unfold VocabularyRoute.handlePut.
    destruct (body req !! "word") as [[w|k]|] eqn:Hword.
    - destruct (falsy (body req !! "id") || falsy (Some (BString w))
                || falsy (body req !! "meaning")); [by left|].
      destruct (body req !! "id" ≫= parseIntValue) as [n|]; [|by left].
      destruct (list_find _ _) as [[index old]|] eqn:Hlookup; [|by left].
      apply list_find_Some in Hlookup as (Hold & Hid & _).
      destruct (find_other_duplicate w n (readVocabulary file))
        as (found & Hfind & Hfound).
      simpl in Hfind. simpl. rewrite Hfind. simpl.
      destruct found as [v|]; [by left|].
      destruct (asString (body req !! "meaning")) as [m|]; [|by left].
      simpl. right; right; left. eexists w, index, old, _.
      split; [done|]. split; [exact Hold|].
      split; [|split; [|split; [|reflexivity]]]; [done|done|].
      by rewrite Hid.
    - left. unfold andThen. by repeat case_match.
    - left. destruct (falsy (body req !! "id")); by simpl. }
  destruct (str_eqb (method req) (js "DELETE")) eqn:Hdelete.
  { unfold VocabularyRoute.handleDelete.
    repeat case_match; simplify_eq/=; auto.
    right; right; right. eexists. reflexivity. }
  by left.
Qed.

Lemma sameWord_sym `{Unicode} (a b : jsstring) :
  Spec.sameWord a b → Spec.sameWord b a.
Proof. unfold Spec.sameWord. congruence. Qed.

(** X21.  As long as the word of a request has no white space around it, the
    vocabulary route keeps the words of the collection unique up to case,
    provided the ids are unique: neither a [POST] nor a [PUT] then writes a
    word that another record has. *)
Theorem unpadded_words_stay_unique `{Unicode} `{Engine} (file : StoreFile)
    (req : Request) :
  (∀ w, body req !! "word" = Some (BString w) → trim w = w) →
  uniqueIds (readVocabulary file) →
  Spec.uniqueWords (readVocabulary file) →
  Spec.uniqueWords (readVocabulary (VocabularyRoute.handler file req).2).
Proof.
  intros Hunpadded Hids Hwords.
  destruct (vocabulary_handler_writes file req)
    as [->|[(w & created & Hw & Hword & Hfresh & ->)
       |[(w & index & old & updated & Hw & Hold & Hid & Hword & Hfresh & ->)
        |(id & ->)]]]; cbn [readVocabulary readFileSync_parse].
  - done.
  - rewrite (Hunpadded w Hw) in Hword.
    apply uniqueWords_NoDup. rewrite fmap_app. apply NoDup_app.
    split; [by apply uniqueWords_NoDup|]. split; [|apply NoDup_singleton].
    intros x (v & -> & Hv)%list_elem_of_fmap Hnew.
    apply list_elem_of_singleton in Hnew. simpl in Hnew.
    apply (Hfresh v Hv). unfold Spec.sameWord. by rewrite Hnew, Hword.
  - rewrite (Hunpadded w Hw) in Hword.
    assert (∀ j v, j ≠ index → readVocabulary file !! j = Some v →
                   ¬ Spec.sameWord (Vocabulary.word v) (Vocabulary.word updated))
      as Hother.
    { intros j v Hj Hv. rewrite Hword. apply Hfresh.
      - by eapply list_elem_of_lookup_2.
      - intros Hsame. apply Hj.
        apply (NoDup_lookup _ _ _ (Vocabulary.id v) Hids);
          rewrite list_lookup_fmap; [by rewrite Hv|by rewrite Hold, Hsame]. }
    intros i j v v' Hv Hv' Hsame.
    destruct (decide (i = index)) as [->|Hi], (decide (j = index)) as [->|Hj];
      [done|..].
    + rewrite list_lookup_insert_ne in Hv' by done.
      apply list_lookup_insert_Some in Hv as [(_ & <- & _)|[? _]]; [|done].
      by destruct (Hother j v' Hj Hv'); apply sameWord_sym.
    + rewrite list_lookup_insert_ne in Hv by done.
      apply list_lookup_insert_Some in Hv' as [(_ & <- & _)|[? _]]; [|done].
      by destruct (Hother i v Hi Hv).
    + rewrite list_lookup_insert_ne in Hv, Hv' by done. by eapply Hwords.
  - by apply uniqueWords_filter.
Qed.

Lemma unpadded_words_stay_unique_witness :
  Spec.uniqueWords
    (readVocabulary
       (VocabularyRoute.handler (Holds Sample.store)
          (Sample.request (js "PUT") []
             [("id", BNumber 2); ("word", BString (js "Inu"));
              ("meaning", BString (js "dog"))])).2).
Proof.
  apply (unpadded_words_stay_unique (Holds Sample.store)).
  - intros w Hw. vm_compute in Hw. by injection Hw as <-.
  - apply (bool_decide_unpack _). exact I.
  - apply uniqueWords_NoDup. apply (bool_decide_unpack _). exact I.
Defined.

(** ** Finding a record that was just added *)

(** X20.  A word that was just added is found: after a [POST] answered 201, a
    [GET] without a search term returns the collection with the created
    record at its end, and a [GET] that searches for the created word, in
    whatever case, returns a sublist of it that has the created record. *)
Theorem created_word_is_found `{Unicode} `{Engine} (file : StoreFile)
    (req list search : Request) (created : Vocabulary.t) (term : jsstring) :
  method req = js "POST" →
  (VocabularyRoute.handler file req).1 = respond 201 (JRecord created) →
  method list = js "GET" → query list !! "search" = None →
  method search = js "GET" → query search !! "search" = Some (QSingle term) →
  term ≠ [] → Spec.sameWord term (Vocabulary.word created) →
  let written := (VocabularyRoute.handler file req).2 in
  VocabularyRoute.handler written list
  = (respond 200 (JRecords (readVocabulary file ++ [created])), written)
  ∧ ∃ result,
      VocabularyRoute.handler written search
      = (respond 200 (JRecords result), written)
      ∧ created ∈ result
      ∧ result `sublist_of` readVocabulary file ++ [created].
Proof.
  intros Hm Hcreated Hlist Hnone Hsearch Hterm Hne Hsame written.
  destruct (post_created file req created Hm Hcreated) as [Hwritten _].
  rewrite !vocabulary_handler_get by done.
  unfold VocabularyRoute.handleGet. subst written.
  rewrite Hnone, Hterm, Hwritten. cbn [readVocabulary readFileSync_parse].
  apply truthy_true in Hne. rewrite Hne. simpl. split; [done|].
  eexists. split; [reflexivity|]. split; [|apply sublist_filter].
  apply list_elem_of_filter. split; [|apply elem_of_app; right; apply list_elem_of_here].
  unfold Spec.sameWord in Hsame. rewrite Hsame, includes_self. done.
Qed.

Lemma created_word_is_found_witness :
  let req :=
    Sample.request (js "POST") []
      [("word", BString (js " Sora ")); ("meaning", BString (js "sky"))] in
  let written := (VocabularyRoute.handler (Holds Sample.store) req).2 in
  ∃ created,
    (VocabularyRoute.handler (Holds Sample.store) req).1
    = respond 201 (JRecord created)
    ∧ VocabularyRoute.handler written (Sample.request (js "GET") [] [])
      = (respond 200 (JRecords (Sample.store ++ [created])), written)
    ∧ ∃ result,
        VocabularyRoute.handler written
          (Sample.request (js "GET") [("search", QSingle (js "SORA"))] [])
        = (respond 200 (JRecords result), written)
        ∧ created ∈ result
        ∧ result `sublist_of` Sample.store ++ [created].
Proof.
  eexists. split; [reflexivity|].
  apply (created_word_is_found (Holds Sample.store)
           (Sample.request (js "POST") []
              [("word", BString (js " Sora ")); ("meaning", BString (js "sky"))])
           (Sample.request (js "GET") [] [])
           (Sample.request (js "GET") [("search", QSingle (js "SORA"))] [])
           _ (js "SORA"));
    try reflexivity.
  done.
Defined.

(** ** The pages of the word list *)

Lemma slice_take_drop {A} (array : list A) (s n : nat) :
  slice array (Z.of_nat s) (Z.of_nat s + Z.of_nat n) = take n (drop s array).
Proof.
  unfold slice.
  assert ((Z.of_nat s <? 0)%Z = false) as -> by (apply Z.ltb_ge; lia).
  assert ((Z.of_nat s + Z.of_nat n <? 0)%Z = false) as ->
    by (apply Z.ltb_ge; lia).
  destruct (decide (s ≤ length array)) as [Hs|Hs].
  - rewrite (Z.min_l (Z.of_nat s)) by lia. rewrite Nat2Z.id.
    assert (Z.to_nat (Z.min (Z.of_nat s + Z.of_nat n) (Z.of_nat (length array))
                      - Z.of_nat s)
            = n `min` length (drop s array)) as ->.
    { rewrite length_drop. lia. }
    destruct (decide (n ≤ length (drop s array))) as [Hn|Hn].
    + by rewrite Nat.min_l.
    + rewrite Nat.min_r by lia. by rewrite !take_ge by lia.
  - rewrite !Z.min_r by lia. rewrite Z.sub_diag, Nat2Z.id. simpl.
    rewrite take_0. rewrite (drop_ge array s) by lia. by rewrite take_nil.
Qed.

Lemma currentVocabulary_chunk (l : list Vocabulary.t) (k : nat) :
  Page.currentVocabulary l (Z.of_nat (S k))
  = take Page.itemsPerPage (drop (k * Page.itemsPerPage) l).
Proof.
  unfold Page.currentVocabulary. cbv zeta.
  assert ((Z.of_nat (S k) - 1) * Z.of_nat Page.itemsPerPage
          = Z.of_nat (k * Page.itemsPerPage))%Z as -> by lia.
  apply slice_take_drop.
Qed.

Lemma chunks_concat {A} (d k : nat) (l : list A) :
  length l ≤ k * d →
  concat ((λ i, take d (drop (i * d) l)) <$> seq 0 k) = l.
Proof.
  revert l. induction k as [|k IH]; intros l Hlen.
  - destruct l; [done|simpl in Hlen; lia].
  - cbn [seq]. rewrite fmap_cons, <- fmap_S_seq, <- list_fmap_compose.
    cbn [concat]. rewrite drop_0.
    transitivity (take d l ++ drop d l); [|apply take_drop]. f_equal.
    etrans; [|apply (IH (drop d l)); rewrite length_drop; lia].
    f_equal. apply list_fmap_ext. intros _ i _. simpl.
    by rewrite drop_drop.
Qed.

Lemma ceilDiv_bounds (n d : nat) :
  0 < d → n ≤ ceilDiv n d * d ∧ ceilDiv n d * d < n + d.
Proof.
  intros Hd. unfold ceilDiv.
  pose proof (Nat.div_mod n d ltac:(lia)) as Hdiv.
  pose proof (Nat.mod_upper_bound n d ltac:(lia)) as Hmod.
  destruct (Nat.eqb_spec (n mod d) 0) as [Hzero|Hpos]; nia.
Qed.

(** X22.  The pages of the word list show every record once: the pages
    [1 .. totalPages], of 50 records each but for the last, put one after the
    other give the filtered list; no page within that range is empty, and
    every page beyond it is. *)
Theorem pages_show_every_record_once (filteredVocabulary : list Vocabulary.t) :
  let page := λ p : nat,
    Page.currentVocabulary filteredVocabulary (Z.of_nat p) in
  let totalPages := Page.totalPages filteredVocabulary in
  concat (page <$> seq 1 totalPages) = filteredVocabulary
  ∧ (∀ p, 1 ≤ p < totalPages → length (page p) = 50)
  ∧ (1 ≤ totalPages → 1 ≤ length (page totalPages) ≤ 50)
  ∧ (∀ p, totalPages < p → page p = []).
Proof.
  intros page totalPages.
  destruct (ceilDiv_bounds (length filteredVocabulary) Page.itemsPerPage)
    as [Hlow Hhigh]; [unfold Page.itemsPerPage; lia|].
  fold (Page.totalPages filteredVocabulary) in Hlow, Hhigh.
  fold totalPages in Hlow, Hhigh. unfold Page.itemsPerPage in Hlow, Hhigh.
  assert (∀ k, page (S k) = take 50 (drop (k * 50) filteredVocabulary))
    as Hpage by (intros k; apply currentVocabulary_chunk).
  clearbody totalPages page.
  split; [|split; [|split]].
  - rewrite <- fmap_S_seq, <- list_fmap_compose.
    etrans; [|apply (chunks_concat 50 totalPages filteredVocabulary Hlow)].
    f_equal. apply list_fmap_ext. intros _ k _. apply Hpage.
  - intros [|k] Hp; [lia|]. rewrite Hpage, length_take, length_drop. lia.
  - destruct totalPages as [|k]; [lia|]. intros _.
    rewrite Hpage, length_take, length_drop. lia.
  - intros [|k] Hp; [lia|]. rewrite Hpage, drop_ge by lia. apply take_nil.
Qed.

(** ** What the forms of the vocabulary page can be answered *)




(** X24.  Adding words to a topic by selecting them from the list adds
    nothing: the page posts each selected word again, and since the word is
    in the collection the route turns every such request down with 400,
    leaving the file as it was. *)
Theorem bulk_select_adds_nothing `{Unicode} `{Engine} (file : StoreFile)
    (selected : Vocabulary.t) (bulkTopic : jsstring) :
  selected ∈ readVocabulary file →
  let r := VocabularyRoute.handler file (Page.bulkSelectRequest selected bulkTopic) in
  r.2 = file
  ∧ (r.1 = respond 400 (JError (js "Word already exists"))
     ∨ r.1 = respond 400 (JError (js "Word and meaning are required"))
       ∧ (Vocabulary.word selected = [] ∨ Vocabulary.meaning selected = [])).
Proof.
  intros Hselected. cbv zeta. rewrite vocabulary_handler_post by done.
  unfold VocabularyRoute.handlePost, Page.bulkSelectRequest. cbn [body].
  rewrite lookup_insert_eq, lookup_insert_ne, lookup_insert_eq by done.
  unfold falsy.
  destruct (truthy (Vocabulary.word selected)) eqn:Hw; cbn [negb orb].
  2: { apply truthy_false in Hw. split; [done|]. right. split; [done|by left]. }
  destruct (truthy (Vocabulary.meaning selected)) eqn:Hm; cbn [negb orb].
  2: { apply truthy_false in Hm. split; [done|]. right. split; [done|by right]. }
  destruct (find_duplicate (Vocabulary.word selected) (readVocabulary file))
    as (found & Hfind & Hfound).
  simpl in Hfind. simpl. rewrite Hfind. simpl.
  destruct found as [v|]; [split; [done|by left]|].
  by destruct (Hfound selected Hselected).
Qed.

Lemma bulk_select_adds_nothing_witness :
  let selected :=
    Sample.entry 2 (js "いぬ") (js "dog") (js "inu") (js "animals") in
  let r :=
    VocabularyRoute.handler (Holds Sample.store)
      (Page.bulkSelectRequest selected (js "pets")) in
  r.2 = Holds Sample.store
  ∧ (r.1 = respond 400 (JError (js "Word already exists"))
     ∨ r.1 = respond 400 (JError (js "Word and meaning are required"))
       ∧ (Vocabulary.word selected = [] ∨ Vocabulary.meaning selected = [])).
Proof.
  apply (bulk_select_adds_nothing (Holds Sample.store)
           (Sample.entry 2 (js "いぬ") (js "dog") (js "inu") (js "animals"))
           (js "pets")).
  apply list_elem_of_further, list_elem_of_here.
Defined.

(** ** Deleting a topic of the list *)

(** The entries of the topic list: the topics that a record has, each with
    the number of its records. *)
Lemma topic_stats_entry (vocabulary : list Vocabulary.t)
    (topic : option jsstring) (count : nat) :
  (topic, count)
    ∈ ((λ topic,
          (topic, length (filter (λ v, Vocabulary.topic v = topic) vocabulary)))
         <$> TopicsRoute.sort
               (TopicsRoute.distinct [] (Vocabulary.topic <$> vocabulary)))
  ↔ (∃ v, v ∈ vocabulary ∧ Vocabulary.topic v = topic)
    ∧ count = length (filter (λ v, Vocabulary.topic v = topic) vocabulary).
Proof.
  destruct (distinct_spec [] (Vocabulary.topic <$> vocabulary)) as [_ Hmem].
  rewrite list_elem_of_fmap. split.
  - intros (t & [= -> ->] & Ht). split; [|done].
    rewrite sort_perm, Hmem, list_elem_of_fmap in Ht.
    destruct Ht as [(v & -> & Hv) _]. eauto.
  - intros [(v & Hv & Htopic) ->]. exists topic. split; [done|].
    rewrite sort_perm, Hmem, list_elem_of_fmap.
    split; [eauto|apply not_elem_of_nil].
Qed.

Lemma topics_handler_get file req :
  method req = js "GET" →
  TopicsRoute.handler file req
  = (respond 200
       (JTopicStats
          ((λ topic,
              (topic, length (filter (λ v, Vocabulary.topic v = topic)
                                (readVocabulary file))))
             <$> TopicsRoute.sort
                   (TopicsRoute.distinct []
                      (Vocabulary.topic <$> readVocabulary file)))),
     file).
Proof. intros Hm. unfold TopicsRoute.handler. by rewrite Hm. Qed.

(** X25.  A topic of the list can be deleted by its name when the name has
    no white space around it and is not empty: [DELETE /topics] then removes
    as many records as the list counted for the topic, and the list that
    [GET /topics] gives afterwards has the same entries but for that
    topic. *)
Theorem listed_topic_can_be_deleted (file : StoreFile) (get delete : Request)
    (stats : list (option jsstring * nat)) (name : jsstring) (count : nat) :
  method get = js "GET" →
  TopicsRoute.handler file get = (respond 200 (JTopicStats stats), file) →
  (Some name, count) ∈ stats →
  trim name = name → name ≠ [] →
  method delete = js "DELETE" →
  body delete !! "name" = Some (BString name) →
  ∃ message kept stats',
    TopicsRoute.handler file delete
    = (respond 200 (JDeleted message count), Holds kept)
    ∧ TopicsRoute.handler (Holds kept) get
      = (respond 200 (JTopicStats stats'), Holds kept)
    ∧ ∀ entry, entry ∈ stats' ↔ entry ∈ stats ∧ entry.1 ≠ Some name.
Proof.
  intros Hget Hstats Hentry Htrim Hne Hdelete Hname.
  rewrite topics_handler_get in Hstats by done.
  injection Hstats as <-.
  apply topic_stats_entry in Hentry as [Hsome ->].
  destruct (topic_delete_result file delete name Hdelete Hname)
    as [Hresult _]; [by rewrite Htrim|].
  rewrite Htrim in Hresult. destruct (Hresult Hsome) as [_ ->].
  eexists _, _, _. split; [reflexivity|].
  split; [by apply topics_handler_get|].
  cbn [readVocabulary readFileSync_parse].
  intros [topic n]. rewrite !topic_stats_entry. cbn [fst].
  destruct (decide (topic = Some name)) as [->|Hother].
  - split; [|tauto]. intros [(v & Hv & Htopic) _].
    by apply list_elem_of_filter in Hv as [Hv _].
  - assert (filter (λ v, Vocabulary.topic v = topic)
              (filter (λ v, Vocabulary.topic v ≠ Some name)
                 (readVocabulary file))
            = filter (λ v, Vocabulary.topic v = topic) (readVocabulary file))
      as ->.
    { rewrite list_filter_filter. apply list_filter_iff. intros v.
      split; [tauto|]. intros Hv. split; [done|congruence]. }
    split.
    + intros [(v & [_ Hv]%list_elem_of_filter & Htopic) ->]. eauto.
    + intros [[(v & Hv & Htopic) ->] _]. split; [|done].
      exists v. split; [|done]. apply list_elem_of_filter.
      split; [congruence|done].
Qed.

Lemma listed_topic_can_be_deleted_witness :
  let get := Sample.request (js "GET") [] [] in
  let delete :=
    Sample.request (js "DELETE") [] [("name", BString (js "nature"))] in
  let stats := [(Some (js "animals"), 2); (Some (js "nature"), 2)] in
  ∃ message kept stats',
    TopicsRoute.handler (Holds Sample.store) delete
    = (respond 200 (JDeleted message 2), Holds kept)
    ∧ TopicsRoute.handler (Holds kept) get
      = (respond 200 (JTopicStats stats'), Holds kept)
    ∧ ∀ entry, entry ∈ stats' ↔ entry ∈ stats ∧ entry.1 ≠ Some (js "nature").
Proof.
  apply (listed_topic_can_be_deleted (Holds Sample.store)
           (Sample.request (js "GET") [] [])
           (Sample.request (js "DELETE") [] [("name", BString (js "nature"))])
           [(Some (js "animals"), 2); (Some (js "nature"), 2)]
           (js "nature") 2);
    [reflexivity|reflexivity|apply list_elem_of_further, list_elem_of_here
    |reflexivity|done|reflexivity|reflexivity].
Defined.

(** ** Every word can be asked *)

(** The question is about the record at the index of the first draw. *)
Lemma generateQuestion_item vocabulary mode topic e q e' :
  Quiz.generateQuestion vocabulary mode topic e = (Returned (Some q), e') →
  let filtered := Quiz.filterByTopic vocabulary topic in
  ∃ item,
    filtered !! N.to_nat (e 0 mod 2 ^ 53 * N.of_nat (length filtered) / 2 ^ 53)
    = Some item
    ∧ QuizQuestion.id q = Vocabulary.id item
    ∧ QuizQuestion.word q = Vocabulary.word item.
Proof.
  unfold Quiz.generateQuestion. cbv zeta.
  destruct (length (Quiz.filterByTopic vocabulary topic) =? 0); [done|].
  destruct (length vocabulary <? 4); [done|].
  unfold bind at 1. unfold randomIndex, bind at 1. unfold Math_random, ret at 1.
  cbv beta iota. unfold bind at 1. unfold element at 1.
  destruct (Quiz.filterByTopic vocabulary topic !! _) as [item|] eqn:Hitem;
    [|done].
  unfold ret at 1. cbv beta iota.
  intros Hq. exists item. split; [done|].
  revert Hq. unfold bind, ret.
  repeat case_match; intros; simplify_eq/=; done.
Qed.

(** A draw that gives a chosen index below [n]. *)
Lemma draw_for_index (i n : N) :
  (i < n)%N → (n ≤ 2 ^ 53)%N →
  let m := ((i * 2 ^ 53 + n - 1) / n)%N in
  (m mod 2 ^ 53 * n / 2 ^ 53 = i)%N.
Proof.
  generalize (2 ^ 53)%N. intros p Hi Hn m.
  pose proof (N.div_mod (i * p + n - 1) n ltac:(lia)) as Hdiv.
  pose proof (N.mod_lt (i * p + n - 1) n ltac:(lia)) as Hmod.
  fold m in Hdiv. clearbody m.
  set (r := ((i * p + n - 1) mod n)%N) in *. clearbody r.
  assert (i * p ≤ n * m ∧ n * m < i * p + n)%N as [Hlow Hhigh] by lia.
  assert (m < p)%N as Hm by nia.
  rewrite N.mod_small by done.
  symmetry. apply (N.div_unique _ _ _ (m * n - i * p)); lia.
Qed.

(** X26.  Every word that the topic filter selects can come up: for each
    record of the filtered collection there is a sequence of random draws
    on which [GET /quiz] asks about that record, as long as the collection
    has at least four records (and no more than [2^53]). *)
Theorem every_word_can_be_asked `{Unicode} (file : StoreFile) (req : Request)
    (item : Vocabulary.t) :
  method req = js "GET" →
  let vocabulary := readVocabulary file in
  4 ≤ length vocabulary →
  (N.of_nat (length vocabulary) ≤ 2 ^ 53)%N →
  item ∈ vocabulary →
  Spec.inTopic (Spec.topicFilter req) item →
  ∃ e q,
    (Quiz.handler file req e).1 = respond 200 (JQuestion q)
    ∧ QuizQuestion.id q = Vocabulary.id item
    ∧ QuizQuestion.word q = Vocabulary.word item.
Proof.
  intros Hm vocabulary H4 Hmax Hitem Htopic.
  set (filtered :=
         Quiz.filterByTopic vocabulary (Quiz.queryString (query req !! "topic"))).
  assert (item ∈ filtered) as Hin by (by apply elem_of_filterByTopic).
  apply list_elem_of_lookup_1 in Hin as [i Hi].
  pose proof (lookup_lt_Some _ _ _ Hi) as Hlt.
  assert (length filtered ≤ length vocabulary) as Hle.
  { unfold filtered, Quiz.filterByTopic. case_match; [apply length_filter|done]. }
  set (m := ((N.of_nat i * 2 ^ 53 + N.of_nat (length filtered) - 1)
             / N.of_nat (length filtered))%N).
  exists (λ _, m).
  destruct (handleGet_cases file req (λ _, m)) as [_ H200].
  destruct H200 as (correctItem & q & e' & Hget & Hgen & _); [done| |].
  { fold vocabulary filtered. intros Hnil. rewrite Hnil in Hlt. simpl in Hlt. lia. }
  exists q. rewrite (handler_get _ _ _ Hm). unfold Quiz.catch. rewrite Hget.
  split; [done|].
  apply generateQuestion_item in Hgen as (item' & Hitem' & Hid & Hword).
  fold vocabulary filtered in Hitem'. cbv beta in Hitem'.
  unfold m in Hitem'. rewrite draw_for_index in Hitem' by lia.
  rewrite Nat2N.id, Hi in Hitem'. by injection Hitem' as <-.
Qed.

Lemma every_word_can_be_asked_witness :
  ∃ e q,
    (Quiz.handler (Holds Sample.store)
       (Sample.request (js "GET") [("topic", QSingle (js "nature"))] []) e).1
    = respond 200 (JQuestion q)
    ∧ QuizQuestion.id q = 4%Z
    ∧ QuizQuestion.word q = js "ひ".
Proof.
  apply (every_word_can_be_asked (Holds Sample.store)
           (Sample.request (js "GET") [("topic", QSingle (js "nature"))] [])
           (Sample.entry 4 (js "ひ") (js "fire") (js "hi") (js "nature")));
    [reflexivity|simpl; lia|done| |reflexivity].
  do 3 apply list_elem_of_further. apply list_elem_of_here.
Defined.
